(** * Jukebox_online: playlists, songs and the play-history migrator

    A shallow embedding of [migrate_playback_history.py],
    [models/song.py] and [models/playlists.py].

    Conventions of the embedding.
    - Python values that travel through JSON are values of [json].  JSON
      numbers are integers ([Z], unbounded as Python's [int]);
      floating-point numbers are not represented.  [bool] is a subclass
      of [int] in Python, so [JBool] takes part in comparisons as 0 / 1.
    - A [dict] is an association list in insertion order, as Python
      dicts are; [dict_set] overwrites in place or appends.
    - An operation that raises returns [Raise]; [try]/[except] blocks of
      the source become matches on it.
    - Strings are held as their UTF-8 bytes.
    - The file system is a finite map from paths to contents.  A file
      is either text that [json.load] reads as some value of [json], or
      text that it rejects.  [json.dump] of a value followed by
      [json.load] gives the value back; [json.dump] raises on a value
      it cannot encode ([encodable]) and leaves the file cut short.
      Every path that the code opens for writing can be opened, and the
      device has room: failures of the environment are not modelled.
      What the code prints is left out.
    - A reading of [time.time()] is represented by its whole number of
      milliseconds, so that [int(t * 1000)] is the reading itself and
      [int(t)] its quotient by 1000; stored in a field it is the JSON
      number of that representation.  One reading serves a whole call
      of a constructor or method.
    - Objects are typed as the source annotates them: playlist ids are
      strings, [songs] is a list.  Stored JSON that does not fit these
      types is reported as [Untyped], not interpreted.
    - Library functions ([urllib.parse], [os.path], [str.lower]) are
      parameters of the model, gathered in [Song.Library]. *)

From Stdlib Require Import ZArith List Ascii String Bool Lia.
From Stdlib Require Import DecimalString Sorting.Permutation Sorting.Sorted.
From stdpp Require Import base option list strings gmap.

Set Warnings "-register-all,-clear-no-such-hyp".

Open Scope string_scope.
Open Scope list_scope.
Open Scope Z_scope.

(** ** Python values *)

Module Py.

Inductive json : Type :=
| JNull
| JBool (b : bool)
| JNum (n : Z)
| JStr (s : string)
| JList (l : list json)
| JObj (kvs : list (string * json)).

Abbreviation dict := (list (string * json)).

(** Outcome of a computation that may raise. *)
Inductive result (A : Type) : Type :=
| Ok (a : A)
| Raise.
Arguments Ok {A} a.
Arguments Raise {A}.

Definition bind {A B} (r : result A) (k : A -> result B) : result B :=
  match r with
  | Ok a => k a
  | Raise => Raise
  end.

Notation "'let*' x := r 'in' k" := (bind r (fun x => k))
  (at level 10, x name, r at level 100, k at level 200,
   format "'[v' 'let*'  x  :=  r  'in' '/' k ']'").

(** [bool(v)] *)
Definition truthy (v : json) : bool :=
  match v with
  | JNull => false
  | JBool b => b
  | JNum n => negb (n =? 0)
  | JStr s => negb (String.eqb s "")
  | JList l => match l with [] => false | _ => true end
  | JObj d => match d with [] => false | _ => true end
  end.

(** [a or b] *)
Definition py_or (a b : json) : json := if truthy a then a else b.

(** The integer value of an [int] or [bool]. *)
Definition num_of (v : json) : option Z :=
  match v with
  | JNum n => Some n
  | JBool b => Some (if b then 1 else 0)
  | _ => None
  end.

(** [a > b] where at least one side is known to be a number: any other
    operand raises [TypeError]. *)
Definition py_gt (a b : json) : result bool :=
  match num_of a, num_of b with
  | Some x, Some y => Ok (x >? y)
  | _, _ => Raise
  end.

(** [hash(v)] succeeds *)
Definition hashable (v : json) : bool :=
  match v with
  | JList _ | JObj _ => false
  | _ => true
  end.

Fixpoint dict_get (d : dict) (k : string) : option json :=
  match d with
  | [] => None
  | (k', v) :: d' => if String.eqb k' k then Some v else dict_get d' k
  end.

(** [d.get(k, dflt)]; [d.get(k)] is [dict_get_d d k JNull]. *)
Definition dict_get_d (d : dict) (k : string) (dflt : json) : json :=
  match dict_get d k with
  | Some v => v
  | None => dflt
  end.

(** [d[k] = v] *)
Fixpoint dict_set (d : dict) (k : string) (v : json) : dict :=
  match d with
  | [] => [(k, v)]
  | (k', v') :: d' =>
      if String.eqb k' k then (k', v) :: d' else (k', v') :: dict_set d' k v
  end.

(** [a == b] *)
Fixpoint py_eq (a b : json) {struct a} : bool :=
  match a, b with
  | JNull, JNull => true
  | JStr s, JStr t => String.eqb s t
  | JList l, JList m =>
      (fix all2 (l m : list json) {struct l} : bool :=
         match l, m with
         | [], [] => true
         | x :: l', y :: m' => py_eq x y && all2 l' m'
         | _, _ => false
         end) l m
  | JObj d, JObj e =>
      (length d =? length e)%nat &&
      (fix sub (d : dict) {struct d} : bool :=
         match d with
         | [] => true
         | (k, v) :: d' =>
             match dict_get e k with
             | Some w => py_eq v w
             | None => false
             end && sub d'
         end) d
  | _, _ =>
      match num_of a, num_of b with
      | Some x, Some y => x =? y
      | _, _ => false
      end
  end.

(** [x in l] for a list [l] *)
Definition py_in (x : json) (l : list json) : bool := existsb (py_eq x) l.

(** [str(n)] for an [int] *)
Definition str_of_Z (n : Z) : string := NilZero.string_of_int (Z.to_int n).

(** [str(v)] for scalars; the [repr] of containers is not modelled and
    never requested. *)
Definition py_str (v : json) : string :=
  match v with
  | JNull => "None"
  | JBool true => "True"
  | JBool false => "False"
  | JNum n => str_of_Z n
  | JStr s => s
  | _ => ""
  end.

(** [sep.join(l)] *)
Fixpoint join (sep : string) (l : list string) : string :=
  match l with
  | [] => ""
  | [s] => s
  | s :: l' => String.append s (String.append sep (join sep l'))
  end.

(** A [str] may hold a lone surrogate (JSON text can spell one as an
    escape); it is held as the three bytes [ED A0..BF 80..BF] that the
    [surrogatepass] handler gives it.  In well-formed text the byte
    [ED] is followed by [A0..BF] in no other case. *)
Fixpoint has_surrogate (s : string) : bool :=
  match s with
  | EmptyString => false
  | String c s' =>
      ((nat_of_ascii c =? 237)%nat &&
       match s' with
       | String d _ => (160 <=? nat_of_ascii d)%nat && (nat_of_ascii d <=? 191)%nat
       | EmptyString => false
       end)
      || has_surrogate s'
  end.

(** [json.dump(v, f, ensure_ascii=False)] into a file opened with
    [encoding="utf-8"] can write [v]: no string of [v], key or value,
    holds a lone surrogate.  Where it cannot, the write raises
    [UnicodeEncodeError]. *)
Fixpoint encodable (v : json) : bool :=
  match v with
  | JStr s => negb (has_surrogate s)
  | JList l => forallb encodable l
  | JObj d =>
      (fix all (d : dict) {struct d} : bool :=
         match d with
         | [] => true
         | (k, w) :: d' => negb (has_surrogate k) && encodable w && all d'
         end) d
  | _ => true
  end.

(** A dict keyed by hashable values, in insertion order. *)
Section KeyedDict.
Context {V : Type}.

Fixpoint kd_get (m : list (json * V)) (k : json) : option V :=
  match m with
  | [] => None
  | (k', v) :: m' => if py_eq k' k then Some v else kd_get m' k
  end.

Fixpoint kd_set (m : list (json * V)) (k : json) (v : V) : list (json * V) :=
  match m with
  | [] => [(k, v)]
  | (k', v') :: m' =>
      if py_eq k' k then (k', v) :: m' else (k', v') :: kd_set m' k v
  end.
End KeyedDict.

End Py.

Import Py.

(** ** The file system *)

Inductive file : Type :=
| Parsed (j : json)   (* text that [json.load] reads as [j] *)
| Corrupt.            (* text that [json.load] rejects *)

Abbreviation filesystem := (gmap string file).

(** [with open(path, "w", encoding="utf-8") as f: json.dump(data, f, ...)]:
    the file system afterwards, and whether the dump went through.
    [open] empties the file and [json.dump] writes piece by piece, so a
    dump that meets a string it cannot encode raises with the file cut
    short, which [json.load] rejects. *)
Definition write_json (fs : filesystem) (path : string) (data : json)
  : filesystem * bool :=
  if encodable data then (<[path := Parsed data]> fs, true)
  else (<[path := Corrupt]> fs, false).

(** ** migrate_playback_history.py *)

Module Migrate.

(** Loop state of lines 36-52: [aggregated] and [url_timestamps]. *)
Record agg_state := {
  aggregated : list (json * dict);
  url_timestamps : list (json * list json)
}.

Definition agg_init : agg_state :=
  {| aggregated := []; url_timestamps := [] |}.

(** [item.get('ts') or item.get('timestamp', 0)] *)
Definition event_ts (item : dict) : json :=
  py_or (dict_get_d item "ts" JNull) (dict_get_d item "timestamp" (JNum 0)).

(** One iteration of the loop at lines 39-52. *)
Definition agg_step (st : agg_state) (item : json) : result agg_state :=
  match item with
  | JObj d =>
      let url := dict_get_d d "url" (JStr "") in
      let ts := event_ts d in
      if negb (truthy url) then Ok st
      else
        let* pos := py_gt ts (JNum 0) in
        if negb (hashable url) then Raise
        else
          let uts :=
            if (pos : bool)
            then kd_set (url_timestamps st) url
                   (default [] (kd_get (url_timestamps st) url) ++ [ts])
            else url_timestamps st in
          let* newer := match kd_get (aggregated st) url with
                        | None => Ok true
                        | Some old => py_gt ts (dict_get_d old "ts" (JNum 0))
                        end in
          Ok {| aggregated :=
                  if (newer : bool) then kd_set (aggregated st) url d
                  else aggregated st;
                url_timestamps := uts |}
  | _ => Raise
  end.

Fixpoint agg_loop (st : agg_state) (data : list json) : result agg_state :=
  match data with
  | [] => Ok st
  | item :: rest => let* st' := agg_step st item in agg_loop st' rest
  end.

Definition key_of (v : json) : Z := default 0 (num_of v).

(** [set(l)] keeps the first of equal elements. *)
Fixpoint dedup_keep_first (l : list json) : list json :=
  match l with
  | [] => []
  | x :: l' => x :: List.filter (fun y => negb (py_eq x y)) (dedup_keep_first l')
  end.

Fixpoint insert_asc (x : json) (l : list json) : list json :=
  match l with
  | [] => [x]
  | y :: l' => if key_of x <=? key_of y then x :: l else y :: insert_asc x l'
  end.

(** [sorted(l)] for a list of numbers *)
Definition sorted_asc (l : list json) : list json := foldr insert_asc [] l.

(** Lines 58-64: the derived fields of one aggregated record. *)
Definition derive (uts : list (json * list json)) (url : json) (item : dict) : dict :=
  let timestamps := sorted_asc (dedup_keep_first (default [] (kd_get uts url))) in
  let ts := List.last timestamps (JNum 0) in
  let item := dict_set item "ts" ts in
  let item := dict_set item "timestamp" ts in
  let item := dict_set item "play_count" (JNum (Z.of_nat (length timestamps))) in
  dict_set item "timestamps" (JStr (join "," (map py_str timestamps))).

(** Key of the final sort: [x.get('ts', 0)], a number by construction. *)
Definition sort_key (item : dict) : Z := key_of (dict_get_d item "ts" (JNum 0)).

(** [list.sort(key=..., reverse=True)] is stable: an element is placed
    after the elements with a strictly greater key and before the
    later elements with an equal or smaller key. *)
Fixpoint insert_desc (x : dict) (l : list dict) : list dict :=
  match l with
  | [] => [x]
  | y :: l' => if sort_key y >? sort_key x then y :: insert_desc x l' else x :: l
  end.

Definition sort_desc (l : list dict) : list dict := foldr insert_desc [] l.

(** Lines 36-69: from the loaded list to [migrated_data]. *)
Definition migrate_data (data : list json) : result (list dict) :=
  let* st := agg_loop agg_init data in
  Ok (sort_desc (map (fun '(url, item) => derive (url_timestamps st) url item)
                     (aggregated st))).

Definition backup_path (file_path : string) : string :=
  String.append file_path ".backup".

(** The whole function: the returned flag and the file system after the
    call.  A write that raises (lines 74-75 or 79-80) is caught at line
    88 like every other exception: the call returns false, with the
    file it was writing cut short. *)
Definition migrate_playback_history (fs : filesystem) (file_path : string)
  : bool * filesystem :=
  match fs !! file_path with
  | None => (false, fs)
  | Some Corrupt => (false, fs)
  | Some (Parsed (JList data)) =>
      match migrate_data data with
      | Raise => (false, fs)
      | Ok migrated =>
          let backup :=
            match fs !! backup_path file_path with
            | None => write_json fs (backup_path file_path) (JList data)
            | Some _ => (fs, true)
            end in
          if backup.2
          then
            let main := write_json backup.1 file_path (JList (map JObj migrated)) in
            (main.2, main.1)
          else (false, backup.1)
      end
  | Some (Parsed _) => (false, fs)
  end.

End Migrate.

(** ** models/song.py *)

Module Strings.

(** [needle in hay] *)
Fixpoint contains (needle hay : string) : bool :=
  String.prefix needle hay ||
  match hay with
  | EmptyString => false
  | String _ hay' => contains needle hay'
  end.

(** [s.startswith(p)] *)
Definition startswith (s p : string) : bool := String.prefix p s.

Definition snoc (s : string) (c : ascii) : string :=
  String.append s (String c EmptyString).

(** [s.split(sep)] for a non-empty [sep]: [skip] counts the characters
    of a separator found earlier that are still to be passed over,
    [piece] is the piece read so far. *)
Fixpoint split_go (sep : string) (skip : nat) (piece : string) (s : string)
  : list string :=
  match s with
  | EmptyString => [piece]
  | String c s' =>
      match skip with
      | S k => split_go sep k piece s'
      | O =>
          if String.prefix sep s
          then piece :: split_go sep (String.length sep - 1) EmptyString s'
          else split_go sep O (snoc piece c) s'
      end
  end.

Definition split (sep s : string) : list string :=
  split_go sep O EmptyString s.

(** [s.lstrip(c)] for a single character [c] *)
Fixpoint lstrip (c : ascii) (s : string) : string :=
  match s with
  | String c' s' => if Ascii.eqb c' c then lstrip c s' else s
  | EmptyString => EmptyString
  end.

End Strings.

Module Song.
Import Strings.

(** The components of [urllib.parse.ParseResult] that the code reads. *)
Record ParseResult := {
  netloc : string;
  path : string;
  query : string
}.

(** The fields that [Song.__init__] sets. *)
Record Song := {
  url : json;
  title : json;
  type : json;
  duration : json;
  timestamp : Z;
  thumbnail_url : json
}.

Record LocalSong := {
  local_base : Song;
  file_path : string;
  file_name : string;
  file_extension : string
}.

Record StreamSong := {
  stream_base : Song;
  stream_url : json;
  stream_type : json;
  video_id : string
}.

Inductive AnySong : Type :=
| Local (s : LocalSong)
| Stream (s : StreamSong).

(** The placeholder title of line 224 ("loading", in Chinese), as its
    UTF-8 bytes. *)
Definition loading_title : string := "加载中…".

(** Library functions the module calls; the model is parametric in
    them.  [urlparse] is [urllib.parse.urlparse] on a [str], [None]
    where it raises [ValueError]; [parse_qs] lists the query fields with
    their values; [lower] is [str.lower]; [basename] and [splitext] are
    those of [os.path] on the running platform. *)
Record Library := {
  urlparse : string -> option ParseResult;
  parse_qs : string -> list (string * list string);
  lower : string -> string;
  basename : string -> string;
  splitext : string -> string * string
}.

Section WithLibrary.

Variable lib : Library.

(** Lines 226-253.  For an argument that is not a [str], [urlparse]
    either parses the empty byte string (falsy argument) or raises
    inside the [try]; both ways the result is the empty id. *)
Definition _extract_video_id (u : json) : string :=
  match u with
  | JStr u =>
      match urlparse lib u with
      | None => ""
      | Some parsed =>
          let host := lower lib (netloc parsed) in
          let path := path parsed in
          if contains "youtube.com" host && contains "watch" path then
            match List.find (fun kv => String.eqb (fst kv) "v")
                            (parse_qs lib (query parsed)) with
            | Some (_, v :: _) => v
            | _ => ""
            end
          else if contains "youtube.com" host && startswith path "/shorts/" then
            hd "" (split "?" (hd "" (split "/" (nth 1 (split "/shorts/" path) ""))))
          else if contains "youtube.com" host && startswith path "/embed/" then
            hd "" (split "?" (hd "" (split "/" (nth 1 (split "/embed/" path) ""))))
          else if contains "youtu.be" host then
            hd "" (split "?" (lstrip "/" path))
          else ""
      end
  | _ => ""
  end.

(** Lines 255-265. *)
Definition _get_hq_thumbnail_url (video_id : string) : string :=
  if String.eqb video_id "" then ""
  else String.append "https://img.youtube.com/vi/"
         (String.append video_id "/maxresdefault.jpg").

(** Lines 191-220; [now] is the clock reading in milliseconds. *)
Definition StreamSong_init (now : Z)
    (stream_url title stream_type duration thumbnail_url : json) : StreamSong :=
  let video_id := _extract_video_id stream_url in
  let thumbnail_url :=
    if negb (truthy thumbnail_url) then
      if py_eq stream_type (JStr "youtube") && negb (String.eqb video_id "")
      then JStr (_get_hq_thumbnail_url video_id)
      else thumbnail_url
    else thumbnail_url in
  {| stream_base :=
       {| url := stream_url;
          title := py_or title (JStr loading_title);
          type := stream_type;
          duration := duration;
          timestamp := now / 1000;
          thumbnail_url := thumbnail_url |};
     stream_url := stream_url;
     stream_type := stream_type;
     video_id := video_id |}.

(** Lines 267-269: [self.stream_url.lower()] needs a [str]. *)
Definition is_youtube (s : StreamSong) : result bool :=
  if py_eq (stream_type s) (JStr "youtube") then Ok true
  else match stream_url s with
       | JStr u => Ok (contains "youtube" (lower lib u))
       | _ => Raise
       end.

(** Lines 271-285 with the default quality ["maxres"]. *)
Definition get_thumbnail_url (s : StreamSong) : result string :=
  let* yt := is_youtube s in
  if (yt : bool) && negb (String.eqb (video_id s) "")
  then Ok (String.append "https://img.youtube.com/vi/"
             (String.append (video_id s) "/maxresdefault.jpg"))
  else Ok "".

(** Lines 90-111: [os.path.basename] raises [TypeError] on anything
    but a path string. *)
Definition LocalSong_init (now : Z) (file_path title duration : json)
  : result LocalSong :=
  match file_path with
  | JStr p =>
      Ok {| local_base :=
              {| url := file_path;
                 title := py_or title (JStr (fst (splitext lib (basename lib p))));
                 type := JStr "local";
                 duration := duration;
                 timestamp := now / 1000;
                 thumbnail_url := JNull |};
            file_path := p;
            file_name := basename lib p;
            file_extension := lower lib (snd (splitext lib p)) |}
  | _ => Raise
  end.

(** Lines 61-79. *)
Definition from_dict (now : Z) (data : dict) : result AnySong :=
  let song_type := dict_get_d data "type" (JStr "local") in
  if py_eq song_type (JStr "local") then
    let* s := LocalSong_init now (dict_get_d data "url" (JStr ""))
                (dict_get_d data "title" JNull)
                (dict_get_d data "duration" (JNum 0)) in
    Ok (Local s)
  else
    Ok (Stream (StreamSong_init now (dict_get_d data "url" (JStr ""))
                  (dict_get_d data "title" JNull)
                  song_type
                  (dict_get_d data "duration" (JNum 0))
                  (dict_get_d data "thumbnail_url" JNull))).

End WithLibrary.

End Song.

(** ** models/playlists.py: [Playlist] *)

(** Outcome of building objects from stored JSON.  The objects of the
    model are typed as the source annotates them (string ids, a list of
    songs); [Untyped] marks stored values outside these types, about
    which the model says nothing. *)
Inductive loaded (A : Type) : Type :=
| Loaded (a : A)
| Raises
| Untyped.
Arguments Loaded {A} a.
Arguments Raises {A}.
Arguments Untyped {A}.

Module Playlist.

Record Playlist := {
  id : string;
  name : json;
  songs : list json;
  created_at : json;
  updated_at : json;
  current_playing_index : json
}.

Definition set_songs (pl : Playlist) (l : list json) (now : Z) : Playlist :=
  {| id := id pl; name := name pl; songs := l;
     created_at := created_at pl; updated_at := JNum now;
     current_playing_index := current_playing_index pl |}.

(** The default name of line 24 ("untitled playlist"), as UTF-8 bytes. *)
Definition unnamed : string := "未命名歌单".

Section WithLibrary.

Variable lib : Song.Library.

(** The guard of lines 57 and 91-95. *)
Definition lacks_thumbnail (item : dict) : bool :=
  let s_type := dict_get_d item "type" JNull in
  (py_eq s_type (JStr "youtube") || py_eq s_type (JStr "stream"))
  && negb (truthy (dict_get_d item "thumbnail_url" JNull)).

(** Lines 62-68 and 97-103: the thumbnail of the [StreamSong] built
    from the record. *)
Definition stream_thumbnail (now : Z) (item : dict) : result string :=
  Song.get_thumbnail_url lib
    (Song.StreamSong_init lib now
       (dict_get_d item "url" (JStr ""))
       (dict_get_d item "title" JNull)
       (dict_get_d item "type" JNull)
       (dict_get_d item "duration" (JNum 0))
       JNull).

(** The record after the attempt, and whether it was changed; an
    exception is swallowed. *)
Definition hydrate_item (now : Z) (item : dict) : dict * bool :=
  if lacks_thumbnail item then
    match stream_thumbnail now item with
    | Ok thumb =>
        if negb (String.eqb thumb "")
        then (dict_set item "thumbnail_url" (JStr thumb), true)
        else (item, false)
    | Raise => (item, false)
    end
  else (item, false).

(** Lines 50-76. *)
Fixpoint hydrate_songs (now : Z) (l : list json) : list json * bool :=
  match l with
  | [] => ([], false)
  | JObj item :: l' =>
      let '(item', c) := hydrate_item now item in
      let '(l'', c') := hydrate_songs now l' in
      (JObj item' :: l'', c || c')
  | s :: l' =>
      let '(l'', c') := hydrate_songs now l' in (s :: l'', c')
  end.

Definition _hydrate_stream_thumbnails (now : Z) (pl : Playlist) : Playlist * bool :=
  let '(l, changed) := hydrate_songs now (songs pl) in
  ({| id := id pl; name := name pl; songs := l;
      created_at := created_at pl;
      updated_at := if changed then JNum now else updated_at pl;
      current_playing_index := current_playing_index pl |}, changed).

(** Lines 21-48.  One clock reading [now] serves the construction. *)
Definition __init__ (now : Z)
    (playlist_id name songs created_at updated_at current_playing_index : json)
  : loaded Playlist :=
  match (if truthy playlist_id then playlist_id else JStr (str_of_Z now)),
        (if truthy songs then songs else JList []) with
  | JStr i, JList l =>
      Loaded (fst (_hydrate_stream_thumbnails now
                {| id := i; name := name; songs := l;
                   created_at := py_or created_at (JNum now);
                   updated_at := py_or updated_at (JNum now);
                   current_playing_index := current_playing_index |}))
  | JStr _, (JNum _ | JBool _) => Raises  (* not iterable *)
  | _, _ => Untyped
  end.

(** Lines 78-120.  Returns the flag, the playlist and the argument,
    which the call may have completed with a thumbnail. *)
Definition add_song (now : Z) (pl : Playlist) (song_path_or_dict : json)
  : bool * Playlist * json :=
  match song_path_or_dict with
  | JObj item =>
      let song_item := fst (hydrate_item now item) in
      let url := dict_get_d song_item "url" JNull in
      if existsb (fun s => match s with
                           | JObj d => py_eq (dict_get_d d "url" JNull) url
                           | _ => false
                           end) (songs pl)
      then (false, pl, JObj song_item)
      else (true, set_songs pl (JObj song_item :: songs pl) now, JObj song_item)
  | _ =>
      if py_in song_path_or_dict (songs pl)
      then (false, pl, song_path_or_dict)
      else (true, set_songs pl (song_path_or_dict :: songs pl) now,
            song_path_or_dict)
  end.

End WithLibrary.

(** Lines 159-172; [JNull] is Python's [None]. *)
Definition remove_song_at_index (now : Z) (pl : Playlist) (index : Z)
  : json * Playlist :=
  if (0 <=? index) && (index <? Z.of_nat (length (songs pl))) then
    (nth (Z.to_nat index) (songs pl) JNull,
     set_songs pl (delete (Z.to_nat index) (songs pl)) now)
  else (JNull, pl).

(** [set(a) == set(b)] for lists of hashable values *)
Definition same_set (a b : list json) : bool :=
  forallb (fun x => py_in x b) a && forallb (fun x => py_in x a) b.

(** Lines 187-200: building a set raises [TypeError] on an element
    that is not hashable. *)
Definition reorder_songs (now : Z) (pl : Playlist) (new_order : list json)
  : result (bool * Playlist) :=
  if forallb hashable new_order && forallb hashable (songs pl) then
    if same_set new_order (songs pl)
    then Ok (true, set_songs pl new_order now)
    else Ok (false, pl)
  else Raise.

(** Lines 219-229. *)
Definition to_dict (pl : Playlist) : dict :=
  [ ("id", JStr (id pl));
    ("name", name pl);
    ("songs", JList (songs pl));
    ("song_count", JNum (Z.of_nat (length (songs pl))));
    ("created_at", created_at pl);
    ("updated_at", updated_at pl);
    ("current_playing_index", current_playing_index pl) ].

(** Lines 231-248: [data.get] needs a dict. *)
Definition from_dict (lib : Song.Library) (now : Z) (data : json) : loaded Playlist :=
  match data with
  | JObj d =>
      __init__ lib now
        (dict_get_d d "id" JNull)
        (dict_get_d d "name" (JStr unnamed))
        (dict_get_d d "songs" (JList []))
        (dict_get_d d "created_at" JNull)
        (dict_get_d d "updated_at" JNull)
        (dict_get_d d "current_playing_index" (JNum (-1)))
  | _ => Raises
  end.

End Playlist.

(** ** models/playlists.py: [Playlists] *)

Module Playlists.

Definition DEFAULT_PLAYLIST_ID : string := "default".

(** The name of the default playlist, line 304, as UTF-8 bytes. *)
Definition default_name : string := "默认歌单".

Record Playlists := {
  data_file : string;
  _playlists : gmap string Playlist.Playlist;
  _order : list string
}.

Definition with_playlists (self : Playlists) (m : gmap string Playlist.Playlist)
  : Playlists :=
  {| data_file := data_file self; _playlists := m; _order := _order self |}.

Definition with_order (self : Playlists) (o : list string) : Playlists :=
  {| data_file := data_file self; _playlists := _playlists self; _order := o |}.

(** Lines 387-393. *)
Definition get_all (self : Playlists) : list Playlist.Playlist :=
  omap (fun pid => _playlists self !! pid) (_order self).

(** What [save] writes. *)
Definition stored (self : Playlists) : json :=
  JObj [ ("order", JList (map JStr (_order self)));
         ("playlists", JList (map (fun pl => JObj (Playlist.to_dict pl))
                                  (get_all self))) ].

(** Lines 310-321.  An exception of the write is caught and printed:
    the method returns as usual, with the store file cut short. *)
Definition save (fs : filesystem) (self : Playlists) : filesystem :=
  (write_json fs (data_file self) (stored self)).1.

(** A stored [order]: a list of strings. *)
Fixpoint order_of (l : list json) : option (list string) :=
  match l with
  | [] => Some []
  | JStr s :: l' => option_map (cons s) (order_of l')
  | _ => None
  end.

Section WithLibrary.

Variable lib : Song.Library.

(** Lines 279-287: the loop over the stored records.  [clock i] is
    the clock reading while the record at position [i] is built. *)
Fixpoint load_loop (clock : nat -> Z) (i : nat) (playlists_data : list json)
    (m : gmap string Playlist.Playlist) (order : list string)
    (hydration_changed : bool)
  : loaded (gmap string Playlist.Playlist * list string * bool) :=
  match playlists_data with
  | [] => Loaded (m, order, hydration_changed)
  | pl_data :: rest =>
      match Playlist.from_dict lib (clock i) pl_data with
      | Loaded pl =>
          let '(pl, c) := Playlist._hydrate_stream_thumbnails lib (clock i) pl in
          load_loop clock (S i) rest
            (<[Playlist.id pl := pl]> m)
            (if bool_decide (Playlist.id pl ∈ order) then order
             else order ++ [Playlist.id pl])
            (hydration_changed || c)
      | Raises => Raises
      | Untyped => Untyped
      end
  end.

(** Lines 271-277: the two stored shapes. *)
Definition split_store (data : json) : loaded (list string * list json) :=
  match data with
  | JObj d =>
      match dict_get_d d "order" (JList []) with
      | JList o =>
          match order_of o with
          | Some order =>
              match dict_get_d d "playlists" (JList []) with
              | JList l => Loaded (order, l)
              | JStr "" | JObj [] => Loaded (order, [])
              | _ => Raises
              end
          | None => Untyped
          end
      | _ => Untyped
      end
  | JList l => Loaded ([], l)
  | _ => Loaded ([], [])
  end.

(** Lines 267-300: the state after reading, before the default
    playlist is looked after. *)
Definition load_file (clock : nat -> Z) (fs : filesystem) (self : Playlists)
  : option (Playlists * filesystem) :=
  let reset := {| data_file := data_file self; _playlists := ∅; _order := [] |} in
  match fs !! data_file self with
  | None => Some (reset, fs)
  | Some Corrupt => Some (reset, fs)
  | Some (Parsed data) =>
      match split_store data with
      | Loaded (order, playlists_data) =>
          match load_loop clock 0 playlists_data (_playlists self) order false with
          | Loaded (m, order', changed) =>
              let self' := {| data_file := data_file self;
                              _playlists := m; _order := order' |} in
              Some (self', if (changed : bool) then save fs self' else fs)
          | Raises => Some (reset, fs)
          | Untyped => None
          end
      | Raises => Some (reset, fs)
      | Untyped => None
      end
  end.

(** Lines 302-308; [now] is the clock reading at that point. *)
Definition ensure_default (now : Z) (self : Playlists) (fs : filesystem)
  : Playlists * filesystem :=
  match _playlists self !! DEFAULT_PLAYLIST_ID with
  | Some _ => (self, fs)
  | None =>
      match Playlist.__init__ lib now (JStr DEFAULT_PLAYLIST_ID)
              (JStr default_name) JNull JNull JNull (JNum (-1)) with
      | Loaded default_pl =>
          let self' :=
            {| data_file := data_file self;
               _playlists := <[DEFAULT_PLAYLIST_ID := default_pl]> (_playlists self);
               _order := if bool_decide (DEFAULT_PLAYLIST_ID ∈ _order self)
                         then _order self
                         else DEFAULT_PLAYLIST_ID :: _order self |} in
          (self', save fs self')
      | _ => (self, fs)
      end
  end.

(** Lines 265-308.  [None]: the stored data is outside the typed
    model. *)
Definition load (clock : nat -> Z) (now : Z) (fs : filesystem) (self : Playlists)
  : option (Playlists * filesystem) :=
  match load_file clock fs self with
  | Some (self', fs') => Some (ensure_default now self' fs')
  | None => None
  end.

(** Lines 254-263. *)
Definition __init__ (clock : nat -> Z) (now : Z) (fs : filesystem)
    (data_file : string) : option (Playlists * filesystem) :=
  load clock now fs {| data_file := data_file; _playlists := ∅; _order := [] |}.

End WithLibrary.

(** Lines 407-420. *)
Definition reorder_playlists (fs : filesystem) (self : Playlists)
    (new_order : list string) : bool * Playlists * filesystem :=
  if bool_decide ((list_to_set new_order : gset string) = list_to_set (_order self))
  then (true, with_order self new_order, save fs (with_order self new_order))
  else (false, self, fs).

(** Lines 458-474; a [Playlist] object is always truthy. *)
Definition remove_song_at_index (now : Z) (fs : filesystem) (self : Playlists)
    (playlist_id : string) (index : Z) : json * Playlists * filesystem :=
  match _playlists self !! playlist_id with
  | Some playlist =>
      let '(song_path, playlist') :=
        Playlist.remove_song_at_index now playlist index in
      let self' := with_playlists self (<[playlist_id := playlist']> (_playlists self)) in
      (song_path, self', if truthy song_path then save fs self' else fs)
  | None => (JNull, self, fs)
  end.

End Playlists.

(** ** A reference instance of the library

    Concrete functions to run the model on examples.  They follow the
    Python functions on plain ASCII input: URLs of the shape
    [scheme://host/path?query#fragment], POSIX paths. *)

Module RefLib.
Import Strings.

Definition lower_char (c : ascii) : ascii :=
  let n := nat_of_ascii c in
  if (65 <=? n)%nat && (n <=? 90)%nat then ascii_of_nat (n + 32) else c.

Fixpoint lower (s : string) : string :=
  match s with
  | EmptyString => EmptyString
  | String c s' => String (lower_char c) (lower s')
  end.

Fixpoint drop (n : nat) (s : string) : string :=
  match n, s with
  | S k, String _ s' => drop k s'
  | _, _ => s
  end.

Definition urlparse (u : string) : option Song.ParseResult :=
  match split "://" u with
  | _ :: r :: rs =>
      let rest := join "://" (r :: rs) in
      let no_fragment := hd "" (split "#" rest) in
      let before_query := hd "" (split "?" no_fragment) in
      let host := hd "" (split "/" before_query) in
      Some {| Song.netloc := host;
              Song.path := drop (String.length host) before_query;
              Song.query := join "?" (tl (split "?" no_fragment)) |}
  | _ =>
      let no_fragment := hd "" (split "#" u) in
      Some {| Song.netloc := "";
              Song.path := hd "" (split "?" no_fragment);
              Song.query := join "?" (tl (split "?" no_fragment)) |}
  end.

(** One [name=value] field per [&]; fields without a value are left
    out, as [parse_qs] does by default. *)
Definition parse_qs (q : string) : list (string * list string) :=
  flat_map (fun field =>
              match split "=" field with
              | k :: v :: vs =>
                  if String.eqb (join "=" (v :: vs)) "" then []
                  else [(k, [join "=" (v :: vs)])]
              | _ => []
              end) (split "&" q).

Definition basename (p : string) : string := List.last (split "/" p) "".

(** [posixpath.splitext]: the extension starts at the last dot of the
    file name, leading dots of the name apart. *)
Definition splitext (p : string) : string * string :=
  match rev (split "." (lstrip "." (basename p))) with
  | ext :: _ :: _ =>
      (substring 0 (String.length p - String.length ext - 1) p,
       String.append "." ext)
  | _ => (p, "")
  end.

Definition lib : Song.Library :=
  {| Song.urlparse := urlparse;
     Song.parse_qs := parse_qs;
     Song.lower := lower;
     Song.basename := basename;
     Song.splitext := splitext |}.

End RefLib.


(** ** models/song.py: serialisation and the other accessors *)

Module SongOps.
Import Strings Song.

(** Lines 40-46. *)
Definition is_local (s : Song) : bool := py_eq (type s) (JStr "local").

Definition is_stream (s : Song) : bool :=
  py_eq (type s) (JStr "youtube") || py_eq (type s) (JStr "stream").

(** Lines 48-59: [Song.to_dict]. *)
Definition to_dict (s : Song) : dict :=
  [ ("url", url s);
    ("title", title s);
    ("name", title s);
    ("type", type s);
    ("duration", duration s);
    ("ts", JNum (timestamp s));
    ("thumbnail_url", thumbnail_url s);
    ("artist", title s) ].

(** Lines 172-182: [LocalSong.to_dict]; [file_size] is the number
    [get_file_size] returns. *)
Definition local_to_dict (s : LocalSong) (file_size : Z) : dict :=
  dict_set
    (dict_set
       (dict_set (to_dict (local_base s)) "file_name" (JStr (file_name s)))
       "file_extension" (JStr (file_extension s)))
    "file_size" (JNum file_size).

(** The table of lines 277-283; an unknown quality takes the default. *)
Definition quality_name (quality : string) : string :=
  if String.eqb quality "maxres" then "maxresdefault.jpg"
  else if String.eqb quality "sd" then "sddefault.jpg"
  else if String.eqb quality "mq" then "mqdefault.jpg"
  else if String.eqb quality "default" then "default.jpg"
  else "maxresdefault.jpg".

Section WithLibrary.

Variable lib : Library.

(** Lines 34-38, the method of the base class: [url.startswith] and
    [os.path.basename] need a string. *)
Definition _extract_title_from_url (u : json) : result string :=
  match u with
  | JStr u => Ok (if startswith u "http" then loading_title else basename lib u)
  | _ => Raise
  end.

(** Lines 14-32: [Song.__init__] of the base class. *)
Definition Song_init (now : Z) (u title song_type duration thumb : json)
  : result Song :=
  let* t := if truthy title then Ok title
            else let* t := _extract_title_from_url u in Ok (JStr t) in
  Ok {| url := u; title := t; type := song_type; duration := duration;
        timestamp := now / 1000; thumbnail_url := thumb |}.

(** Lines 271-285 with an explicit quality. *)
Definition get_thumbnail_url (s : StreamSong) (quality : string) : result string :=
  let* yt := is_youtube lib s in
  if (yt : bool) && negb (String.eqb (video_id s) "")
  then Ok (String.append "https://img.youtube.com/vi/"
             (String.append (video_id s)
                (String.append "/" (quality_name quality))))
  else Ok "".

(** Lines 287-291. *)
Definition get_watch_url (s : StreamSong) : result json :=
  let* yt := is_youtube lib s in
  if (yt : bool) && negb (String.eqb (video_id s) "")
  then Ok (JStr (String.append "https://www.youtube.com/watch?v=" (video_id s)))
  else Ok (stream_url s).

(** Lines 337-347: [StreamSong.to_dict]; the thumbnail is computed
    anew, which raises where [is_youtube] does. *)
Definition stream_to_dict (s : StreamSong) : result dict :=
  let* thumb := Song.get_thumbnail_url lib s in
  Ok (dict_set
        (dict_set
           (dict_set (to_dict (stream_base s)) "stream_type" (stream_type s))
           "video_id" (JStr (video_id s)))
        "thumbnail_url" (JStr thumb)).

End WithLibrary.

End SongOps.

(** ** models/playlists.py: the other methods of [Playlist] *)

Module PlaylistOps.
Import Playlist.

(** Lines 122-128. *)
Definition remove (now : Z) (pl : Playlist) (index : Z) : bool * Playlist :=
  if (0 <=? index) && (index <? Z.of_nat (length (songs pl))) then
    (true, set_songs pl (delete (Z.to_nat index) (songs pl)) now)
  else (false, pl).

(** [l.insert(i, x)] for [0 <= i <= len(l)] *)
Definition list_insert_at {A} (i : nat) (x : A) (l : list A) : list A :=
  take i l ++ x :: drop i l.

(** Lines 130-142; [None] for an index is Python's [None]. *)
Definition reorder (now : Z) (pl : Playlist) (from_index to_index : option Z)
  : bool * Playlist :=
  match from_index, to_index with
  | Some f, Some t =>
      if (0 <=? f) && (f <? Z.of_nat (length (songs pl)))
         && (0 <=? t) && (t <? Z.of_nat (length (songs pl)))
      then
        let song := nth (Z.to_nat f) (songs pl) JNull in
        (true,
         set_songs pl
           (list_insert_at (Z.to_nat t) song (delete (Z.to_nat f) (songs pl)))
           now)
      else (false, pl)
  | _, _ => (false, pl)
  end.

(** [l.remove(x)]: the first element equal to [x] goes. *)
Fixpoint remove_first (x : json) (l : list json) : list json :=
  match l with
  | [] => []
  | y :: l' => if py_eq x y then l' else y :: remove_first x l'
  end.

(** Lines 144-157. *)
Definition remove_song (now : Z) (pl : Playlist) (song_path : json)
  : bool * Playlist :=
  if py_in song_path (songs pl)
  then (true, set_songs pl (remove_first song_path (songs pl)) now)
  else (false, pl).

(** Lines 174-185. *)
Definition get_song (pl : Playlist) (index : Z) : json :=
  if (0 <=? index) && (index <? Z.of_nat (length (songs pl)))
  then nth (Z.to_nat index) (songs pl) JNull
  else JNull.

(** Lines 202-205. *)
Definition clear (now : Z) (pl : Playlist) : Playlist := set_songs pl [] now.

(** Lines 207-217. *)
Definition get_all (pl : Playlist) : list json := songs pl.

Definition add (lib : Song.Library) (now : Z) (pl : Playlist) (song : json)
  : bool * Playlist * json :=
  add_song lib now pl song.

Definition get_song_count (pl : Playlist) : Z := Z.of_nat (length (songs pl)).

End PlaylistOps.

(** ** models/playlists.py: the other methods of [Playlists] *)

Module PlaylistsOps.
Import Playlists.

(** Lines 339-348. *)
Definition get_playlist (self : Playlists) (playlist_id : string)
  : option Playlist.Playlist :=
  _playlists self !! playlist_id.

(** Lines 395-405. *)
Definition get_all_dicts (self : Playlists) : list dict :=
  map Playlist.to_dict (get_all self).

Definition get_count (self : Playlists) : Z := Z.of_nat (size (_playlists self)).

(** [l.remove(x)] on a list of ids *)
Fixpoint remove_id (x : string) (l : list string) : list string :=
  match l with
  | [] => []
  | y :: l' => if String.eqb x y then l' else y :: remove_id x l'
  end.

(** Lines 350-366. *)
Definition delete_playlist (fs : filesystem) (self : Playlists)
    (playlist_id : string) : bool * Playlists * filesystem :=
  match _playlists self !! playlist_id with
  | Some _ =>
      let self' :=
        {| data_file := data_file self;
           _playlists := delete playlist_id (_playlists self);
           _order := if bool_decide (playlist_id ∈ _order self)
                     then remove_id playlist_id (_order self)
                     else _order self |} in
      (true, self', save fs self')
  | None => (false, self, fs)
  end.

(** Lines 368-385. *)
Definition rename_playlist (now : Z) (fs : filesystem) (self : Playlists)
    (playlist_id : string) (new_name : json) : bool * Playlists * filesystem :=
  match _playlists self !! playlist_id with
  | Some playlist =>
      let playlist' :=
        {| Playlist.id := Playlist.id playlist;
           Playlist.name := new_name;
           Playlist.songs := Playlist.songs playlist;
           Playlist.created_at := Playlist.created_at playlist;
           Playlist.updated_at := JNum now;
           Playlist.current_playing_index :=
             Playlist.current_playing_index playlist |} in
      let self' := with_playlists self (<[playlist_id := playlist']> (_playlists self)) in
      (true, self', save fs self')
  | None => (false, self, fs)
  end.

(** Lines 440-456. *)
Definition remove_song_from_playlist (now : Z) (fs : filesystem)
    (self : Playlists) (playlist_id : string) (song_path : json)
  : bool * Playlists * filesystem :=
  match _playlists self !! playlist_id with
  | Some playlist =>
      let '(result, playlist') := PlaylistOps.remove_song now playlist song_path in
      let self' := with_playlists self (<[playlist_id := playlist']> (_playlists self)) in
      (result, self', if (result : bool) then save fs self' else fs)
  | None => (false, self, fs)
  end.

(** Lines 476-488. *)
Definition get_playlist_songs (self : Playlists) (playlist_id : string)
  : list json :=
  match _playlists self !! playlist_id with
  | Some playlist => Playlist.songs playlist
  | None => []
  end.

(** Lines 490-506: an exception of [reorder_songs] is not caught. *)
Definition reorder_playlist_songs (now : Z) (fs : filesystem)
    (self : Playlists) (playlist_id : string) (new_order : list json)
  : result (bool * Playlists * filesystem) :=
  match _playlists self !! playlist_id with
  | Some playlist =>
      let* r := Playlist.reorder_songs now playlist new_order in
      let self' := with_playlists self (<[playlist_id := snd r]> (_playlists self)) in
      Ok (fst r, self', if fst r then save fs self' else fs)
  | None => Ok (false, self, fs)
  end.

(** Lines 508-522. *)
Definition clear_playlist (now : Z) (fs : filesystem) (self : Playlists)
    (playlist_id : string) : bool * Playlists * filesystem :=
  match _playlists self !! playlist_id with
  | Some playlist =>
      let self' := with_playlists self
                     (<[playlist_id := PlaylistOps.clear now playlist]>
                        (_playlists self)) in
      (true, self', save fs self')
  | None => (false, self, fs)
  end.

(** Lines 524-543: a write that raises is caught, and the method
    returns false. *)
Definition export_playlist (fs : filesystem) (self : Playlists)
    (playlist_id export_file : string) : bool * filesystem :=
  match _playlists self !! playlist_id with
  | Some playlist =>
      let written := write_json fs export_file (JObj (Playlist.to_dict playlist)) in
      (written.2, written.1)
  | None => (false, fs)
  end.

Section WithLibrary.

Variable lib : Song.Library.

(** Lines 323-337.  The constructor is called with a name only. *)
Definition create_playlist (now : Z) (fs : filesystem) (self : Playlists)
    (name : json) : option Playlist.Playlist * Playlists * filesystem :=
  match Playlist.__init__ lib now JNull name JNull JNull JNull (JNum (-1)) with
  | Loaded playlist =>
      let self' :=
        {| data_file := data_file self;
           _playlists := <[Playlist.id playlist := playlist]> (_playlists self);
           _order := _order self ++ [Playlist.id playlist] |} in
      (Some playlist, self', save fs self')
  | _ => (None, self, fs)
  end.

(** Lines 422-438.  The fourth component is the argument, which
    [add_song] may have completed. *)
Definition add_song_to_playlist (now : Z) (fs : filesystem) (self : Playlists)
    (playlist_id : string) (song_path : json)
  : bool * Playlists * filesystem * json :=
  match _playlists self !! playlist_id with
  | Some playlist =>
      let '(result, playlist', song) :=
        Playlist.add_song lib now playlist song_path in
      let self' := with_playlists self (<[playlist_id := playlist']> (_playlists self)) in
      (result, self', if (result : bool) then save fs self' else fs, song)
  | None => (false, self, fs, song_path)
  end.

(** Lines 545-565.  Outer [None]: the file holds data outside the typed
    model; inner [None]: the method returns [None]. *)
Definition import_playlist (now : Z) (fs : filesystem) (self : Playlists)
    (import_file : string)
  : option (option Playlist.Playlist * Playlists * filesystem) :=
  match fs !! import_file with
  | Some (Parsed data) =>
      match Playlist.from_dict lib now data with
      | Loaded playlist =>
          let self' :=
            {| data_file := data_file self;
               _playlists := <[Playlist.id playlist := playlist]> (_playlists self);
               _order := _order self ++ [Playlist.id playlist] |} in
          Some (Some playlist, self', save fs self')
      | Raises => Some (None, self, fs)
      | Untyped => None
      end
  | _ => Some (None, self, fs)
  end.

(** Lines 567-577: [pl.name.lower()] needs a string. *)
Fixpoint search_in (keyword : string) (pls : list Playlist.Playlist)
  : result (list Playlist.Playlist) :=
  match pls with
  | [] => Ok []
  | pl :: rest =>
      match Playlist.name pl with
      | JStr n =>
          let* found := search_in keyword rest in
          Ok (if Strings.contains keyword (Song.lower lib n)
              then pl :: found else found)
      | _ => Raise
      end
  end.

Definition search_playlists (self : Playlists) (keyword : string)
  : result (list Playlist.Playlist) :=
  search_in (Song.lower lib keyword) (get_all self).

End WithLibrary.

End PlaylistsOps.
(** ** Hashable values up to equality *)

Module Keys.

(** The class of a hashable value under [==]: numbers and booleans by
    value, strings by content. *)
Inductive hkey : Type := HNull | HNum (n : Z) | HStr (s : string).

Definition ckey (v : json) : hkey :=
  match v with
  | JStr s => HStr s
  | JNum n => HNum n
  | JBool b => HNum (if b then 1 else 0)
  | _ => HNull
  end.

Definition keys {V : Type} (m : list (json * V)) : list hkey :=
  map (fun p => ckey (fst p)) m.

Definition keys_hashable {V : Type} (m : list (json * V)) : Prop :=
  Forall (fun p => hashable (fst p) = true) m.

End Keys.

(** ** Notions used to state the migrator's properties *)

Module MigrateSpec.
Import Migrate Keys.

Definition url_of (r : dict) : json := dict_get_d r "url" (JStr "").

Definition positive (t : json) : Prop := exists z, num_of t = Some z /\ 0 < z.

Definition pos_or_zero (t : json) : Prop := positive t \/ t = JNum 0.

(** A record as the migrator writes it: [ts] and [timestamp] carry the
    same number, positive or the integer 0. *)
Definition migrated (r : dict) : Prop :=
  exists t, dict_get r "ts" = Some t /\ dict_get r "timestamp" = Some t
            /\ pos_or_zero t.

Record agg_inv (st : agg_state) : Prop := {
  inv_hash : keys_hashable (aggregated st);
  inv_nodup : NoDup (keys (aggregated st));
  inv_url : Forall (fun p => truthy (url_of (snd p)) = true
                             /\ hashable (url_of (snd p)) = true
                             /\ ckey (url_of (snd p)) = ckey (fst p))
                   (aggregated st);
  inv_uhash : keys_hashable (url_timestamps st);
  inv_pos : Forall (fun p => Forall positive (snd p)) (url_timestamps st)
}.

Definition timestamps_of (uts : list (json * list json)) (url : json) : list json :=
  sorted_asc (dedup_keep_first (default [] (kd_get uts url))).

Definition desc (x y : dict) : Prop := sort_key x >= sort_key y.

Definition rec_ok (r : dict) : Prop :=
  migrated r /\ truthy (url_of r) = true /\ hashable (url_of r) = true.

Definition url_keys (recs : list dict) : list hkey :=
  map (fun r => ckey (url_of r)) recs.

Definition ts_of (r : dict) : json := dict_get_d r "ts" (JNum 0).

Definition is_pos (t : json) : bool :=
  match py_gt t (JNum 0) with
  | Ok b => b
  | Raise => false
  end.

(** What the migrator makes of a record that an earlier run wrote: the
    play count and the timestamp list are rebuilt from the record's own
    [ts], the only timestamp the rewritten file still offers. *)
Definition rederive (r : dict) : dict :=
  let timestamps := if is_pos (ts_of r) then [ts_of r] else [] in
  dict_set (dict_set r "play_count" (JNum (Z.of_nat (length timestamps))))
    "timestamps" (JStr (join "," (map py_str timestamps))).

(** Text within ASCII. *)
Fixpoint plain (s : string) : bool :=
  match s with
  | EmptyString => true
  | String c s' => (nat_of_ascii c <? 128)%nat && plain s'
  end.

Definition uts_of (recs : list dict) : list (json * list json) :=
  flat_map (fun r => if is_pos (ts_of r) then [(url_of r, [ts_of r])] else []) recs.

End MigrateSpec.

(** ** Example data *)

Module Examples.

Definition ev (url : string) (ts : Z) : json :=
  JObj [("url", JStr url); ("ts", JNum ts)].

(** The events of the specification's scenario. *)
Definition events : list json := [ev "a" 100; ev "a" 200; ev "b" 150].

Definition record_a : dict :=
  [("url", JStr "a"); ("ts", JNum 200); ("timestamp", JNum 200);
   ("play_count", JNum 2); ("timestamps", JStr "100,200")].

Definition record_b : dict :=
  [("url", JStr "b"); ("ts", JNum 150); ("timestamp", JNum 150);
   ("play_count", JNum 1); ("timestamps", JStr "150")].

Definition main_file : string := "playback_history.json".

Definition fs0 : filesystem := {[ main_file := Parsed (JList events) ]}.

(** The file system after [n] runs of the migrator on [fs0]. *)
Definition after (n : nat) : filesystem :=
  Nat.iter n (fun fs => snd (Migrate.migrate_playback_history fs main_file)) fs0.

(** Two plays of one url that carry their time in the legacy field
    [timestamp] only; the first is the later play. *)
Definition legacy_events : list json :=
  [ JObj [("url", JStr "a"); ("timestamp", JNum 200); ("title", JStr "later")];
    JObj [("url", JStr "a"); ("timestamp", JNum 100); ("title", JStr "earlier")] ].

(** A local song record whose [url] is present but [null]. *)
Definition null_url_record : dict := [("type", JStr "local"); ("url", JNull)].

(** A local song record without title and duration. *)
Definition bare_local_record : dict := [("url", JStr "music/song.MP3")].

Definition empty_playlist : Playlist.Playlist :=
  {| Playlist.id := "p1"; Playlist.name := JStr "mix";
     Playlist.songs := []; Playlist.created_at := JNum 1;
     Playlist.updated_at := JNum 1;
     Playlist.current_playing_index := JNum (-1) |}.

Definition watch_url : string := "https://www.youtube.com/watch?v=dQw4w9WgXcQ".

(** A stream record as a search result delivers it, without thumbnail. *)
Definition youtube_record : dict :=
  [("type", JStr "youtube"); ("url", JStr watch_url); ("title", JStr "video")].

(** A playlist of two bare paths. *)
Definition two_songs : Playlist.Playlist :=
  {| Playlist.id := "p1"; Playlist.name := JStr "mix";
     Playlist.songs := [JStr "a"; JStr "b"]; Playlist.created_at := JNum 1;
     Playlist.updated_at := JNum 1;
     Playlist.current_playing_index := JNum (-1) |}.

(** A playlist whose first entry is the empty path. *)
Definition with_empty_path : Playlist.Playlist :=
  {| Playlist.id := "p1"; Playlist.name := JStr "mix";
     Playlist.songs := [JStr ""; JStr "a.mp3"]; Playlist.created_at := JNum 1;
     Playlist.updated_at := JNum 1;
     Playlist.current_playing_index := JNum (-1) |}.

Definition store_file : string := "playlists.json".

(** A collection holding [with_empty_path], and a file system whose
    store file is in step with it. *)
Definition collection : Playlists.Playlists :=
  {| Playlists.data_file := store_file;
     Playlists._playlists := {[ "p1" := with_empty_path ]};
     Playlists._order := ["p1"] |}.

Definition collection_fs : filesystem :=
  {[ store_file := Parsed (Playlists.stored collection) ]}.

(** A store file in the legacy shape: a bare array of two records. *)
Definition legacy_store : list json :=
  [ JObj [("id", JStr "rock"); ("name", JStr "Rock"); ("songs", JList [JStr "a.mp3"])];
    JObj [("id", JStr "jazz"); ("name", JStr "Jazz")] ].

Definition legacy_fs : filesystem :=
  {[ store_file := Parsed (JList legacy_store) ]}.

Definition fresh_collection : Playlists.Playlists :=
  {| Playlists.data_file := store_file;
     Playlists._playlists := ∅;
     Playlists._order := [] |}.

(** A stream record whose url is no YouTube link, and one without
    url. *)
Definition radio_record : dict :=
  [("type", JStr "stream"); ("url", JStr "https://example.com/live.mp3")].

Definition no_url_record : dict := [("type", JStr "stream")].

(** A stored playlist of a record and a bare path. *)
Definition stored_mix : dict :=
  [("id", JStr "mix");
   ("songs", JList [JObj [("url", JStr "a.mp3")]; JStr "b.mp3"])].

(** A string that holds the lone surrogate U+D800, and a history file
    with one event of that url. *)
Definition lone_surrogate : string :=
  String (ascii_of_nat 237) (String (ascii_of_nat 160) (String (ascii_of_nat 128) "")).

Definition surrogate_events : list json := [ev lone_surrogate 100].

Definition surrogate_fs : filesystem :=
  {[ main_file := Parsed (JList surrogate_events) ]}.

End Examples.

(** ** Notions used to state the properties of songs *)

Module SongSpec.
Import Strings Song.

(** Host and path fit none of the four shapes that lines 234-248 know:
    a watch, shorts or embed link of youtube.com, a youtu.be link. *)
Definition fits_no_shape (lib : Library) (parsed : ParseResult) : bool :=
  let host := lower lib (netloc parsed) in
  let path := path parsed in
  negb (contains "youtube.com" host && contains "watch" path)
  && negb (contains "youtube.com" host && startswith path "/shorts/")
  && negb (contains "youtube.com" host && startswith path "/embed/")
  && negb (contains "youtu.be" host).

(** The url names no video: it is no string, [urlparse] rejects it, or
    what it parses to fits none of the shapes. *)
Definition names_no_video (lib : Library) (u : json) : Prop :=
  match u with
  | JStr u =>
      match urlparse lib u with
      | Some parsed => fits_no_shape lib parsed = true
      | None => True
      end
  | _ => True
  end.

End SongSpec.

(** ** Notions used to state the playlist's properties *)

Module PlaylistSpec.
Import Keys.

(** [s.get("url")] *)
Definition record_url (d : dict) : json := dict_get_d d "url" JNull.

(** The url an entry of [songs] refers to: the [url] field of a record,
    the path itself for a bare path. *)
Definition entry_url (e : json) : json :=
  match e with
  | JObj d => record_url d
  | _ => e
  end.

(** Two arguments of [add_song] of one kind that refer to the same url:
    two records with equal urls, or two equal bare paths. *)
Inductive same_url : json -> json -> Prop :=
| same_url_records a b :
    hashable (record_url a) = true ->
    py_eq (record_url a) (record_url b) = true ->
    same_url (JObj a) (JObj b)
| same_url_paths p q :
    hashable p = true -> py_eq p q = true -> same_url p q.

(** The songs of a stored playlist record. *)
Definition stored_songs (d : dict) : list json :=
  match dict_get_d d "songs" (JList []) with
  | JList l => l
  | _ => []
  end.

(** The test of [add_song] on one entry: [e], about to be added, is
    the song of the entry [b] already there.  A record is compared
    with the records, by url (line 110); anything else with every
    entry, by equality (line 116). *)
Definition clash (e b : json) : bool :=
  match e with
  | JObj de =>
      match b with
      | JObj db => py_eq (record_url db) (record_url de)
      | _ => false
      end
  | _ => py_eq e b
  end.

(** Some entry of [l] is the song of [e]. *)
Definition held (l : list json) (e : json) : bool := existsb (clash e) l.

(** No entry is the song of an entry further down the list, that is,
    of one added earlier: no two records have the same url, and no bare
    entry is equal to another entry. *)
Definition distinct_songs (l : list json) : Prop :=
  forall i j a b, (i < j)%nat -> l !! i = Some a -> l !! j = Some b ->
    clash a b = false.

Fixpoint no_repeats (l : list json) : bool :=
  match l with
  | [] => true
  | e :: l' => negb (held l' e) && no_repeats l'
  end.

(** An entry after the thumbnail pass. *)
Definition hydrated (lib : Song.Library) (now : Z) (e : json) : json :=
  match e with
  | JObj d => JObj (Playlist.hydrate_item lib now d).1
  | _ => e
  end.

(** Playlists built by calls of [add_song] from an empty playlist or
    from a playlist loaded from a record whose songs are distinct. *)
Inductive reachable (lib : Song.Library) : Playlist.Playlist -> Prop :=
| reach_empty pl : Playlist.songs pl = [] -> reachable lib pl
| reach_load now d pl :
    Playlist.from_dict lib now (JObj d) = Loaded pl ->
    distinct_songs (stored_songs d) ->
    reachable lib pl
| reach_add pl now arg :
    reachable lib pl -> reachable lib (Playlist.add_song lib now pl arg).1.2.

(** The thumbnail of a YouTube video id. *)
Definition youtube_thumbnail (vid : string) : string :=
  String.append "https://img.youtube.com/vi/"
    (String.append vid "/maxresdefault.jpg").

(** Some record of [songs] has the url [u]. *)
Definition has_record_url (songs : list json) (u : json) : bool :=
  existsb (fun s => match s with
                    | JObj d => py_eq (record_url d) u
                    | _ => false
                    end) songs.

End PlaylistSpec.

(** ** Notions used to state the collection's properties *)

Module PlaylistsSpec.

(** The id [Playlist.from_dict] gives the playlist of a stored record:
    the stored id, or the clock reading in milliseconds when it is
    missing or empty. *)
Definition record_id (now : Z) (r : json) : string :=
  match r with
  | JObj d =>
      match dict_get_d d "id" JNull with
      | JStr s => if String.eqb s "" then str_of_Z now else s
      | _ => str_of_Z now
      end
  | _ => str_of_Z now
  end.

(** The ids of the playlists of a stored array, in file order; the
    record at position [i] is built at clock reading [clock i]. *)
Fixpoint ids_from (clock : nat -> Z) (i : nat) (recs : list json) : list string :=
  match recs with
  | [] => []
  | r :: rest => record_id (clock i) r :: ids_from clock (S i) rest
  end.

(** A stored playlist record within the types of the model: an object
    whose id, if any, is a string and whose songs, if any, are a
    list. *)
Definition typed_record (r : json) : Prop :=
  exists d, r = JObj d
    /\ (truthy (dict_get_d d "id" JNull) = false
        \/ exists s, dict_get_d d "id" JNull = JStr s)
    /\ (truthy (dict_get_d d "songs" (JList [])) = false
        \/ exists l, dict_get_d d "songs" (JList []) = JList l).

(** A list without its repetitions, every element at its first
    occurrence. *)
Fixpoint first_occurrences (l : list string) : list string :=
  match l with
  | [] => []
  | x :: l' => x :: List.filter (fun y => negb (String.eqb x y)) (first_occurrences l')
  end.

(** The order list the loop of [load] builds: an id is appended unless
    it is there already. *)
Definition order_loop (order ids : list string) : list string :=
  fold_left (fun o x => if bool_decide (x ∈ o) then o else o ++ [x]) ids order.

End PlaylistsSpec.

(** ** Notions used to state further properties *)

Module MoreSpec.
Import Migrate Keys MigrateSpec.

(** An event on which the loop raises: not a dict, or a dict with a
    url whose time is no number or whose url cannot be hashed. *)
Definition bad_event (item : json) : Prop :=
  match item with
  | JObj d =>
      truthy (url_of d) = true
      /\ (num_of (event_ts d) = None \/ hashable (url_of d) = false)
  | _ => True
  end.

(** An event the loop passes over: a dict without url, or with an empty
    one. *)
Definition skipped_event (item : json) : Prop :=
  match item with
  | JObj d => truthy (url_of d) = false
  | _ => False
  end.

#[global] Instance hkey_eq_dec : EqDecision hkey.
Proof. solve_decision. Defined.

(** The positive times of the events of one url, in input order; [k] is
    the class of the url. *)
Definition times_of (data : list json) (k : hkey) : list json :=
  flat_map (fun item =>
              match item with
              | JObj d =>
                  if truthy (url_of d) && bool_decide (ckey (url_of d) = k)
                     && is_pos (event_ts d)
                  then [event_ts d] else []
              | _ => []
              end) data.

End MoreSpec.


(** ** Notions used to state further properties of songs and playlists *)

Module ModelSpec.

(** A local song with another construction time. *)
Definition restamp (s : Song.LocalSong) (t : Z) : Song.LocalSong :=
  {| Song.local_base :=
       {| Song.url := Song.url (Song.local_base s);
          Song.title := Song.title (Song.local_base s);
          Song.type := Song.type (Song.local_base s);
          Song.duration := Song.duration (Song.local_base s);
          Song.timestamp := t;
          Song.thumbnail_url := Song.thumbnail_url (Song.local_base s) |};
     Song.file_path := Song.file_path s;
     Song.file_name := Song.file_name s;
     Song.file_extension := Song.file_extension s |}.

(** An entry of [songs] that is a record, not a bare path. *)
Definition is_record (e : json) : bool :=
  match e with
  | JObj _ => true
  | _ => false
  end.

(** A playlist that reads back from its own record: it has an id and
    both times, and no stream record of it is still to be given a
    thumbnail. *)
Definition settled (lib : Song.Library) (pl : Playlist.Playlist) : Prop :=
  Playlist.id pl <> ""
  /\ truthy (Playlist.created_at pl) = true
  /\ truthy (Playlist.updated_at pl) = true
  /\ forall now, (Playlist.hydrate_songs lib now (Playlist.songs pl)).2 = false.

(** A collection whose playlists are filed under their own ids, are
    all in the display order and read back from their records. *)
Definition well_formed (lib : Song.Library) (self : Playlists.Playlists) : Prop :=
  forall k pl, Playlists._playlists self !! k = Some pl ->
    Playlist.id pl = k /\ k ∈ Playlists._order self /\ settled lib pl.

(** The store file holds what [save] would write now. *)
Definition synced (fs : filesystem) (self : Playlists.Playlists) : Prop :=
  fs !! Playlists.data_file self = Some (Parsed (Playlists.stored self)).

(** The store file is what the last [save] left: the collection as it
    is in memory, or a file cut short because the collection cannot be
    encoded. *)
Definition in_step (fs : filesystem) (self : Playlists.Playlists) : Prop :=
  synced fs self
  \/ (encodable (Playlists.stored self) = false
      /\ fs !! Playlists.data_file self = Some Corrupt).

(** The default playlist as [load] creates it at clock reading [now]. *)
Definition new_default (now : Z) : Playlist.Playlist :=
  {| Playlist.id := Playlists.DEFAULT_PLAYLIST_ID;
     Playlist.name := JStr Playlists.default_name;
     Playlist.songs := [];
     Playlist.created_at := JNum now;
     Playlist.updated_at := JNum now;
     Playlist.current_playing_index := JNum (-1) |}.

(** The collection that holds the new default playlist only. *)
Definition only_default (f : string) (now : Z) : Playlists.Playlists :=
  {| Playlists.data_file := f;
     Playlists._playlists := {[ Playlists.DEFAULT_PLAYLIST_ID := new_default now ]};
     Playlists._order := [Playlists.DEFAULT_PLAYLIST_ID] |}.

(** The playlist [create_playlist] builds at clock reading [now]. *)
Definition created (now : Z) (name : json) : Playlist.Playlist :=
  {| Playlist.id := str_of_Z now;
     Playlist.name := name;
     Playlist.songs := [];
     Playlist.created_at := JNum now;
     Playlist.updated_at := JNum now;
     Playlist.current_playing_index := JNum (-1) |}.

(** The test of line 577 on one playlist. *)
Definition name_matches (lib : Song.Library) (keyword : string)
    (pl : Playlist.Playlist) : bool :=
  match Playlist.name pl with
  | JStr n => Strings.contains (Song.lower lib keyword) (Song.lower lib n)
  | _ => false
  end.

(** The name of the playlist is a string. *)
Definition has_text_name (pl : Playlist.Playlist) : bool :=
  match Playlist.name pl with
  | JStr _ => true
  | _ => false
  end.

(** A map whose playlists are filed under their own ids, all of them
    in the order list. *)
Definition filed (m : gmap string Playlist.Playlist) (order : list string) : Prop :=
  forall k pl, m !! k = Some pl -> Playlist.id pl = k /\ k ∈ order.

(** A playlist named "Default" with two bare paths, and the collection
    that holds it as the default playlist. *)
Definition default_two : Playlist.Playlist :=
  {| Playlist.id := Playlists.DEFAULT_PLAYLIST_ID;
     Playlist.name := JStr "Default";
     Playlist.songs := [JStr "a"; JStr "b"];
     Playlist.created_at := JNum 1;
     Playlist.updated_at := JNum 1;
     Playlist.current_playing_index := JNum (-1) |}.

Definition home : Playlists.Playlists :=
  {| Playlists.data_file := "playlists.json";
     Playlists._playlists := {[ Playlists.DEFAULT_PLAYLIST_ID := default_two ]};
     Playlists._order := [Playlists.DEFAULT_PLAYLIST_ID] |}.

End ModelSpec.
(** * Properties *)

(** ** Python values *)

Module PyFacts.
Import Keys.

(** *** Dictionaries *)

Lemma dict_get_set_eq (d : dict) k v : dict_get (dict_set d k v) k = Some v.
Proof.
  induction d as [|[k' v'] d IH]; simpl.
  - now rewrite String.eqb_refl.
  - destruct (String.eqb k' k) eqn:E; simpl; now rewrite E.
Qed.

Lemma dict_get_set_ne (d : dict) k k' v :
  k <> k' -> dict_get (dict_set d k v) k' = dict_get d k'.
Proof.
  intros Hne. induction d as [|[k0 v0] d IH]; simpl.
  - apply String.eqb_neq in Hne. now rewrite Hne.
  - destruct (String.eqb k0 k) eqn:E; simpl.
    + apply String.eqb_eq in E. subst k0.
      apply String.eqb_neq in Hne. now rewrite Hne.
    + now rewrite IH.
Qed.

Lemma dict_set_same (d : dict) k v : dict_get d k = Some v -> dict_set d k v = d.
Proof.
  induction d as [|[k' v'] d IH]; simpl; [discriminate|].
  destruct (String.eqb k' k) eqn:E.
  - now intros [= ->].
  - intros H. now rewrite IH.
Qed.

Lemma dict_get_d_set_ne (d : dict) k k' v dflt :
  k <> k' -> dict_get_d (dict_set d k v) k' dflt = dict_get_d d k' dflt.
Proof. intros H. unfold dict_get_d. now rewrite dict_get_set_ne. Qed.

(** *** Equality of hashable values *)

Lemma py_eq_true_ckey a b :
  hashable a = true -> hashable b = true ->
  py_eq a b = true <-> ckey a = ckey b.
Proof.
  destruct a, b; simpl; try discriminate; intros _ _;
    rewrite ?Z.eqb_eq, ?String.eqb_eq;
    try (split; [intros ->; reflexivity|intros [= ->]; reflexivity]);
    try (split; [discriminate|discriminate]);
    try (split; [intros <-; reflexivity|intros [= <-]; reflexivity]);
    try tauto.
Qed.

Lemma py_eq_false_ckey a b :
  hashable a = true -> hashable b = true ->
  py_eq a b = false <-> ckey a <> ckey b.
Proof.
  intros Ha Hb. rewrite <- (py_eq_true_ckey a b Ha Hb).
  destruct (py_eq a b); split; congruence.
Qed.

Lemma py_eq_refl_hashable a : hashable a = true -> py_eq a a = true.
Proof. intros Ha. now apply py_eq_true_ckey. Qed.

Lemma py_eq_JStr_r a s : py_eq a (JStr s) = true <-> a = JStr s.
Proof.
  destruct a; simpl; try (split; [discriminate|discriminate]).
  rewrite String.eqb_eq. split; [now intros ->|now intros [= ->]].
Qed.

Lemma py_eq_JStr_l a s : py_eq (JStr s) a = true <-> a = JStr s.
Proof.
  destruct a; simpl; try (split; [discriminate|discriminate]).
  rewrite String.eqb_eq. split; [now intros ->|now intros [= ->]].
Qed.

Lemma py_eq_hashable_r a b :
  hashable b = true -> py_eq a b = true -> hashable a = true.
Proof. destruct a, b; simpl; auto; discriminate. Qed.

End PyFacts.

(** ** General facts about the migrator *)

Module MigrateFacts.
Import Migrate Keys MigrateSpec PyFacts.

(** *** Keyed dictionaries *)

Section KeyedDictFacts.
Context {V : Type}.
Implicit Types (m : list (json * V)) (k : json) (v : V).

Lemma kd_get_fresh m k :
  keys_hashable m -> hashable k = true -> ~ In (ckey k) (keys m) ->
  kd_get m k = None.
Proof.
  intros Hm Hk. induction Hm as [|[k' v'] m Hk' Hm IH]; simpl; [reflexivity|].
  intros Hnot. simpl in Hk'.
  destruct (py_eq k' k) eqn:E.
  - apply py_eq_true_ckey in E; auto. exfalso. apply Hnot. now left.
  - apply IH. intros Hin. apply Hnot. now right.
Qed.

Lemma kd_get_In m k v : kd_get m k = Some v -> exists k', In (k', v) m /\ py_eq k' k = true.
Proof.
  induction m as [|[k' v'] m IH]; simpl; [discriminate|].
  destruct (py_eq k' k) eqn:E.
  - intros [= ->]. exists k'. auto.
  - intros H. destruct (IH H) as (k0 & Hin & Heq). exists k0. auto.
Qed.

Lemma kd_set_fresh m k v : kd_get m k = None -> kd_set m k v = m ++ [(k, v)].
Proof.
  induction m as [|[k' v'] m IH]; simpl; [reflexivity|].
  destruct (py_eq k' k); [discriminate|]. intros H. now rewrite IH.
Qed.

Lemma kd_set_keys_hashable m k v :
  keys_hashable m -> hashable k = true -> keys_hashable (kd_set m k v).
Proof.
  intros Hm Hk. induction Hm as [|[k' v'] m Hk' Hm IH]; simpl.
  - repeat constructor. exact Hk.
  - destruct (py_eq k' k); constructor; auto.
Qed.

Lemma kd_set_keys m k v :
  keys_hashable m -> hashable k = true ->
  keys (kd_set m k v) = keys m \/
  (~ In (ckey k) (keys m) /\ keys (kd_set m k v) = keys m ++ [ckey k]).
Proof.
  intros Hm Hk. induction Hm as [|[k' v'] m Hk' Hm IH]; simpl.
  - right. split; [tauto|reflexivity].
  - simpl in Hk'. destruct (py_eq k' k) eqn:E; simpl.
    + now left.
    + destruct IH as [IH|[Hnot IH]].
      * left. unfold keys in *. now rewrite IH.
      * right. apply py_eq_false_ckey in E; auto. split.
        -- intros [H|H]; [congruence|tauto].
        -- unfold keys in *. now rewrite IH.
Qed.

Lemma kd_set_keys_NoDup m k v :
  keys_hashable m -> hashable k = true ->
  NoDup (keys m) -> NoDup (keys (kd_set m k v)).
Proof.
  intros Hm Hk Hnd. destruct (kd_set_keys m k v Hm Hk) as [->|[Hnot ->]]; auto.
  apply NoDup_app. repeat split; auto.
  - intros x Hx Hx'. apply list_elem_of_In in Hx, Hx'.
    destruct Hx' as [<-|[]]. tauto.
  - apply NoDup_singleton.
Qed.

Lemma kd_set_Forall (P : json * V -> Prop) m k v :
  Forall P m -> (forall k', ckey k' = ckey k -> hashable k' = true -> P (k', v)) ->
  keys_hashable m -> hashable k = true ->
  Forall P (kd_set m k v).
Proof.
  intros HP Hnew Hm Hk. induction Hm as [|[k' v'] m Hk' Hm IH]; simpl.
  - repeat constructor. now apply Hnew.
  - simpl in Hk'. inversion HP; subst.
    destruct (py_eq k' k) eqn:E; constructor; auto.
    apply Hnew; auto. apply py_eq_true_ckey; auto.
Qed.

End KeyedDictFacts.

(** *** The aggregation loop *)

Lemma agg_inv_init : agg_inv agg_init.
Proof. split; simpl; constructor. Qed.

Lemma py_gt_zero_true t : py_gt t (JNum 0) = Ok true -> positive t.
Proof.
  unfold py_gt, positive. destruct (num_of t) as [z|]; simpl; [|discriminate].
  intros [= H]. exists z. split; [reflexivity|lia].
Qed.

Lemma agg_step_inv st item st' :
  agg_inv st -> agg_step st item = Ok st' -> agg_inv st'.
Proof.
  intros [Hh Hnd Hu Huh Hp]. destruct item as [| | | | |d]; simpl; try discriminate.
  fold (url_of d).
  destruct (truthy (url_of d)) eqn:Ht; simpl; [|intros [= <-]; now split].
  destruct (py_gt (event_ts d) (JNum 0)) as [pos|] eqn:Hgt; simpl; [|discriminate].
  destruct (hashable (url_of d)) eqn:Hhash; simpl; [|discriminate].
  assert (Hnew : forall k', ckey k' = ckey (url_of d) -> hashable k' = true ->
            truthy (url_of d) = true /\ hashable (url_of d) = true
            /\ ckey (url_of d) = ckey k') by (intros; auto).
  assert (Huts : keys_hashable
            (if pos then kd_set (url_timestamps st) (url_of d)
                           (default [] (kd_get (url_timestamps st) (url_of d))
                              ++ [event_ts d])
             else url_timestamps st)
          /\ Forall (fun p => Forall positive (snd p))
            (if pos then kd_set (url_timestamps st) (url_of d)
                           (default [] (kd_get (url_timestamps st) (url_of d))
                              ++ [event_ts d])
             else url_timestamps st)).
  { destruct pos; [|now split]. split.
    - now apply kd_set_keys_hashable.
    - apply kd_set_Forall; auto. intros k' _ _. simpl.
      apply Forall_app. split.
      + destruct (kd_get (url_timestamps st) (url_of d)) as [old|] eqn:Hold;
          simpl; [|constructor].
        apply kd_get_In in Hold. destruct Hold as (k0 & Hin & _).
        rewrite Forall_forall in Hp. apply list_elem_of_In in Hin.
        exact (Hp _ Hin).
      + repeat constructor. now apply py_gt_zero_true. }
  destruct Huts as [Huh' Hp'].
  destruct (kd_get (aggregated st) (url_of d)) as [old|] eqn:Hold; simpl.
  - destruct (py_gt (event_ts d) (dict_get_d old "ts" (JNum 0))) as [newer|];
      simpl; [|discriminate].
    intros [= <-]. destruct newer; split; simpl; auto.
    + now apply kd_set_keys_hashable.
    + now apply kd_set_keys_NoDup.
    + apply kd_set_Forall; auto.
  - intros [= <-]. split; simpl; auto.
    + now apply kd_set_keys_hashable.
    + now apply kd_set_keys_NoDup.
    + apply kd_set_Forall; auto.
Qed.

Lemma agg_loop_inv data : forall st st',
  agg_inv st -> agg_loop st data = Ok st' -> agg_inv st'.
Proof.
  induction data as [|item data IH]; simpl; intros st st' Hinv.
  - now intros [= <-].
  - destruct (agg_step st item) as [st1|] eqn:Hstep; simpl; [|discriminate].
    apply IH. eapply agg_step_inv; eauto.
Qed.

Lemma agg_loop_app l1 l2 st :
  agg_loop st (l1 ++ l2) = let* st' := agg_loop st l1 in agg_loop st' l2.
Proof.
  revert st. induction l1 as [|x l1 IH]; simpl; intros st; [reflexivity|].
  destruct (agg_step st x); simpl; auto.
Qed.

(** *** The derived fields *)

Lemma Forall_dedup_keep_first (P : json -> Prop) l :
  Forall P l -> Forall P (dedup_keep_first l).
Proof.
  induction 1 as [|x l Hx Hl IH]; simpl; constructor; auto.
  apply Forall_forall. intros y Hy. apply list_elem_of_In in Hy.
  apply filter_In in Hy. destruct Hy as [Hy _].
  rewrite Forall_forall in IH. apply IH. now apply list_elem_of_In.
Qed.

Lemma Forall_insert_asc (P : json -> Prop) x l :
  P x -> Forall P l -> Forall P (insert_asc x l).
Proof.
  intros Hx. induction 1 as [|y l Hy Hl IH]; simpl.
  - now repeat constructor.
  - destruct (key_of x <=? key_of y); repeat constructor; auto.
Qed.

Lemma Forall_sorted_asc (P : json -> Prop) l :
  Forall P l -> Forall P (sorted_asc l).
Proof.
  induction 1; simpl; [constructor|]. now apply Forall_insert_asc.
Qed.

Lemma Forall_last (P : json -> Prop) l d :
  Forall P l -> l <> [] -> P (List.last l d).
Proof.
  induction 1 as [|x l Hx Hl IH]; [congruence|]. intros _.
  destruct l as [|y l]; [exact Hx|]. apply IH. discriminate.
Qed.

Lemma derive_unfold uts url item :
  derive uts url item =
  dict_set
    (dict_set
       (dict_set (dict_set item "ts" (List.last (timestamps_of uts url) (JNum 0)))
          "timestamp" (List.last (timestamps_of uts url) (JNum 0)))
       "play_count" (JNum (Z.of_nat (length (timestamps_of uts url)))))
    "timestamps" (JStr (join "," (map py_str (timestamps_of uts url)))).
Proof. reflexivity. Qed.

Lemma timestamps_of_positive uts url :
  Forall (fun p => Forall positive (snd p)) uts ->
  Forall positive (timestamps_of uts url).
Proof.
  intros Hp. unfold timestamps_of.
  apply Forall_sorted_asc, Forall_dedup_keep_first.
  destruct (kd_get uts url) as [l|] eqn:Hl; simpl; [|constructor].
  apply kd_get_In in Hl. destruct Hl as (k & Hin & _).
  rewrite Forall_forall in Hp. apply list_elem_of_In in Hin. exact (Hp _ Hin).
Qed.

Lemma derive_ts uts url item :
  dict_get (derive uts url item) "ts"
  = Some (List.last (timestamps_of uts url) (JNum 0)).
Proof.
  rewrite derive_unfold.
  rewrite !dict_get_set_ne by discriminate. apply dict_get_set_eq.
Qed.

Lemma derive_timestamp uts url item :
  dict_get (derive uts url item) "timestamp"
  = Some (List.last (timestamps_of uts url) (JNum 0)).
Proof.
  rewrite derive_unfold.
  rewrite !dict_get_set_ne by discriminate. apply dict_get_set_eq.
Qed.

Lemma derive_url uts url item : url_of (derive uts url item) = url_of item.
Proof.
  rewrite derive_unfold. unfold url_of.
  now rewrite !dict_get_d_set_ne by discriminate.
Qed.

Lemma derive_migrated uts url item :
  Forall (fun p => Forall positive (snd p)) uts -> migrated (derive uts url item).
Proof.
  intros Hp. exists (List.last (timestamps_of uts url) (JNum 0)).
  split; [apply derive_ts|]. split; [apply derive_timestamp|].
  destruct (timestamps_of uts url) as [|t l] eqn:E.
  - now right.
  - left. rewrite <- E. apply Forall_last.
    + now apply timestamps_of_positive.
    + rewrite E. discriminate.
Qed.

(** *** The final sort *)

Lemma insert_desc_perm x l : Permutation (insert_desc x l) (x :: l).
Proof.
  induction l as [|y l IH]; simpl; [reflexivity|].
  destruct (sort_key y >? sort_key x); [|reflexivity].
  rewrite IH. apply perm_swap.
Qed.

Lemma sort_desc_perm l : Permutation (sort_desc l) l.
Proof.
  induction l as [|x l IH]; simpl; [reflexivity|].
  rewrite insert_desc_perm. now constructor.
Qed.

Lemma insert_desc_sorted x l : Sorted desc l -> Sorted desc (insert_desc x l).
Proof.
  induction 1 as [|y l Hs IH Hhd]; simpl.
  - repeat constructor.
  - destruct (sort_key y >? sort_key x) eqn:E.
    + constructor; [exact IH|].
      destruct l as [|z l]; simpl.
      * constructor. unfold desc. lia.
      * inversion Hhd; subst.
        destruct (sort_key z >? sort_key x); constructor; auto.
        unfold desc. lia.
    + constructor; [now constructor|]. constructor. unfold desc. lia.
Qed.

Lemma sort_desc_sorted l : Sorted desc (sort_desc l).
Proof.
  induction l; simpl; [constructor|]. now apply insert_desc_sorted.
Qed.

Lemma sort_desc_id l : Sorted desc l -> sort_desc l = l.
Proof.
  induction 1 as [|x l Hs IH Hhd]; simpl; [reflexivity|].
  rewrite IH. destruct Hhd as [|y l Hxy]; simpl; [reflexivity|].
  unfold desc in Hxy.
  destruct (sort_key y >? sort_key x) eqn:E; [lia|reflexivity].
Qed.

(** *** Output of a run *)

Lemma migrate_data_output data recs :
  migrate_data data = Ok recs ->
  Forall rec_ok recs /\ NoDup (url_keys recs) /\ Sorted desc recs.
Proof.
  unfold migrate_data.
  destruct (agg_loop agg_init data) as [st|] eqn:Hloop; simpl; [|discriminate].
  intros [= <-].
  destruct (agg_loop_inv _ _ _ agg_inv_init Hloop) as [Hh Hnd Hu Huh Hp].
  set (D := fun '(url, item) => derive (url_timestamps st) url item).
  assert (Hok : Forall rec_ok (map D (aggregated st))).
  { apply Forall_forall. intros r Hr. apply list_elem_of_In, in_map_iff in Hr.
    destruct Hr as ([k item] & <- & Hin). simpl.
    rewrite Forall_forall in Hu. apply list_elem_of_In in Hin.
    destruct (Hu _ Hin) as (Ht & Hhash & _). simpl in *.
    split; [now apply derive_migrated|]. now rewrite derive_url. }
  assert (Hkeys : url_keys (map D (aggregated st)) = keys (aggregated st)).
  { unfold url_keys, keys. rewrite map_map. apply map_ext_in.
    intros [k item] Hin. simpl. rewrite derive_url.
    rewrite Forall_forall in Hu. apply list_elem_of_In in Hin.
    destruct (Hu _ Hin) as (_ & _ & Heq). exact Heq. }
  repeat split.
  - eapply Permutation_Forall; [|exact Hok]. symmetry. apply sort_desc_perm.
  - assert (Hperm : Permutation (url_keys (sort_desc (map D (aggregated st))))
                                (url_keys (map D (aggregated st))))
      by apply Permutation_map, sort_desc_perm.
    rewrite Hperm, Hkeys. exact Hnd.
  - apply sort_desc_sorted.
Qed.

(** *** A run on the output of a run *)

Lemma rec_ok_ts r :
  rec_ok r ->
  event_ts r = ts_of r /\ py_gt (ts_of r) (JNum 0) = Ok (is_pos (ts_of r))
  /\ dict_get r "ts" = Some (ts_of r) /\ dict_get r "timestamp" = Some (ts_of r)
  /\ (is_pos (ts_of r) = false -> ts_of r = JNum 0).
Proof.
  intros [(t & Hts & Htm & Hpz) _].
  assert (Et : ts_of r = t) by (unfold ts_of, dict_get_d; now rewrite Hts).
  rewrite Et. repeat split; auto.
  - unfold event_ts, dict_get_d, py_or. rewrite Hts, Htm. now destruct (truthy t).
  - unfold is_pos. destruct Hpz as [(z & Hz & _)| ->]; [|reflexivity].
    unfold py_gt. now rewrite Hz.
  - destruct Hpz as [(z & Hz & Hpos)| ->]; [|reflexivity].
    unfold is_pos, py_gt. rewrite Hz. simpl. lia.
Qed.

Lemma keys_uts_of recs x : In x (keys (uts_of recs)) -> In x (url_keys recs).
Proof.
  induction recs as [|r recs IH]; simpl; [tauto|].
  unfold keys in *. rewrite map_app, in_app_iff.
  intros [H|H]; [|right; auto].
  destruct (is_pos (ts_of r)); simpl in H; [|tauto].
  destruct H as [<-|[]]. now left.
Qed.

Lemma keys_hashable_uts_of recs :
  Forall rec_ok recs -> keys_hashable (uts_of recs).
Proof.
  induction 1 as [|r recs (_ & _ & Hh) _ IH]; simpl; [constructor|].
  apply Forall_app. split; [|exact IH].
  destruct (is_pos (ts_of r)); repeat constructor. exact Hh.
Qed.

Lemma second_loop recs :
  Forall rec_ok recs -> NoDup (url_keys recs) ->
  agg_loop agg_init (map JObj recs)
  = Ok {| aggregated := map (fun r => (url_of r, r)) recs;
          url_timestamps := uts_of recs |}.
Proof.
  induction recs as [|x l IH] using rev_ind; [reflexivity|].
  intros Hok Hnd. apply Forall_app in Hok. destruct Hok as [Hl Hx].
  inversion Hx as [|? ? Hx' _]; subst.
  unfold url_keys in Hnd. rewrite map_app in Hnd.
  apply NoDup_app in Hnd. destruct Hnd as (Hndl & Hfresh & _).
  assert (Hnot : ~ In (ckey (url_of x)) (url_keys l)).
  { intros Hin. apply list_elem_of_In in Hin. apply (Hfresh _ Hin).
    simpl. now left. }
  rewrite map_app, agg_loop_app, (IH Hl Hndl). simpl.
  destruct (rec_ok_ts x Hx') as (Hev & Hgt & _).
  destruct Hx' as (_ & Ht & Hh).
  fold (url_of x). rewrite Ht, Hev, Hgt, Hh. simpl.
  assert (Hagg : kd_get (map (fun r => (url_of r, r)) l) (url_of x) = None).
  { apply kd_get_fresh; auto.
    - apply Forall_forall. intros p Hp. apply list_elem_of_In, in_map_iff in Hp.
      destruct Hp as (r & <- & Hr). simpl.
      rewrite Forall_forall in Hl. apply list_elem_of_In in Hr.
      now destruct (Hl _ Hr) as (_ & _ & ?).
    - unfold keys. rewrite map_map. exact Hnot. }
  assert (Huts : kd_get (uts_of l) (url_of x) = None).
  { apply kd_get_fresh; auto.
    - now apply keys_hashable_uts_of.
    - intros Hin. apply Hnot. now apply keys_uts_of. }
  rewrite Hagg, Huts. simpl.
  rewrite (kd_set_fresh _ _ _ Hagg). f_equal. f_equal.
  - now rewrite map_app.
  - unfold uts_of. rewrite flat_map_app. simpl.
    destruct (is_pos (ts_of x)).
    + fold (uts_of l). now rewrite (kd_set_fresh _ _ _ Huts).
    + now rewrite app_nil_r.
Qed.

Lemma uts_lookup recs r :
  Forall rec_ok recs -> NoDup (url_keys recs) -> In r recs ->
  kd_get (uts_of recs) (url_of r)
  = if is_pos (ts_of r) then Some [ts_of r] else None.
Proof.
  induction recs as [|r0 recs IH]; simpl; [tauto|].
  intros Hok Hnd. inversion Hok as [|? ? Hr0 Hrest]; subst.
  apply NoDup_cons in Hnd. destruct Hnd as [Hfresh Hnd].
  assert (Hnot : ~ In (ckey (url_of r0)) (url_keys recs))
    by (intros Hin; apply Hfresh; now apply list_elem_of_In).
  destruct Hr0 as (_ & _ & Hh0).
  intros [<-|Hin].
  - destruct (is_pos (ts_of r0)); simpl.
    + now rewrite py_eq_refl_hashable.
    + apply kd_get_fresh; auto.
      * now apply keys_hashable_uts_of.
      * intros Hin. apply Hnot. now apply keys_uts_of.
  - assert (Hne : py_eq (url_of r0) (url_of r) = false).
    { rewrite Forall_forall in Hrest.
      destruct (Hrest r) as (_ & _ & Hh); [now apply list_elem_of_In|].
      apply py_eq_false_ckey; auto. intros Heq. apply Hnot.
      rewrite Heq. now apply (in_map (fun r => ckey (url_of r))). }
    destruct (is_pos (ts_of r0)); simpl; [rewrite Hne|]; now apply IH.
Qed.

Lemma derive_second recs r :
  Forall rec_ok recs -> NoDup (url_keys recs) -> In r recs ->
  derive (uts_of recs) (url_of r) r = rederive r.
Proof.
  intros Hok Hnd Hin. rewrite derive_unfold. unfold timestamps_of.
  rewrite (uts_lookup recs r Hok Hnd Hin).
  rewrite Forall_forall in Hok.
  destruct (rec_ok_ts r) as (_ & _ & Hts & Htm & Hzero);
    [apply Hok; now apply list_elem_of_In|].
  unfold rederive. destruct (is_pos (ts_of r)); simpl.
  - now rewrite (dict_set_same r "ts"), (dict_set_same r "timestamp").
  - rewrite <- (Hzero eq_refl).
    now rewrite (dict_set_same r "ts"), (dict_set_same r "timestamp").
Qed.

Lemma sort_key_rederive r : sort_key (rederive r) = sort_key r.
Proof.
  unfold rederive, sort_key. now rewrite !dict_get_d_set_ne by discriminate.
Qed.

Lemma Sorted_map_rederive recs :
  Sorted desc recs -> Sorted desc (map rederive recs).
Proof.
  induction 1 as [|x l Hs IH Hhd]; simpl; constructor; auto.
  destruct Hhd as [|y l Hxy]; simpl; constructor.
  unfold desc in *. now rewrite !sort_key_rederive.
Qed.

Lemma rederive_other r k :
  k <> "play_count" -> k <> "timestamps" ->
  dict_get (rederive r) k = dict_get r k.
Proof.
  intros H1 H2. unfold rederive.
  now rewrite !dict_get_set_ne by congruence.
Qed.

Lemma migrate_data_again recs :
  Forall rec_ok recs -> NoDup (url_keys recs) -> Sorted desc recs ->
  migrate_data (map JObj recs) = Ok (map rederive recs).
Proof.
  intros Hok Hnd Hs. unfold migrate_data.
  rewrite (second_loop recs Hok Hnd). simpl. f_equal.
  rewrite map_map. rewrite <- (sort_desc_id (map rederive recs)).
  - f_equal. apply map_ext_in. intros r Hin. now apply derive_second.
  - now apply Sorted_map_rederive.
Qed.

(** *** The file system *)

Lemma string_length_append (s t : string) :
  String.length (String.append s t) = (String.length s + String.length t)%nat.
Proof. induction s as [|c s IH]; simpl; [reflexivity|]. now rewrite IH. Qed.

Lemma backup_path_neq p : backup_path p <> p.
Proof.
  intros H. apply (f_equal String.length) in H.
  unfold backup_path in H. rewrite string_length_append in H. simpl in H. lia.
Qed.

(** *** What [json.dump] can write *)

Lemma plain_no_surrogate s : plain s = true -> has_surrogate s = false.
Proof.
  induction s as [|c s IH]; [reflexivity|]. cbn [plain has_surrogate].
  intros H. apply andb_prop in H as [Hc Hs]. rewrite (IH Hs).
  apply Nat.ltb_lt in Hc.
  replace (nat_of_ascii c =? 237)%nat with false
    by (symmetry; apply Nat.eqb_neq; lia).
  reflexivity.
Qed.

Lemma plain_string_of_uint d : plain (NilEmpty.string_of_uint d) = true.
Proof. induction d; simpl; auto. Qed.

Lemma plain_str_of_Z z : plain (str_of_Z z) = true.
Proof.
  assert (H : forall d, plain (NilZero.string_of_uint d) = true).
  { intros d. unfold NilZero.string_of_uint.
    destruct d; try reflexivity; apply plain_string_of_uint. }
  unfold str_of_Z, NilZero.string_of_int.
  destruct (Z.to_int z) as [d|d]; [apply H|].
  cbn [plain]. now rewrite H.
Qed.

Lemma plain_py_str_number t z : num_of t = Some z -> plain (py_str t) = true.
Proof.
  destruct t as [|b|n| | |]; try discriminate; intros _.
  - now destruct b.
  - apply plain_str_of_Z.
Qed.

Lemma encodable_dict_set d k v :
  encodable (JObj d) = true -> has_surrogate k = false -> encodable v = true ->
  encodable (JObj (dict_set d k v)) = true.
Proof.
  intros Hd Hk Hv. induction d as [|[k' w] d IH]; cbn [dict_set].
  - cbn. now rewrite Hk, Hv.
  - cbn in Hd. apply andb_prop in Hd as [Hd1 Hd2]. apply andb_prop in Hd1 as [Hk' Hw].
    destruct (String.eqb k' k).
    + cbn. now rewrite Hk', Hv, Hd2.
    + change (encodable (JObj ((k', w) :: dict_set d k v)))
        with (negb (has_surrogate k') && encodable w
              && encodable (JObj (dict_set d k v))).
      now rewrite Hk', Hw, (IH Hd2).
Qed.

Lemma encodable_rederive r :
  encodable (JObj r) = true -> encodable (JObj (rederive r)) = true.
Proof.
  intros Hr. unfold rederive.
  apply encodable_dict_set; [apply encodable_dict_set; auto| |]; try reflexivity.
  unfold is_pos, py_gt.
  destruct (num_of (ts_of r)) as [z|] eqn:Hz; [|reflexivity].
  cbn [num_of]. destruct (z >? 0); [|reflexivity].
  cbn [map join encodable]. now rewrite (plain_no_surrogate _ (plain_py_str_number _ _ Hz)).
Qed.

Lemma encodable_map_rederive recs :
  encodable (JList (map JObj recs)) = true ->
  encodable (JList (map JObj (map rederive recs))) = true.
Proof.
  change (forallb encodable (map JObj recs) = true ->
          forallb encodable (map JObj (map rederive recs)) = true).
  induction recs as [|r recs IH]; [reflexivity|].
  cbn [map forallb]. intros H. apply andb_prop in H as [Hr Hrest].
  now rewrite (encodable_rederive r Hr), (IH Hrest).
Qed.

(** *** The run as a whole *)

Lemma migrate_playback_history_ok (fs : filesystem) p data recs :
  fs !! p = Some (Parsed (JList data)) ->
  migrate_data data = Ok recs ->
  encodable (JList data) = true ->
  encodable (JList (map JObj recs)) = true ->
  migrate_playback_history fs p
  = (true, <[p := Parsed (JList (map JObj recs))]>
             (match fs !! backup_path p with
              | None => <[backup_path p := Parsed (JList data)]> fs
              | Some _ => fs
              end)).
Proof.
  intros Hf Hd He1 He2. unfold migrate_playback_history, write_json.
  rewrite Hf, Hd, He1, He2. now destruct (fs !! backup_path p).
Qed.

Lemma migrate_playback_history_true (fs fs1 : filesystem) p :
  migrate_playback_history fs p = (true, fs1) ->
  exists data recs,
    fs !! p = Some (Parsed (JList data)) /\ migrate_data data = Ok recs
    /\ fs1 !! p = Some (Parsed (JList (map JObj recs)))
    /\ fs1 !! backup_path p
       = Some (default (Parsed (JList data)) (fs !! backup_path p))
    /\ encodable (JList (map JObj recs)) = true.
Proof.
  unfold migrate_playback_history, write_json.
  destruct (fs !! p) as [[j|]|] eqn:Hf; try discriminate.
  destruct j as [| | | |data|]; try discriminate.
  destruct (migrate_data data) as [recs|] eqn:Hd; [|discriminate].
  assert (Hne : p <> backup_path p)
    by (intros E; symmetry in E; now apply backup_path_neq in E).
  destruct (fs !! backup_path p) as [found|] eqn:Hb; cbn [fst snd].
  - destruct (encodable (JList (map JObj recs))) eqn:He; cbn [fst snd];
      [|discriminate].
    intros [= <-]. exists data, recs. repeat split; auto.
    + apply lookup_insert_eq.
    + now rewrite lookup_insert_ne.
  - destruct (encodable (JList data)); cbn [fst snd]; [|discriminate].
    destruct (encodable (JList (map JObj recs))) eqn:He; cbn [fst snd];
      [|discriminate].
    intros [= <-]. exists data, recs. repeat split; auto.
    + apply lookup_insert_eq.
    + rewrite lookup_insert_ne by exact Hne. apply lookup_insert_eq.
Qed.

End MigrateFacts.

(** ** The migrator: the scenario, a second run, legacy events *)

Module MigrateClaims.
Import Migrate Keys MigrateSpec PyFacts MigrateFacts Examples.

Lemma migrate_data_events : migrate_data events = Ok [record_a; record_b].
Proof. vm_compute. reflexivity. Qed.

(** C1.  On the events [a@100, a@200, b@150] the migrator succeeds and
    rewrites the main file to exactly two records, [a] then [b]: the
    record of "a" has play_count 2, timestamps "100,200" and ts 200, the
    record of "b" has play_count 1 and ts 150. *)
Theorem migrate_scenario (fs : filesystem) (file_path : string) :
  fs !! file_path = Some (Parsed (JList events)) ->
  exists ra rb fs',
    migrate_playback_history fs file_path = (true, fs')
    /\ fs' !! file_path = Some (Parsed (JList [JObj ra; JObj rb]))
    /\ dict_get ra "url" = Some (JStr "a")
    /\ dict_get ra "play_count" = Some (JNum 2)
    /\ dict_get ra "timestamps" = Some (JStr "100,200")
    /\ dict_get ra "ts" = Some (JNum 200)
    /\ dict_get rb "url" = Some (JStr "b")
    /\ dict_get rb "play_count" = Some (JNum 1)
    /\ dict_get rb "ts" = Some (JNum 150)
    /\ sort_key ra >= sort_key rb.
Proof.
  intros Hfile. exists record_a, record_b. eexists.
  rewrite (migrate_playback_history_ok fs file_path events _ Hfile
             migrate_data_events eq_refl eq_refl).
  cbn [map]. split; [reflexivity|]. rewrite lookup_insert_eq.
  repeat split; try reflexivity. vm_compute. discriminate.
Qed.

Lemma migrate_scenario_witness :
  fs0 !! main_file = Some (Parsed (JList events))
  /\ exists ra rb fs',
    migrate_playback_history fs0 main_file = (true, fs')
    /\ fs' !! main_file = Some (Parsed (JList [JObj ra; JObj rb]))
    /\ dict_get ra "url" = Some (JStr "a")
    /\ dict_get ra "play_count" = Some (JNum 2)
    /\ dict_get ra "timestamps" = Some (JStr "100,200")
    /\ dict_get ra "ts" = Some (JNum 200)
    /\ dict_get rb "url" = Some (JStr "b")
    /\ dict_get rb "play_count" = Some (JNum 1)
    /\ dict_get rb "ts" = Some (JNum 150)
    /\ sort_key ra >= sort_key rb.
Proof.
  split.
  - apply lookup_singleton_eq.
  - apply migrate_scenario. apply lookup_singleton_eq.
Defined.

Lemma migrate_data_record_a_b :
  migrate_data [JObj record_a; JObj record_b]
  = Ok [rederive record_a; rederive record_b].
Proof. vm_compute. reflexivity. Qed.

(** C3 as stated fails: on the scenario events the second run does not
    reproduce the output of the first; the record of "a" falls from two
    plays to one. *)
Lemma migrate_rerun_differs :
  exists ra1 ra2 rb1 rb2,
    after 1 !! main_file = Some (Parsed (JList [JObj ra1; JObj rb1]))
    /\ after 2 !! main_file = Some (Parsed (JList [JObj ra2; JObj rb2]))
    /\ dict_get ra1 "play_count" = Some (JNum 2)
    /\ dict_get ra2 "play_count" = Some (JNum 1)
    /\ dict_get ra1 "timestamps" = Some (JStr "100,200")
    /\ dict_get ra2 "timestamps" = Some (JStr "200")
    /\ after 2 !! main_file <> after 1 !! main_file.
Proof.
  assert (H1 : after 1 !! main_file
               = Some (Parsed (JList [JObj record_a; JObj record_b]))).
  { unfold after. simpl.
    rewrite (migrate_playback_history_ok fs0 main_file events _
               (lookup_singleton_eq _ _) migrate_data_events eq_refl eq_refl).
    simpl. apply lookup_insert_eq. }
  assert (H2 : after 2 !! main_file
               = Some (Parsed (JList [JObj (rederive record_a);
                                      JObj (rederive record_b)]))).
  { change (after 2) with (snd (migrate_playback_history (after 1) main_file)).
    rewrite (migrate_playback_history_ok (after 1) main_file _ _
               H1 migrate_data_record_a_b eq_refl eq_refl).
    simpl. apply lookup_insert_eq. }
  exists record_a, (rederive record_a), record_b, (rederive record_b).
  rewrite H1, H2. repeat split; try reflexivity. discriminate.
Qed.

(** C3, amended.  A successful run leaves a backup behind: the one it
    found, or else the data it read.  A second run then succeeds, leaves
    the backup file as it is and rewrites the main file from its current
    contents: the same records in the same order, every field kept
    except [play_count] and [timestamps], which are rebuilt from the
    record's own [ts]. *)
Theorem migrate_rerun (fs fs1 : filesystem) (file_path : string) :
  migrate_playback_history fs file_path = (true, fs1) ->
  exists recs,
    fs1 !! file_path = Some (Parsed (JList (map JObj recs)))
    /\ fs1 !! backup_path file_path
       = match fs !! backup_path file_path with
         | Some found => Some found
         | None => fs !! file_path
         end
    /\ migrate_playback_history fs1 file_path
        = (true, <[file_path := Parsed (JList (map JObj (map rederive recs)))]> fs1)
    /\ snd (migrate_playback_history fs1 file_path) !! backup_path file_path
        = fs1 !! backup_path file_path
    /\ (forall r k, k <> "play_count" -> k <> "timestamps" ->
          dict_get (rederive r) k = dict_get r k).
Proof.
  intros Hrun.
  destruct (migrate_playback_history_true _ _ _ Hrun)
    as (data & recs & Hdata & Hd & Hmain & Hbak & Henc).
  destruct (migrate_data_output _ _ Hd) as (Hok & Hnd & Hs).
  pose proof (migrate_data_again recs Hok Hnd Hs) as Hagain.
  pose proof (migrate_playback_history_ok fs1 file_path _ _ Hmain Hagain
                Henc (encodable_map_rederive recs Henc)) as H2.
  rewrite Hbak in H2.
  exists recs. split; [exact Hmain|]. split.
  { rewrite Hbak, Hdata. now destruct (fs !! backup_path file_path). }
  split; [exact H2|]. split.
  - rewrite H2. simpl.
    apply lookup_insert_ne. intros E. symmetry in E. now apply backup_path_neq in E.
  - intros. now apply rederive_other.
Qed.

Lemma migrate_rerun_witness :
  migrate_playback_history fs0 main_file = (true, after 1)
  /\ exists recs,
    after 1 !! main_file = Some (Parsed (JList (map JObj recs)))
    /\ after 1 !! backup_path main_file
       = match fs0 !! backup_path main_file with
         | Some found => Some found
         | None => fs0 !! main_file
         end
    /\ migrate_playback_history (after 1) main_file
        = (true, <[main_file := Parsed (JList (map JObj (map rederive recs)))]> (after 1))
    /\ snd (migrate_playback_history (after 1) main_file) !! backup_path main_file
        = after 1 !! backup_path main_file
    /\ (forall r k, k <> "play_count" -> k <> "timestamps" ->
          dict_get (rederive r) k = dict_get r k).
Proof.
  assert (H : migrate_playback_history fs0 main_file = (true, after 1)).
  { unfold after. simpl.
    now rewrite (migrate_playback_history_ok fs0 main_file events _
                   (lookup_singleton_eq _ _) migrate_data_events eq_refl eq_refl). }
  split; [exact H|]. exact (migrate_rerun fs0 (after 1) main_file H).
Defined.

(** C2 at the failing input.  The record kept for "a" is the event of
    time 100, not the event of the highest time 200: line 51 compares
    against the stored ['ts'] field, which legacy events do not have. *)
Theorem migrate_legacy_representative :
  migrate_data legacy_events
  = Ok [[("url", JStr "a"); ("timestamp", JNum 200); ("title", JStr "earlier");
         ("ts", JNum 200); ("play_count", JNum 2);
         ("timestamps", JStr "100,200")]].
Proof. vm_compute. reflexivity. Qed.

End MigrateClaims.

(** ** Song.from_dict *)

Module SongFacts.
Import Strings Song PyFacts SongSpec Examples.

(** C8 as stated fails: a record of type "local" whose [url] is not a
    string makes the constructor of [LocalSong] raise. *)
Lemma from_dict_null_url_raises :
  from_dict RefLib.lib 0 null_url_record = Raise.
Proof. reflexivity. Qed.

(** C8, amended.  [Song.from_dict] builds a [LocalSong] when [type] is
    "local" or missing, provided the [url] is a string or missing, and a
    [StreamSong] with the [type] value as stream type otherwise; in these
    cases it does not raise, and missing fields take their defaults: the
    empty path, the title derived from the file name or the placeholder,
    duration 0, and, for a stream url that names no video (no string, a
    string that does not parse, or one of none of the known shapes),
    the empty video id and the thumbnail as given.  A record of type
    "local" whose [url] is present and no string makes [from_dict]
    raise. *)
Theorem from_dict_dispatch (lib : Library) (now : Z) (data : dict) :
  (dict_get_d data "type" (JStr "local") = JStr "local" ->
   forall p, dict_get_d data "url" (JStr "") = JStr p ->
   exists s,
     from_dict lib now data = Ok (Local s)
     /\ file_path s = p
     /\ url (local_base s) = JStr p
     /\ type (local_base s) = JStr "local"
     /\ title (local_base s)
        = py_or (dict_get_d data "title" JNull)
                (JStr (fst (splitext lib (basename lib p))))
     /\ duration (local_base s) = dict_get_d data "duration" (JNum 0)
     /\ (dict_get data "title" = None ->
         title (local_base s) = JStr (fst (splitext lib (basename lib p))))
     /\ (dict_get data "duration" = None -> duration (local_base s) = JNum 0))
  /\ (dict_get_d data "type" (JStr "local") = JStr "local" ->
      (forall p, dict_get_d data "url" (JStr "") <> JStr p) ->
      from_dict lib now data = Raise)
  /\ (dict_get_d data "type" (JStr "local") <> JStr "local" ->
      exists s,
        from_dict lib now data = Ok (Stream s)
        /\ stream_type s = dict_get_d data "type" (JStr "local")
        /\ stream_url s = dict_get_d data "url" (JStr "")
        /\ title (stream_base s)
           = py_or (dict_get_d data "title" JNull) (JStr loading_title)
        /\ duration (stream_base s) = dict_get_d data "duration" (JNum 0)
        /\ (dict_get data "title" = None ->
            title (stream_base s) = JStr loading_title)
        /\ (dict_get data "duration" = None -> duration (stream_base s) = JNum 0)
        /\ (dict_get data "url" = None -> stream_url s = JStr "")
        /\ (names_no_video lib (dict_get_d data "url" (JStr "")) ->
            video_id s = ""
            /\ thumbnail_url (stream_base s) = dict_get_d data "thumbnail_url" JNull
            /\ (dict_get data "thumbnail_url" = None ->
                thumbnail_url (stream_base s) = JNull))).
Proof.
  split; [|split].
  - intros Hty p Hurl. unfold from_dict. rewrite Hty, Hurl. simpl.
    eexists. split; [reflexivity|]. simpl. repeat split; try reflexivity.
    + intros Hnone. unfold dict_get_d. now rewrite Hnone.
    + intros Hnone. unfold dict_get_d. now rewrite Hnone.
  - intros Hty Hurl. unfold from_dict. rewrite Hty. cbn [py_eq String.eqb].
    replace (String.eqb "local" "local") with true by reflexivity.
    destruct (dict_get_d data "url" (JStr "")) as [| | |p| |]; try reflexivity.
    now destruct (Hurl p).
  - intros Hty. unfold from_dict.
    destruct (py_eq (dict_get_d data "type" (JStr "local")) (JStr "local")) eqn:E.
    { apply py_eq_JStr_r in E. contradiction. }
    eexists. split; [reflexivity|]. simpl.
    do 4 (split; [reflexivity|]).
    split; [intros Hnone; unfold dict_get_d; now rewrite Hnone|].
    split; [intros Hnone; unfold dict_get_d; now rewrite Hnone|].
    split; [intros Hnone; unfold dict_get_d; now rewrite Hnone|].
    intros Hno.
    assert (Hid : _extract_video_id lib (dict_get_d data "url" (JStr "")) = "").
    { destruct (dict_get_d data "url" (JStr "")) as [| | |u| |]; simpl; auto.
      simpl in Hno. destruct (urlparse lib u) as [parsed|]; [|reflexivity].
      unfold fits_no_shape in Hno. cbv zeta in Hno.
      apply andb_prop in Hno as [Hno H4]. apply andb_prop in Hno as [Hno H3].
      apply andb_prop in Hno as [H1 H2].
      apply negb_true_iff in H1, H2, H3, H4.
      now rewrite H1, H2, H3, H4. }
    rewrite Hid. simpl. rewrite andb_false_r.
    assert (Hthumb : (if negb (truthy (dict_get_d data "thumbnail_url" JNull))
                      then dict_get_d data "thumbnail_url" JNull
                      else dict_get_d data "thumbnail_url" JNull)
                     = dict_get_d data "thumbnail_url" JNull)
      by now destruct (truthy (dict_get_d data "thumbnail_url" JNull)).
    rewrite Hthumb. split; [reflexivity|]. split; [reflexivity|].
    intros Hnone. unfold dict_get_d. now rewrite Hnone.
Qed.

Lemma from_dict_dispatch_witness :
  (dict_get_d bare_local_record "type" (JStr "local") = JStr "local"
   /\ dict_get_d bare_local_record "url" (JStr "") = JStr "music/song.MP3"
   /\ exists s,
        from_dict RefLib.lib 5000 bare_local_record = Ok (Local s)
        /\ file_path s = "music/song.MP3"
        /\ title (local_base s) = JStr "song"
        /\ duration (local_base s) = JNum 0)
  /\ (dict_get_d radio_record "type" (JStr "local") <> JStr "local"
      /\ names_no_video RefLib.lib (dict_get_d radio_record "url" (JStr ""))
      /\ exists s,
           from_dict RefLib.lib 5000 radio_record = Ok (Stream s)
           /\ stream_type s = JStr "stream"
           /\ video_id s = ""
           /\ thumbnail_url (stream_base s) = JNull
           /\ title (stream_base s) = JStr loading_title)
  /\ (names_no_video RefLib.lib (dict_get_d no_url_record "url" (JStr ""))
      /\ exists s,
           from_dict RefLib.lib 5000 no_url_record = Ok (Stream s)
           /\ stream_url s = JStr ""
           /\ video_id s = "")
  /\ from_dict RefLib.lib 5000 null_url_record = Raise.
Proof.
  split; [|split; [|split]].
  - split; [reflexivity|]. split; [reflexivity|].
    destruct (proj1 (from_dict_dispatch RefLib.lib 5000 bare_local_record)
                eq_refl "music/song.MP3" eq_refl)
      as (s & Hs & Hp & _ & _ & _ & _ & Ht & Hd).
    exists s. split; [exact Hs|]. split; [exact Hp|].
    split; [exact (Ht eq_refl)|exact (Hd eq_refl)].
  - assert (Hty : dict_get_d radio_record "type" (JStr "local") <> JStr "local")
      by discriminate.
    assert (Hno : names_no_video RefLib.lib (dict_get_d radio_record "url" (JStr "")))
      by reflexivity.
    split; [exact Hty|]. split; [exact Hno|].
    destruct (proj2 (proj2 (from_dict_dispatch RefLib.lib 5000 radio_record)) Hty)
      as (s & Hs & Hst & _ & _ & _ & Ht & _ & _ & Hvid).
    destruct (Hvid Hno) as (Hid & _ & Hthumb).
    exists s. split; [exact Hs|]. split; [exact Hst|]. split; [exact Hid|].
    split; [exact (Hthumb eq_refl)|exact (Ht eq_refl)].
  - assert (Hty : dict_get_d no_url_record "type" (JStr "local") <> JStr "local")
      by discriminate.
    assert (Hno : names_no_video RefLib.lib (dict_get_d no_url_record "url" (JStr "")))
      by reflexivity.
    split; [exact Hno|].
    destruct (proj2 (proj2 (from_dict_dispatch RefLib.lib 5000 no_url_record)) Hty)
      as (s & Hs & _ & _ & _ & _ & _ & _ & Hurl & Hvid).
    destruct (Hvid Hno) as (Hid & _).
    exists s. split; [exact Hs|]. split; [exact (Hurl eq_refl)|exact Hid].
  - apply (proj1 (proj2 (from_dict_dispatch RefLib.lib 5000 null_url_record)));
      [reflexivity|]. intros p. discriminate.
Defined.

End SongFacts.

(** ** Playlist.add_song *)

Module PlaylistFacts.
Import Keys PyFacts PlaylistSpec ModelSpec Examples.
Import Playlist.

Section WithLibrary.
Variable lib : Song.Library.

Lemma hydrate_item_get now item k dflt :
  k <> "thumbnail_url" ->
  dict_get_d (hydrate_item lib now item).1 k dflt = dict_get_d item k dflt.
Proof.
  intros Hk. unfold hydrate_item.
  destruct (lacks_thumbnail item); [|reflexivity].
  destruct (stream_thumbnail lib now item) as [thumb|]; [|reflexivity].
  destruct (negb (String.eqb thumb "")); [|reflexivity].
  simpl. apply dict_get_d_set_ne. congruence.
Qed.

Lemma hydrate_item_url now item :
  record_url (hydrate_item lib now item).1 = record_url item.
Proof. apply hydrate_item_get. discriminate. Qed.

Lemma add_song_record now pl item :
  add_song lib now pl (JObj item)
  = let song_item := (hydrate_item lib now item).1 in
    if has_record_url (songs pl) (record_url item)
    then (false, pl, JObj song_item)
    else (true, set_songs pl (JObj song_item :: songs pl) now, JObj song_item).
Proof.
  unfold add_song. fold (record_url (hydrate_item lib now item).1).
  rewrite hydrate_item_url. reflexivity.
Qed.

Lemma add_song_bare now pl p :
  hashable p = true ->
  add_song lib now pl p
  = if py_in p (songs pl) then (false, pl, p)
    else (true, set_songs pl (p :: songs pl) now, p).
Proof. destruct p; simpl; try discriminate; reflexivity. Qed.

Lemma py_eq_hashable_l a b :
  hashable a = true -> py_eq a b = true -> hashable b = true.
Proof. destruct a, b; simpl; auto; discriminate. Qed.

Lemma has_record_url_eq l u u' :
  hashable u = true -> py_eq u u' = true ->
  has_record_url l u = true -> has_record_url l u' = true.
Proof.
  intros Hu Heq. pose proof (py_eq_hashable_l _ _ Hu Heq) as Hu'.
  unfold has_record_url. rewrite !existsb_exists.
  intros ([| | | | |d] & Hin & Hd); try discriminate.
  exists (JObj d). split; [exact Hin|].
  pose proof (py_eq_hashable_r _ _ Hu Hd) as Hhd.
  apply py_eq_true_ckey; auto.
  apply py_eq_true_ckey in Hd, Heq; auto. congruence.
Qed.

Lemma py_in_eq l p q :
  hashable p = true -> py_eq p q = true ->
  py_in p l = true -> py_in q l = true.
Proof.
  intros Hp Heq. pose proof (py_eq_hashable_l _ _ Hp Heq) as Hq.
  unfold py_in. rewrite !existsb_exists.
  intros (s & Hin & Hs). exists s. split; [exact Hin|].
  pose proof (py_eq_hashable_l _ _ Hp Hs) as Hhs.
  apply py_eq_true_ckey; auto.
  apply py_eq_true_ckey in Hs, Heq; auto. congruence.
Qed.

Lemma held_record l d : held l (JObj d) = has_record_url l (record_url d).
Proof. reflexivity. Qed.

Lemma held_bare l e : is_record e = false -> held l e = py_in e l.
Proof. destruct e; try discriminate; reflexivity. Qed.

Lemma held_hydrated now l e : held l (hydrated lib now e) = held l e.
Proof.
  destruct e as [| | | | |d]; try reflexivity.
  cbn [hydrated]. now rewrite !held_record, hydrate_item_url.
Qed.

(** [add_song] in terms of [held]: the entry is refused if the
    playlist holds its song, and put in front otherwise. *)
Lemma add_song_held now pl arg :
  add_song lib now pl arg
  = if held (songs pl) arg
    then (false, pl, hydrated lib now arg)
    else (true, set_songs pl (hydrated lib now arg :: songs pl) now,
          hydrated lib now arg).
Proof.
  destruct arg as [| | | | |item]; try reflexivity.
  rewrite add_song_record, held_record. reflexivity.
Qed.


(** *** Entries that share a url *)

Lemma held_false l e :
  held l e = false -> forall b, b ∈ l -> clash e b = false.
Proof.
  unfold held. intros H b Hb.
  induction l as [|x l IH]; [now apply elem_of_nil in Hb|].
  cbn [existsb] in H. apply orb_false_elim in H as [Hx Hl].
  apply elem_of_cons in Hb as [->|Hb]; auto.
Qed.

Lemma distinct_songs_cons e l :
  distinct_songs l -> held l e = false -> distinct_songs (e :: l).
Proof.
  intros Hl He i j a b Hij Hi Hj. destruct j as [|j]; [lia|].
  destruct i as [|i]; simpl in Hi, Hj.
  - injection Hi as <-. apply (held_false l e He).
    apply list_elem_of_lookup. eauto.
  - apply (Hl i j); auto. lia.
Qed.

Lemma no_repeats_distinct l : no_repeats l = true -> distinct_songs l.
Proof.
  induction l as [|e l IH]; [intros _ i j a b _ Hi; discriminate|].
  cbn [no_repeats]. intros H. apply andb_prop in H as [He Hl].
  apply distinct_songs_cons; [now apply IH|]. now apply negb_true_iff.
Qed.

Lemma add_song_keeps_distinct now pl arg :
  distinct_songs (songs pl) ->
  distinct_songs (songs (add_song lib now pl arg).1.2).
Proof.
  intros Hd. rewrite add_song_held.
  destruct (held (songs pl) arg) eqn:E; cbn [fst snd]; [exact Hd|].
  cbn [songs set_songs]. apply distinct_songs_cons; [exact Hd|].
  now rewrite held_hydrated.
Qed.

Lemma hydrate_songs_map now l :
  (hydrate_songs lib now l).1 = map (hydrated lib now) l.
Proof.
  induction l as [|e l IH]; [reflexivity|].
  destruct e as [| | | | |item]; cbn [hydrate_songs map hydrated];
    destruct (hydrate_songs lib now l) as [l' c'] eqn:El; cbn [fst] in *;
    try (now rewrite IH).
  destruct (hydrate_item lib now item) as [item' c]. cbn [fst]. now rewrite IH.
Qed.

Lemma clash_hydrated now now' a b :
  clash (hydrated lib now a) (hydrated lib now' b) = clash a b.
Proof.
  destruct a as [| | | | |da], b as [| | | | |db]; try reflexivity.
  cbn [hydrated clash]. now rewrite !hydrate_item_url.
Qed.

Lemma hydrate_songs_distinct now l :
  distinct_songs l -> distinct_songs (hydrate_songs lib now l).1.
Proof.
  intros Hd i j a b Hij Hi Hj. rewrite hydrate_songs_map in Hi, Hj.
  change (map ?f ?l) with (f <$> l) in Hi, Hj.
  rewrite list_lookup_fmap in Hi, Hj.
  destruct (l !! i) as [a0|] eqn:Ei; [|discriminate].
  destruct (l !! j) as [b0|] eqn:Ej; [|discriminate].
  injection Hi as <-. injection Hj as <-.
  rewrite clash_hydrated. now apply (Hd i j).
Qed.

Lemma from_dict_songs now d pl :
  from_dict lib now (JObj d) = Loaded pl ->
  exists l, songs pl = (hydrate_songs lib now l).1
            /\ (l = stored_songs d \/ l = []).
Proof.
  unfold from_dict, __init__, stored_songs.
  destruct (if truthy (dict_get_d d "id" JNull) then dict_get_d d "id" JNull
            else JStr (str_of_Z now)) as [| | |i| |]; try discriminate.
  destruct (truthy (dict_get_d d "songs" (JList []))) eqn:Et.
  - destruct (dict_get_d d "songs" (JList [])) as [| | | |l|]; try discriminate.
    intros [= <-]. exists l. split; [|now left].
    unfold _hydrate_stream_thumbnails. simpl.
    now destruct (hydrate_songs lib now l).
  - intros [= <-]. exists []. split; [reflexivity|now right].
Qed.

(** C5, amended.  In a playlist built by calls of [add_song] from an
    empty playlist, or from a playlist loaded from a record whose songs
    are distinct, the songs are distinct: no two records have the same
    url, whatever the url is, and no bare entry is equal to another
    entry.  (A bare path and a record of the same url may both be
    there.) *)
Theorem add_song_no_duplicates (pl : Playlist) :
  reachable lib pl ->
  forall i j a b, (i < j)%nat ->
    songs pl !! i = Some a -> songs pl !! j = Some b ->
    match a, b with
    | JObj da, JObj db => py_eq (record_url db) (record_url da) = false
    | JObj _, _ => True
    | _, _ => py_eq a b = false
    end.
Proof.
  intros Hreach.
  assert (Hd : distinct_songs (songs pl)).
  { induction Hreach as [pl Hempty|now d pl Hload Hstored|pl now arg Hreach IH].
    - rewrite Hempty. intros i j a b _ Hi. discriminate.
    - destruct (from_dict_songs now d pl Hload) as (l & -> & [->| ->]).
      + now apply hydrate_songs_distinct.
      + intros i j a b _ Hi. discriminate.
    - now apply add_song_keeps_distinct. }
  intros i j a b Hij Hi Hj. specialize (Hd i j a b Hij Hi Hj).
  destruct a as [| | | | |da]; try exact Hd.
  destruct b as [| | | | |db]; try exact I. exact Hd.
Qed.

(** *** Thumbnails of YouTube records *)

(** C7.  [add_song] on a record of type "youtube" without thumbnail,
    whose url is a watch URL with video id [vid], completes the record
    with the thumbnail of [vid]; unless a record of that url is already
    there, the completed record is stored at the front of [songs]. *)
Theorem add_song_youtube_thumbnail (now : Z) (pl : Playlist) (item : dict)
    (u : string) (parsed : Song.ParseResult) (k vid : string) (rest : list string) :
  dict_get_d item "type" JNull = JStr "youtube" ->
  dict_get_d item "url" (JStr "") = JStr u ->
  truthy (dict_get_d item "thumbnail_url" JNull) = false ->
  Song.urlparse lib u = Some parsed ->
  Strings.contains "youtube.com" (Song.lower lib (Song.netloc parsed)) = true ->
  Strings.contains "watch" (Song.path parsed) = true ->
  List.find (fun kv => String.eqb (fst kv) "v")
            (Song.parse_qs lib (Song.query parsed)) = Some (k, vid :: rest) ->
  vid <> "" ->
  let stored := dict_set item "thumbnail_url" (JStr (youtube_thumbnail vid)) in
  (add_song lib now pl (JObj item)).2 = JObj stored
  /\ dict_get stored "thumbnail_url" = Some (JStr (youtube_thumbnail vid))
  /\ truthy (JStr (youtube_thumbnail vid)) = true
  /\ (has_record_url (songs pl) (record_url item) = false ->
      (add_song lib now pl (JObj item)).1.1 = true
      /\ songs (add_song lib now pl (JObj item)).1.2 = JObj stored :: songs pl).
Proof.
  intros Hty Hurl Hthumb Hparse Hhost Hpath Hqs Hvid. cbv zeta.
  assert (Hvid' : String.eqb vid "" = false) by now apply String.eqb_neq.
  assert (Hhyd : (hydrate_item lib now item).1
                 = dict_set item "thumbnail_url" (JStr (youtube_thumbnail vid))).
  { unfold hydrate_item, lacks_thumbnail. rewrite Hty, Hthumb. simpl.
    unfold stream_thumbnail, Song.get_thumbnail_url, Song.is_youtube,
      Song.StreamSong_init. simpl.
    rewrite Hty, Hurl. simpl. rewrite Hparse, Hhost, Hpath, Hqs. simpl.
    rewrite Hvid'. simpl. reflexivity. }
  split; [|split; [|split]].
  - rewrite add_song_record. cbv zeta. rewrite Hhyd.
    now destruct (has_record_url (songs pl) (record_url item)).
  - apply dict_get_set_eq.
  - reflexivity.
  - intros Hnew. rewrite add_song_record. cbv zeta. rewrite Hhyd, Hnew.
    now split.
Qed.

End WithLibrary.



(** C5 as stated fails.  A bare path and a record of the same url are
    both accepted, and loading keeps stored duplicates. *)
Lemma songs_share_url :
  (let pl1 := (add_song RefLib.lib 10 empty_playlist (JStr "x.mp3")).1.2 in
   let pl2 := (add_song RefLib.lib 20 pl1 (JObj [("url", JStr "x.mp3")])).1.2 in
   reachable RefLib.lib pl2
   /\ songs pl2 = [JObj [("url", JStr "x.mp3")]; JStr "x.mp3"]
   /\ entry_url (JObj [("url", JStr "x.mp3")]) = entry_url (JStr "x.mp3"))
  /\ (exists pl,
        from_dict RefLib.lib 30
          (JObj [("id", JStr "p");
                 ("songs", JList [JStr "x.mp3"; JStr "x.mp3"])]) = Loaded pl
        /\ songs pl = [JStr "x.mp3"; JStr "x.mp3"]).
Proof.
  split.
  - cbv zeta. split; [|split; reflexivity].
    apply reach_add, reach_add, reach_empty. reflexivity.
  - eexists. split; reflexivity.
Qed.

(** A playlist that is loaded from a stored record of two songs and
    then offered one song it holds and two it does not. *)
Lemma add_song_no_duplicates_witness :
  exists pl0 pl,
    from_dict RefLib.lib 5 (JObj stored_mix) = Loaded pl0
    /\ pl = (add_song RefLib.lib 40
               (add_song RefLib.lib 30
                  (add_song RefLib.lib 20 pl0 (JObj [("url", JStr "a.mp3")])).1.2
                  (JObj youtube_record)).1.2
               (JStr "c.mp3")).1.2
    /\ reachable RefLib.lib pl
    /\ length (songs pl) = 4%nat
    /\ (forall i j a b, (i < j)%nat ->
          songs pl !! i = Some a -> songs pl !! j = Some b ->
          match a, b with
          | JObj da, JObj db => py_eq (record_url db) (record_url da) = false
          | JObj _, _ => True
          | _, _ => py_eq a b = false
          end).
Proof.
  eexists _, _. split; [reflexivity|]. split; [reflexivity|].
  assert (H : reachable RefLib.lib
                (add_song RefLib.lib 40
                   (add_song RefLib.lib 30
                      (add_song RefLib.lib 20
                         {| id := "mix"; name := JStr unnamed;
                            songs := [JObj [("url", JStr "a.mp3")]; JStr "b.mp3"];
                            created_at := JNum 5; updated_at := JNum 5;
                            current_playing_index := JNum (-1) |}
                         (JObj [("url", JStr "a.mp3")])).1.2
                      (JObj youtube_record)).1.2
                   (JStr "c.mp3")).1.2).
  { apply reach_add, reach_add, reach_add.
    apply (reach_load RefLib.lib 5 stored_mix); [reflexivity|].
    apply no_repeats_distinct. reflexivity. }
  split; [exact H|]. split; [reflexivity|].
  exact (add_song_no_duplicates RefLib.lib _ H).
Defined.

Lemma add_song_youtube_thumbnail_witness :
  let stored :=
    dict_set youtube_record "thumbnail_url"
      (JStr "https://img.youtube.com/vi/dQw4w9WgXcQ/maxresdefault.jpg") in
  (add_song RefLib.lib 10 empty_playlist (JObj youtube_record)).2 = JObj stored
  /\ dict_get stored "thumbnail_url"
     = Some (JStr "https://img.youtube.com/vi/dQw4w9WgXcQ/maxresdefault.jpg")
  /\ truthy (JStr "https://img.youtube.com/vi/dQw4w9WgXcQ/maxresdefault.jpg") = true
  /\ (has_record_url (songs empty_playlist) (record_url youtube_record) = false ->
      (add_song RefLib.lib 10 empty_playlist (JObj youtube_record)).1.1 = true
      /\ songs (add_song RefLib.lib 10 empty_playlist (JObj youtube_record)).1.2
         = JObj stored :: songs empty_playlist).
Proof.
  apply (add_song_youtube_thumbnail RefLib.lib 10 empty_playlist youtube_record
           watch_url
           {| Song.netloc := "www.youtube.com"; Song.path := "/watch";
              Song.query := "v=dQw4w9WgXcQ" |}
           "v" "dQw4w9WgXcQ" []); try reflexivity.
  discriminate.
Defined.

End PlaylistFacts.

(** ** Reordering *)

Module ReorderFacts.
Import PyFacts Examples.

Lemma forallb_hashable_strings (l : list string) :
  forallb hashable (map JStr l) = true.
Proof. induction l; simpl; auto. Qed.

Lemma py_in_strings (s : string) (l : list string) :
  py_in (JStr s) (map JStr l) = true <-> In s l.
Proof.
  unfold py_in. rewrite existsb_exists. split.
  - intros (x & Hin & Heq). apply in_map_iff in Hin.
    destruct Hin as (t & <- & Hin). simpl in Heq.
    apply String.eqb_eq in Heq. now subst.
  - intros Hin. exists (JStr s). split; [now apply in_map|].
    simpl. apply String.eqb_refl.
Qed.

Lemma forallb_py_in_strings (a b : list string) :
  forallb (fun x => py_in x (map JStr b)) (map JStr a) = true
  <-> (forall s, In s a -> In s b).
Proof.
  rewrite forallb_forall. split.
  - intros H s Hs. apply py_in_strings, H. now apply in_map.
  - intros H x Hx. apply in_map_iff in Hx. destruct Hx as (s & <- & Hs).
    apply py_in_strings. auto.
Qed.

Lemma same_set_strings (a b : list string) :
  Playlist.same_set (map JStr a) (map JStr b) = true
  <-> (forall s, In s a <-> In s b).
Proof.
  unfold Playlist.same_set. rewrite andb_true_iff, !forallb_py_in_strings.
  split.
  - intros [H1 H2] s. split; auto.
  - intros H. split; intros s; apply H.
Qed.

Lemma list_to_set_eq_strings (a b : list string) :
  (list_to_set a : gset string) = list_to_set b <-> (forall s, In s a <-> In s b).
Proof.
  rewrite set_eq. split; intros H s; specialize (H s).
  - rewrite !elem_of_list_to_set in H. now rewrite <- !list_elem_of_In.
  - rewrite !elem_of_list_to_set. now rewrite !list_elem_of_In.
Qed.

(** C6 as stated fails: a list that repeats an element is no
    permutation of the songs, yet it is accepted and becomes the new
    song list. *)
Lemma reorder_songs_accepts_repetition :
  ~ Permutation [JStr "a"; JStr "a"; JStr "b"] (Playlist.songs two_songs)
  /\ Playlist.reorder_songs 10 two_songs [JStr "a"; JStr "a"; JStr "b"]
     = Ok (true, Playlist.set_songs two_songs [JStr "a"; JStr "a"; JStr "b"] 10).
Proof.
  split; [|reflexivity].
  intros H. apply Permutation_length in H. discriminate.
Qed.

(** C6, amended.  On a playlist of bare paths [reorder_songs], and on
    every collection [reorder_playlists], succeeds exactly when the
    supplied list has the same set of elements as the current one, as
    every permutation has; otherwise the call returns false, raises
    nothing and changes neither the object nor the file system. *)
Theorem reorder_same_elements (now : Z) (pl : Playlist.Playlist)
    (old new : list string) (fs : filesystem) (self : Playlists.Playlists)
    (new_order : list string) :
  Playlist.songs pl = map JStr old ->
  ((forall s, In s new <-> In s old) ->
     Playlist.reorder_songs now pl (map JStr new)
     = Ok (true, Playlist.set_songs pl (map JStr new) now))
  /\ (~ (forall s, In s new <-> In s old) ->
     Playlist.reorder_songs now pl (map JStr new) = Ok (false, pl))
  /\ (Permutation new old -> forall s, In s new <-> In s old)
  /\ ((forall s, In s new_order <-> In s (Playlists._order self)) ->
     Playlists.reorder_playlists fs self new_order
     = (true, Playlists.with_order self new_order,
        Playlists.save fs (Playlists.with_order self new_order)))
  /\ (~ (forall s, In s new_order <-> In s (Playlists._order self)) ->
     Playlists.reorder_playlists fs self new_order = (false, self, fs))
  /\ (Permutation new_order (Playlists._order self) ->
     forall s, In s new_order <-> In s (Playlists._order self)).
Proof.
  intros Hsongs.
  assert (Hperm : forall a b : list string,
             Permutation a b -> forall s, In s a <-> In s b).
  { intros a b H s. split; apply Permutation_in; [exact H|now symmetry]. }
  repeat split; try (now apply Hperm).
  - intros Hset. unfold Playlist.reorder_songs.
    rewrite Hsongs, !forallb_hashable_strings. simpl.
    now rewrite (proj2 (same_set_strings new old) Hset).
  - intros Hset. unfold Playlist.reorder_songs.
    rewrite Hsongs, !forallb_hashable_strings. simpl.
    destruct (Playlist.same_set (map JStr new) (map JStr old)) eqn:E; [|reflexivity].
    exfalso. apply Hset. exact (proj1 (same_set_strings new old) E).
  - intros Hset. unfold Playlists.reorder_playlists.
    now rewrite (bool_decide_eq_true_2 _ (proj2 (list_to_set_eq_strings _ _) Hset)).
  - intros Hset. unfold Playlists.reorder_playlists.
    rewrite bool_decide_eq_false_2; [reflexivity|].
    intros H. apply Hset. exact (proj1 (list_to_set_eq_strings _ _) H).
Qed.

Lemma reorder_same_elements_witness :
  Playlist.songs two_songs = map JStr ["a"; "b"]
  /\ Playlist.reorder_songs 10 two_songs (map JStr ["b"; "a"])
     = Ok (true, Playlist.set_songs two_songs (map JStr ["b"; "a"]) 10)
  /\ Playlist.reorder_songs 10 two_songs (map JStr ["a"]) = Ok (false, two_songs)
  /\ Playlists.reorder_playlists collection_fs collection ["p2"]
     = (false, collection, collection_fs).
Proof.
  destruct (reorder_same_elements 10 two_songs ["a"; "b"] ["b"; "a"]
              collection_fs collection ["p2"] eq_refl)
    as (Hyes & _ & _ & _ & Hno & _).
  destruct (reorder_same_elements 10 two_songs ["a"; "b"] ["a"]
              collection_fs collection ["p2"] eq_refl)
    as (_ & Hno' & _).
  split; [reflexivity|]. split; [|split].
  - apply Hyes. intros s. simpl. tauto.
  - apply Hno'. intros H. destruct (H "b") as [_ Hb].
    simpl in Hb. destruct Hb as [Hb|[]]; [auto|discriminate].
  - apply Hno. intros H. destruct (H "p2") as [Hp _].
    simpl in Hp. destruct Hp as [Hp|[]]; [auto|discriminate].
Defined.

(** [reorder_songs] on a playlist that holds a record: building the
    set raises. *)
Lemma reorder_songs_raises_on_records :
  Playlist.reorder_songs 10
    (Playlist.set_songs two_songs [JObj [("url", JStr "a")]] 1)
    [JObj [("url", JStr "a")]] = Raise.
Proof. reflexivity. Qed.

End ReorderFacts.

(** ** Saving *)

Module SaveFacts.
Import Playlists.

Lemma lookup_save fs self :
  save fs self !! data_file self
  = Some (if encodable (stored self) then Parsed (stored self) else Corrupt).
Proof.
  unfold save, write_json.
  destruct (encodable (stored self)); cbn [fst]; apply lookup_insert_eq.
Qed.

Lemma lookup_save_ne fs self p :
  p <> data_file self -> save fs self !! p = fs !! p.
Proof.
  intros Hne. unfold save, write_json.
  destruct (encodable (stored self)); cbn [fst]; apply lookup_insert_ne; congruence.
Qed.

Lemma save_encodable fs self :
  encodable (stored self) = true ->
  save fs self = <[data_file self := Parsed (stored self)]> fs.
Proof. intros He. unfold save, write_json. now rewrite He. Qed.

Lemma save_not_encodable fs self :
  encodable (stored self) = false ->
  save fs self = <[data_file self := Corrupt]> fs.
Proof. intros He. unfold save, write_json. now rewrite He. Qed.

End SaveFacts.

(** ** Removing a song by index *)

Module RemoveFacts.
Import Examples SaveFacts.
Import Playlists.

Lemma playlist_remove_in_range now pl index e :
  0 <= index -> Playlist.songs pl !! Z.to_nat index = Some e ->
  Playlist.remove_song_at_index now pl index
  = (e, Playlist.set_songs pl (delete (Z.to_nat index) (Playlist.songs pl)) now).
Proof.
  intros Hge Hlookup. unfold Playlist.remove_song_at_index.
  pose proof (lookup_lt_Some _ _ _ Hlookup) as Hlt.
  assert (Hin : (0 <=? index) && (index <? Z.of_nat (length (Playlist.songs pl))) = true).
  { apply andb_true_iff. split; [apply Z.leb_le; lia|apply Z.ltb_lt; lia]. }
  rewrite Hin. f_equal. rewrite nth_lookup, Hlookup. reflexivity.
Qed.

(** C10.  With the playlist present and the index in range, the entry
    is taken out of the songs in memory and returned; the collection is
    written to disk only if the entry is truthy (the store file then
    holds the collection, or is cut short where the collection cannot
    be encoded).  For a falsy entry the file system stays as it was,
    and the returned value is falsy like the [None] of a call that
    finds no playlist. *)
Theorem remove_song_at_index_saves_if_truthy (now : Z) (fs : filesystem)
    (self : Playlists) (playlist_id : string) (pl : Playlist.Playlist)
    (index : Z) (e : json) :
  _playlists self !! playlist_id = Some pl ->
  0 <= index ->
  Playlist.songs pl !! Z.to_nat index = Some e ->
  let pl' := Playlist.set_songs pl (delete (Z.to_nat index) (Playlist.songs pl)) now in
  let self' := with_playlists self (<[playlist_id := pl']> (_playlists self)) in
  remove_song_at_index now fs self playlist_id index
  = (e, self', if truthy e then save fs self' else fs)
  /\ _playlists self' !! playlist_id = Some pl'
  /\ length (Playlist.songs pl') = pred (length (Playlist.songs pl))
  /\ (truthy e = true ->
      (remove_song_at_index now fs self playlist_id index).2
        !! data_file self
      = Some (if encodable (stored self') then Parsed (stored self') else Corrupt))
  /\ (truthy e = false ->
      (remove_song_at_index now fs self playlist_id index).2 = fs
      /\ forall other,
           _playlists self !! other = None ->
           (remove_song_at_index now fs self other index).1.1 = JNull
           /\ truthy (remove_song_at_index now fs self other index).1.1
              = truthy (remove_song_at_index now fs self playlist_id index).1.1).
Proof.
  intros Hpl Hge Hlookup. cbv zeta.
  assert (Hrun : remove_song_at_index now fs self playlist_id index
                 = (e,
                    with_playlists self
                      (<[playlist_id :=
                           Playlist.set_songs pl
                             (delete (Z.to_nat index) (Playlist.songs pl)) now]>
                         (_playlists self)),
                    if truthy e
                    then save fs
                           (with_playlists self
                              (<[playlist_id :=
                                   Playlist.set_songs pl
                                     (delete (Z.to_nat index) (Playlist.songs pl)) now]>
                                 (_playlists self)))
                    else fs)).
  { unfold remove_song_at_index.
    now rewrite Hpl, (playlist_remove_in_range now pl index e Hge Hlookup). }
  rewrite Hrun. split; [reflexivity|]. split; [|split; [|split]].
  - simpl. apply lookup_insert_eq.
  - simpl. rewrite length_delete; [lia|]. now rewrite Hlookup.
  - intros Ht. cbn [snd]. rewrite Ht.
    exact (lookup_save fs (with_playlists self _)).
  - intros Hf. simpl. rewrite Hf. split; [reflexivity|].
    intros other Hnone. unfold remove_song_at_index. rewrite Hnone. simpl.
    split; reflexivity.
Qed.

Lemma remove_song_at_index_saves_if_truthy_witness :
  _playlists collection !! "p1" = Some with_empty_path
  /\ Playlist.songs with_empty_path !! Z.to_nat 0 = Some (JStr "")
  /\ (remove_song_at_index 10 collection_fs collection "p1" 0).1.1 = JStr ""
  /\ (remove_song_at_index 10 collection_fs collection "p1" 0).2 = collection_fs
  /\ collection_fs !! store_file = Some (Parsed (stored collection))
  /\ stored (remove_song_at_index 10 collection_fs collection "p1" 0).1.2
     <> stored collection.
Proof.
  assert (H1 : _playlists collection !! "p1" = Some with_empty_path)
    by apply lookup_singleton_eq.
  assert (H2 : Playlist.songs with_empty_path !! Z.to_nat 0 = Some (JStr ""))
    by reflexivity.
  destruct (remove_song_at_index_saves_if_truthy 10 collection_fs collection
              "p1" with_empty_path 0 (JStr "") H1 ltac:(lia) H2)
    as (Hrun & Hmem & _ & _ & Hskip).
  split; [exact H1|]. split; [exact H2|].
  split; [now rewrite Hrun|]. split; [exact (proj1 (Hskip eq_refl))|].
  split; [apply lookup_singleton_eq|].
  rewrite Hrun. cbn [fst snd]. unfold stored, get_all. simpl.
  rewrite lookup_insert_eq. simpl.
  unfold collection. simpl. rewrite lookup_singleton_eq. simpl.
  discriminate.
Defined.

End RemoveFacts.

(** ** Loading a store file *)

Module LoadFacts.
Import PlaylistsSpec Examples.
Import Playlists.

(** *** The order list *)

Lemma filter_filter_absorb {A} (f g : A -> bool) (l : list A) :
  (forall y, f y = true -> g y = true) ->
  List.filter f (List.filter g l) = List.filter f l.
Proof.
  intros H. induction l as [|x l IH]; simpl; [reflexivity|].
  destruct (g x) eqn:Eg; simpl.
  - now rewrite IH.
  - destruct (f x) eqn:Ef; [|exact IH].
    apply H in Ef. congruence.
Qed.

Lemma filter_filter_and {A} (f g : A -> bool) (l : list A) :
  List.filter f (List.filter g l) = List.filter (fun y => g y && f y) l.
Proof.
  induction l as [|x l IH]; simpl; [reflexivity|].
  destruct (g x); simpl; [|exact IH].
  destruct (f x); now rewrite IH.
Qed.

Lemma order_loop_first_occurrences ids : forall order,
  order_loop order ids
  = order ++ List.filter (fun y => negb (bool_decide (y ∈ order)))
                         (first_occurrences ids).
Proof.
  unfold order_loop. induction ids as [|x ids IH]; intros order; simpl.
  - now rewrite app_nil_r.
  - rewrite IH. destruct (bool_decide (x ∈ order)) eqn:E; simpl.
    + f_equal. symmetry. apply filter_filter_absorb.
      intros y Hy. apply negb_true_iff, bool_decide_eq_false in Hy.
      apply bool_decide_eq_true in E.
      apply negb_true_iff, String.eqb_neq. congruence.
    + rewrite <- app_assoc. simpl. f_equal. f_equal.
      rewrite filter_filter_and. apply filter_ext. intros y.
      destruct (String.eqb x y) eqn:Exy; simpl.
      * apply String.eqb_eq in Exy. subst y.
        apply negb_false_iff, bool_decide_eq_true.
        apply elem_of_app. right. now left.
      * apply String.eqb_neq in Exy. f_equal.
        apply bool_decide_ext. rewrite elem_of_app, list_elem_of_singleton.
        split; [|tauto]. intros [H|H]; [exact H|congruence].
Qed.

Lemma order_loop_nil ids : order_loop [] ids = first_occurrences ids.
Proof.
  rewrite order_loop_first_occurrences. simpl.
  induction (first_occurrences ids) as [|x l IH]; simpl; congruence.
Qed.

Lemma in_first_occurrences x ids : In x (first_occurrences ids) <-> In x ids.
Proof.
  induction ids as [|y ids IH]; simpl; [tauto|].
  rewrite filter_In, IH. split.
  - intros [H|[H _]]; auto.
  - intros [H|H]; [now left|].
    destruct (String.eqb y x) eqn:E.
    + apply String.eqb_eq in E. now left.
    + right. split; [exact H|reflexivity].
Qed.

Lemma first_occurrences_NoDup ids : NoDup ids -> first_occurrences ids = ids.
Proof.
  induction 1 as [|x ids Hx Hnd IH]; simpl; [reflexivity|].
  rewrite IH. f_equal.
  rewrite (filter_ext_in (fun y => negb (String.eqb x y)) (fun _ => true)).
  - clear. induction ids as [|y l IHl]; simpl; congruence.
  - intros y Hy. apply negb_true_iff, String.eqb_neq.
    intros ->. apply Hx. now apply list_elem_of_In.
Qed.

(** *** The loop over the stored records *)

Section WithLibrary.
Variable lib : Song.Library.

Lemma hydrate_keeps_id now pl :
  Playlist.id (Playlist._hydrate_stream_thumbnails lib now pl).1 = Playlist.id pl.
Proof.
  unfold Playlist._hydrate_stream_thumbnails.
  now destruct (Playlist.hydrate_songs lib now (Playlist.songs pl)).
Qed.

Lemma from_dict_typed now r :
  typed_record r ->
  exists pl, Playlist.from_dict lib now r = Loaded pl
             /\ Playlist.id pl = record_id now r.
Proof.
  intros (d & -> & Hid & Hsongs). unfold Playlist.from_dict, Playlist.__init__.
  assert (Hs : exists l, (if truthy (dict_get_d d "songs" (JList []))
                          then dict_get_d d "songs" (JList [])
                          else JList []) = JList l).
  { destruct Hsongs as [Hf|[l Hl]].
    - rewrite Hf. eauto.
    - rewrite Hl. destruct (truthy (JList l)); eauto. }
  destruct Hs as [l ->].
  assert (Hi : (if truthy (dict_get_d d "id" JNull)
                then dict_get_d d "id" JNull
                else JStr (str_of_Z now)) = JStr (record_id now (JObj d))).
  { unfold record_id. destruct Hid as [Hf|[s Hs]].
    - rewrite Hf. destruct (dict_get_d d "id" JNull) as [| | |s| |]; try reflexivity.
      simpl in Hf. apply negb_false_iff in Hf. now rewrite Hf.
    - rewrite Hs. simpl. now destruct (String.eqb s ""). }
  rewrite Hi. eexists. split; [reflexivity|]. apply hydrate_keeps_id.
Qed.

Lemma load_loop_typed clock recs : forall i m order changed,
  Forall typed_record recs ->
  exists m' changed',
    load_loop lib clock i recs m order changed
    = Loaded (m', order_loop order (ids_from clock i recs), changed')
    /\ dom m' = dom m ∪ list_to_set (ids_from clock i recs).
Proof.
  induction recs as [|r recs IH]; intros i m order changed Hty; simpl.
  - exists m, changed. split; [reflexivity|]. set_solver.
  - inversion Hty as [|? ? Hr Hrest]; subst.
    destruct (from_dict_typed (clock i) r Hr) as (pl & -> & Hid).
    pose proof (hydrate_keeps_id (clock i) pl) as Hkeep.
    destruct (Playlist._hydrate_stream_thumbnails lib (clock i) pl) as [pl2 c].
    simpl in Hkeep. rewrite Hkeep, Hid.
    destruct (IH (S i) (<[record_id (clock i) r := pl2]> m)
                (if bool_decide (record_id (clock i) r ∈ order) then order
                 else order ++ [record_id (clock i) r])
                (changed || c) Hrest) as (m' & changed' & -> & Hdom).
    exists m', changed'. split; [reflexivity|].
    rewrite Hdom, dom_insert_L. set_solver.
Qed.

End WithLibrary.

End LoadFacts.

(** ** Further properties of the migrator *)

Module MigrateMore.
Import Migrate Keys MigrateSpec PyFacts MigrateFacts MoreSpec Examples.

(** X1.  Any run leaves every file but the main file and its backup
    alone, and never touches a backup that exists.  A run that returns
    false has either written nothing, or met a write that raised: the
    backup it was creating is cut short and the main file is as it was,
    or the main file is cut short behind a backup that is in place. *)
Theorem migrate_frame (fs : filesystem) (p : string) :
  (forall q, q <> p -> q <> backup_path p ->
      (migrate_playback_history fs p).2 !! q = fs !! q)
  /\ (forall found, fs !! backup_path p = Some found ->
      (migrate_playback_history fs p).2 !! backup_path p = Some found)
  /\ ((migrate_playback_history fs p).1 = false ->
      (migrate_playback_history fs p).2 = fs
      \/ (exists data,
            fs !! p = Some (Parsed (JList data))
            /\ fs !! backup_path p = None
            /\ encodable (JList data) = false
            /\ (migrate_playback_history fs p).2 = <[backup_path p := Corrupt]> fs)
      \/ (exists data recs,
            fs !! p = Some (Parsed (JList data))
            /\ migrate_data data = Ok recs
            /\ encodable (JList (map JObj recs)) = false
            /\ (migrate_playback_history fs p).2 !! p = Some Corrupt
            /\ (migrate_playback_history fs p).2 !! backup_path p
               = Some (default (Parsed (JList data)) (fs !! backup_path p)))).
Proof.
  assert (Hne : p <> backup_path p)
    by (intros E; symmetry in E; now apply backup_path_neq in E).
  unfold migrate_playback_history, write_json.
  destruct (fs !! p) as [[j|]|] eqn:Hf; cbn [fst snd]; auto.
  destruct j as [| | | |data|]; cbn [fst snd]; auto.
  destruct (migrate_data data) as [recs|] eqn:Hd; cbn [fst snd]; auto.
  destruct (fs !! backup_path p) as [found|] eqn:Hb; cbn [fst snd].
  - destruct (encodable (JList (map JObj recs))) eqn:He; cbn [fst snd].
    + split; [intros q Hq _; now apply lookup_insert_ne|].
      split; [|discriminate].
      intros found' [= <-]. now rewrite lookup_insert_ne.
    + split; [intros q Hq _; now apply lookup_insert_ne|].
      split; [intros found' [= <-]; now rewrite lookup_insert_ne|].
      intros _. right. right. exists data, recs.
      split; [reflexivity|]. split; [exact Hd|]. split; [exact He|].
      split; [apply lookup_insert_eq|]. now rewrite lookup_insert_ne.
  - destruct (encodable (JList data)) eqn:Hdata; cbn [fst snd].
    + destruct (encodable (JList (map JObj recs))) eqn:He; cbn [fst snd].
      * split; [intros q Hq Hq'; now rewrite !lookup_insert_ne|].
        split; discriminate.
      * split; [intros q Hq Hq'; now rewrite !lookup_insert_ne|].
        split; [discriminate|].
        intros _. right. right. exists data, recs.
        split; [reflexivity|]. split; [exact Hd|]. split; [exact He|].
        split; [apply lookup_insert_eq|].
        rewrite lookup_insert_ne by exact Hne. apply lookup_insert_eq.
    + split; [intros q _ Hq'; now apply lookup_insert_ne|].
      split; [discriminate|].
      intros _. right. left. exists data. now repeat split.
Qed.

Lemma migrate_frame_witness :
  (migrate_playback_history surrogate_fs main_file).1 = false
  /\ (migrate_playback_history surrogate_fs main_file).2
     = <[backup_path main_file := Corrupt]> surrogate_fs
  /\ after 1 !! backup_path main_file = Some (Parsed (JList events))
  /\ (migrate_playback_history (after 1) main_file).2 !! backup_path main_file
     = Some (Parsed (JList events)).
Proof.
  assert (Hf : surrogate_fs !! main_file = Some (Parsed (JList surrogate_events)))
    by apply lookup_singleton_eq.
  assert (Hn : forall fs : filesystem, fs = surrogate_fs \/ fs = fs0 ->
                 fs !! backup_path main_file = None).
  { intros fs [->| ->]; apply lookup_singleton_ne; intros E; symmetry in E;
      now apply backup_path_neq in E. }
  assert (Hrun : migrate_playback_history surrogate_fs main_file
                 = (false, <[backup_path main_file := Corrupt]> surrogate_fs)).
  { unfold migrate_playback_history, write_json.
    rewrite Hf, (Hn surrogate_fs (or_introl eq_refl)). reflexivity. }
  assert (Hb : after 1 !! backup_path main_file = Some (Parsed (JList events))).
  { unfold after. simpl.
    rewrite (migrate_playback_history_ok fs0 main_file events _
               (lookup_singleton_eq _ _) MigrateClaims.migrate_data_events
               eq_refl eq_refl).
    cbn [snd].
    rewrite lookup_insert_ne by (intros E; symmetry in E; now apply backup_path_neq in E).
    rewrite (Hn fs0 (or_intror eq_refl)). apply lookup_insert_eq. }
  split; [now rewrite Hrun|]. split; [now rewrite Hrun|]. split; [exact Hb|].
  exact (proj1 (proj2 (migrate_frame (after 1) main_file)) _ Hb).
Defined.

Lemma agg_step_bad st item : bad_event item -> agg_step st item = Raise.
Proof.
  destruct item as [| | | | |d]; simpl; try reflexivity.
  fold (url_of d). intros [Ht [Hn|Hh]]; rewrite Ht; simpl.
  - unfold py_gt. now rewrite Hn.
  - destruct (py_gt (event_ts d) (JNum 0)); simpl; [|reflexivity].
    now rewrite Hh.
Qed.

Lemma agg_loop_bad data : forall st,
  Exists bad_event data -> agg_loop st data = Raise.
Proof.
  induction data as [|item data IH]; intros st Hex; [inversion Hex|].
  simpl. destruct (agg_step st item) as [st'|] eqn:Hstep; simpl; [|reflexivity].
  inversion Hex as [? ? Hbad|? ? Hrest]; subst.
  - rewrite (agg_step_bad st item Hbad) in Hstep. discriminate.
  - now apply IH.
Qed.

(** X2.  One event that is no dict, or that has a url together with a
    time that is no number, makes the whole run fail: the call returns
    false and writes nothing, whatever the other events are. *)
Theorem migrate_rejects_bad_event (fs : filesystem) (p : string) (data : list json) :
  fs !! p = Some (Parsed (JList data)) ->
  Exists bad_event data ->
  migrate_data data = Raise
  /\ migrate_playback_history fs p = (false, fs).
Proof.
  intros Hf Hbad.
  assert (Hr : migrate_data data = Raise).
  { unfold migrate_data. now rewrite (agg_loop_bad data agg_init Hbad). }
  split; [exact Hr|]. unfold migrate_playback_history. now rewrite Hf, Hr.
Qed.

Lemma migrate_rejects_bad_event_witness :
  migrate_playback_history
    {[ main_file := Parsed (JList [ev "a" 100; JObj [("url", JStr "b"); ("ts", JStr "noon")]]) ]}
    main_file
  = (false,
     {[ main_file := Parsed (JList [ev "a" 100; JObj [("url", JStr "b"); ("ts", JStr "noon")]]) ]}).
Proof.
  apply (migrate_rejects_bad_event _ main_file
           [ev "a" 100; JObj [("url", JStr "b"); ("ts", JStr "noon")]]).
  - apply lookup_singleton_eq.
  - apply Exists_cons_tl, Exists_cons_hd. simpl. split; [reflexivity|now left].
Defined.

Lemma agg_step_skipped st item : skipped_event item -> agg_step st item = Ok st.
Proof.
  destruct item as [| | | | |d]; simpl; try contradiction.
  fold (url_of d). now intros ->.
Qed.

(** X3.  Events without url, or with an empty one, do not count: taking
    one out of the input changes nothing in the outcome. *)
Theorem migrate_data_skips_empty_url (before after : list json) (item : json) :
  skipped_event item ->
  migrate_data (before ++ item :: after) = migrate_data (before ++ after).
Proof.
  intros Hskip. unfold migrate_data. rewrite !agg_loop_app. simpl.
  destruct (agg_loop agg_init before) as [st|]; simpl; [|reflexivity].
  now rewrite (agg_step_skipped st item Hskip).
Qed.

Lemma migrate_data_skips_empty_url_witness :
  migrate_data ([ev "a" 100] ++ JObj [("ts", JNum 5)] :: [ev "a" 200; ev "b" 150])
  = migrate_data events.
Proof.
  apply (migrate_data_skips_empty_url [ev "a" 100] [ev "a" 200; ev "b" 150]
           (JObj [("ts", JNum 5)])).
  reflexivity.
Defined.



Lemma rederive_idempotent r : rederive (rederive r) = rederive r.
Proof.
  assert (Hts : ts_of (rederive r) = ts_of r).
  { unfold ts_of, rederive. now rewrite !dict_get_d_set_ne by discriminate. }
  unfold rederive at 1. rewrite Hts. cbv zeta.
  rewrite (dict_set_same (rederive r) "play_count").
  - apply dict_set_same. unfold rederive. apply dict_get_set_eq.
  - unfold rederive. rewrite dict_get_set_ne by discriminate.
    apply dict_get_set_eq.
Qed.

(** X5.  From the second run on the migrator changes nothing any more:
    a third run on the result of the second returns true and leaves the
    file system exactly as the second run left it. *)
Theorem migrate_stable_after_second_run (fs fs1 fs2 : filesystem) (p : string) :
  migrate_playback_history fs p = (true, fs1) ->
  migrate_playback_history fs1 p = (true, fs2) ->
  migrate_playback_history fs2 p = (true, fs2).
Proof.
  intros H1 H2.
  destruct (migrate_playback_history_true _ _ _ H2)
    as (data1 & recs2 & Hdata1 & Hd2 & Hmain2 & Hbak2 & Henc2).
  destruct (migrate_data_output _ _ Hd2) as (Hok & Hnd & Hs).
  pose proof (migrate_data_again recs2 Hok Hnd Hs) as Hagain.
  destruct (migrate_playback_history_true _ _ _ H1)
    as (data0 & recs1 & _ & Hd1 & Hmain1 & _ & _).
  rewrite Hmain1 in Hdata1. injection Hdata1 as <-.
  destruct (migrate_data_output _ _ Hd1) as (Hok1 & Hnd1 & Hs1).
  rewrite (migrate_data_again recs1 Hok1 Hnd1 Hs1) in Hd2.
  injection Hd2 as <-.
  assert (Hfix : map rederive (map rederive recs1) = map rederive recs1).
  { rewrite map_map. apply map_ext. intros r. apply rederive_idempotent. }
  rewrite Hfix in Hagain.
  rewrite (migrate_playback_history_ok fs2 p _ _ Hmain2 Hagain Henc2 Henc2), Hbak2.
  f_equal. now apply insert_id.
Qed.

Lemma migrate_stable_after_second_run_witness :
  migrate_playback_history fs0 main_file = (true, after 1)
  /\ migrate_playback_history (after 1) main_file = (true, after 2)
  /\ migrate_playback_history (after 2) main_file = (true, after 2).
Proof.
  assert (H1 : migrate_playback_history fs0 main_file = (true, after 1)).
  { unfold after. simpl.
    now rewrite (migrate_playback_history_ok fs0 main_file events _
                   (lookup_singleton_eq _ _) MigrateClaims.migrate_data_events
                   eq_refl eq_refl). }
  assert (H2 : migrate_playback_history (after 1) main_file = (true, after 2)).
  { destruct (migrate_playback_history_true _ _ _ H1)
      as (data & recs & _ & Hd & Hmain & Hbak & Henc).
    destruct (migrate_data_output _ _ Hd) as (Hok & Hnd & Hs).
    change (after 2) with (snd (migrate_playback_history (after 1) main_file)).
    now rewrite (migrate_playback_history_ok (after 1) main_file _ _ Hmain
                   (migrate_data_again recs Hok Hnd Hs) Henc
                   (encodable_map_rederive recs Henc)). }
  split; [exact H1|]. split; [exact H2|].
  exact (migrate_stable_after_second_run fs0 (after 1) (after 2) main_file H1 H2).
Defined.

(** *** The derived fields *)

Lemma kd_get_ckey {V} (m : list (json * V)) k k' :
  hashable k = true -> hashable k' = true -> keys_hashable m ->
  ckey k = ckey k' -> kd_get m k = kd_get m k'.
Proof.
  intros Hk Hk' Hm Heq. induction Hm as [|[k0 v0] m Hk0 Hm IH]; simpl; [reflexivity|].
  simpl in Hk0. rewrite IH.
  destruct (py_eq k0 k) eqn:E1, (py_eq k0 k') eqn:E2; try reflexivity.
  - apply py_eq_true_ckey in E1; auto. apply py_eq_false_ckey in E2; auto. congruence.
  - apply py_eq_true_ckey in E2; auto. apply py_eq_false_ckey in E1; auto. congruence.
Qed.

Lemma kd_get_set {V} (m : list (json * V)) k k' v :
  hashable k = true -> hashable k' = true -> keys_hashable m ->
  kd_get (kd_set m k v) k'
  = if bool_decide (ckey k = ckey k') then Some v else kd_get m k'.
Proof.
  intros Hk Hk' Hm. induction Hm as [|[k0 v0] m Hk0 Hm IH]; simpl.
  - destruct (py_eq k k') eqn:E.
    + apply py_eq_true_ckey in E; auto. now rewrite bool_decide_eq_true_2.
    + apply py_eq_false_ckey in E; auto. now rewrite bool_decide_eq_false_2.
  - simpl in Hk0. destruct (py_eq k0 k) eqn:E1; simpl.
    + apply py_eq_true_ckey in E1; auto.
      destruct (py_eq k0 k') eqn:E2.
      * apply py_eq_true_ckey in E2; auto.
        rewrite bool_decide_eq_true_2; congruence.
      * apply py_eq_false_ckey in E2; auto.
        rewrite bool_decide_eq_false_2; congruence.
    + rewrite IH. apply py_eq_false_ckey in E1; auto.
      destruct (py_eq k0 k') eqn:E2; [|reflexivity].
      apply py_eq_true_ckey in E2; auto.
      rewrite bool_decide_eq_false_2; congruence.
Qed.

Lemma agg_step_times st d st' :
  agg_step st (JObj d) = Ok st' ->
  truthy (url_of d) = true ->
  hashable (url_of d) = true
  /\ py_gt (event_ts d) (JNum 0) = Ok (is_pos (event_ts d))
  /\ url_timestamps st'
     = if is_pos (event_ts d)
       then kd_set (url_timestamps st) (url_of d)
              (default [] (kd_get (url_timestamps st) (url_of d)) ++ [event_ts d])
       else url_timestamps st.
Proof.
  simpl. fold (url_of d). intros Hstep Ht. rewrite Ht in Hstep. simpl in Hstep.
  unfold is_pos.
  destruct (py_gt (event_ts d) (JNum 0)) as [pos|]; simpl in Hstep; [|discriminate].
  destruct (hashable (url_of d)); simpl in Hstep; [|discriminate].
  split; [reflexivity|]. split; [reflexivity|].
  destruct (kd_get (aggregated st) (url_of d)) as [d0|]; simpl in Hstep.
  - destruct (py_gt (event_ts d) (dict_get_d d0 "ts" (JNum 0))); simpl in Hstep;
      [|discriminate].
    now injection Hstep as <-.
  - now injection Hstep as <-.
Qed.

Lemma agg_loop_times data : forall st st' u,
  agg_inv st -> agg_loop st data = Ok st' -> hashable u = true ->
  default [] (kd_get (url_timestamps st') u)
  = default [] (kd_get (url_timestamps st) u) ++ times_of data (ckey u).
Proof.
  induction data as [|item data IH]; intros st st' u Hinv Hloop Hu; simpl in *.
  - injection Hloop as <-. now rewrite app_nil_r.
  - destruct (agg_step st item) as [st1|] eqn:Hstep; simpl in Hloop; [|discriminate].
    pose proof (agg_step_inv _ _ _ Hinv Hstep) as Hinv1.
    rewrite (IH st1 st' u Hinv1 Hloop Hu). rewrite app_assoc. f_equal.
    destruct item as [| | | | |d]; try discriminate.
    destruct (truthy (url_of d)) eqn:Ht.
    + destruct (agg_step_times _ _ _ Hstep Ht) as (Hh & _ & ->).
      simpl. destruct (is_pos (event_ts d)).
      * rewrite kd_get_set; auto; [|apply Hinv].
        destruct (bool_decide (ckey (url_of d) = ckey u)) eqn:E; simpl.
        -- apply bool_decide_eq_true in E. f_equal. f_equal.
           apply kd_get_ckey; auto. apply Hinv.
        -- now rewrite app_nil_r.
      * rewrite andb_false_r. now rewrite app_nil_r.
    + pose proof (agg_step_skipped st (JObj d) Ht) as Hskip.
      rewrite Hskip in Hstep. injection Hstep as <-. simpl.
      now rewrite app_nil_r.
Qed.

Lemma positive_key t : positive t -> num_of t = Some (key_of t) /\ 0 < key_of t.
Proof. intros (z & Hz & Hpos). unfold key_of. rewrite Hz. now split. Qed.

Lemma py_eq_positive a b :
  positive a -> positive b -> py_eq a b = (key_of a =? key_of b).
Proof.
  intros Ha Hb. destruct (positive_key a Ha) as [Hna _].
  destruct (positive_key b Hb) as [Hnb _].
  destruct a, b; simpl in *; try discriminate; unfold key_of; simpl; reflexivity.
Qed.

Lemma In_dedup_keep_first x l : In x (dedup_keep_first l) -> In x l.
Proof.
  revert x. induction l as [|a l IH]; simpl; [tauto|].
  intros x [->|Hin]; [now left|]. right. apply IH.
  apply filter_In in Hin. tauto.
Qed.

Lemma dedup_keep_first_covers l x :
  Forall positive l -> In x l ->
  exists y, In y (dedup_keep_first l) /\ key_of y = key_of x.
Proof.
  induction 1 as [|a l Ha Hl IH]; simpl; [tauto|].
  intros [->|Hin]; [exists x; auto|].
  destruct (IH Hin) as (y & Hy & Hkey).
  destruct (py_eq a y) eqn:E.
  - exists a. split; [now left|].
    rewrite py_eq_positive in E; auto.
    + apply Z.eqb_eq in E. congruence.
    + rewrite Forall_forall in Hl. apply Hl, list_elem_of_In.
      now apply In_dedup_keep_first.
  - exists y. split; [|exact Hkey]. right. apply filter_In. now rewrite E.
Qed.

Lemma dedup_keep_first_NoDup l :
  Forall positive l -> NoDup (map key_of (dedup_keep_first l)).
Proof.
  induction 1 as [|a l Ha Hl IH]; simpl; [constructor|].
  apply NoDup_cons. split.
  - intros Hin. apply list_elem_of_In, in_map_iff in Hin.
    destruct Hin as (y & Hkey & Hy). apply filter_In in Hy.
    destruct Hy as [Hy Hne]. apply negb_true_iff in Hne.
    rewrite py_eq_positive in Hne; auto.
    + apply Z.eqb_neq in Hne. congruence.
    + rewrite Forall_forall in Hl. apply Hl, list_elem_of_In.
      now apply In_dedup_keep_first.
  - clear -IH. induction (dedup_keep_first l) as [|y l' IHl]; simpl; [constructor|].
    simpl in IH. apply NoDup_cons in IH. destruct IH as [Hy Hnd].
    destruct (negb (py_eq a y)); simpl; [|now apply IHl].
    apply NoDup_cons. split; [|now apply IHl].
    intros Hin. apply Hy. apply list_elem_of_In in Hin. apply list_elem_of_In.
    apply in_map_iff in Hin. destruct Hin as (z & Hz & Hin).
    apply in_map_iff. exists z. split; [exact Hz|].
    apply filter_In in Hin. tauto.
Qed.

Lemma insert_asc_perm x l : Permutation (insert_asc x l) (x :: l).
Proof.
  induction l as [|y l IH]; simpl; [reflexivity|].
  destruct (key_of x <=? key_of y); [reflexivity|].
  rewrite IH. apply perm_swap.
Qed.

Lemma sorted_asc_perm l : Permutation (sorted_asc l) l.
Proof.
  induction l as [|x l IH]; simpl; [reflexivity|].
  rewrite insert_asc_perm. now constructor.
Qed.

Lemma insert_asc_sorted x l :
  Sorted (fun a b => key_of a <= key_of b) l ->
  Sorted (fun a b => key_of a <= key_of b) (insert_asc x l).
Proof.
  induction 1 as [|y l Hs IH Hhd]; simpl.
  - repeat constructor.
  - destruct (key_of x <=? key_of y) eqn:E.
    + constructor; [now constructor|]. constructor. lia.
    + constructor; [exact IH|].
      destruct l as [|z l]; simpl.
      * constructor. lia.
      * inversion Hhd; subst.
        destruct (key_of x <=? key_of z); constructor; lia.
Qed.

Lemma sorted_asc_sorted l : Sorted (fun a b => key_of a <= key_of b) (sorted_asc l).
Proof. induction l; simpl; [constructor|]. now apply insert_asc_sorted. Qed.

Lemma last_is_greatest l d x :
  Sorted (fun a b => key_of a <= key_of b) l -> In x l ->
  key_of x <= key_of (List.last l d).
Proof.
  intros Hs. apply Sorted_StronglySorted in Hs; [|intros a b c; lia].
  revert x. induction Hs as [|a l Hl IH Hall]; intros x; [intros []|].
  intros Hin. destruct l as [|b l].
  - destruct Hin as [->|[]]. simpl. lia.
  - change (List.last (a :: b :: l) d) with (List.last (b :: l) d).
    destruct Hin as [->|Hin]; [|now apply IH].
    rewrite Forall_forall in Hall.
    assert (Hab : key_of x <= key_of b) by (apply Hall; now left).
    specialize (IH b (or_introl eq_refl)). lia.
Qed.

(** X6.  In a successful run the record of a url carries what the
    events of that url say: [timestamps] joins their distinct positive
    times in ascending order, [play_count] is the number of these,
    and [ts] and [timestamp] are the last, hence greatest, of them, or 0
    where there is none. *)
Theorem migrate_record_fields (data : list json) (recs : list dict) (r : dict) :
  migrate_data data = Ok recs -> In r recs ->
  exists TS,
    dict_get r "timestamps" = Some (JStr (join "," (map py_str TS)))
    /\ dict_get r "play_count" = Some (JNum (Z.of_nat (length TS)))
    /\ dict_get r "ts" = Some (List.last TS (JNum 0))
    /\ dict_get r "timestamp" = Some (List.last TS (JNum 0))
    /\ Sorted (fun a b => key_of a <= key_of b) TS
    /\ NoDup (map key_of TS)
    /\ (forall t, In t TS -> In t (times_of data (ckey (url_of r))))
    /\ (forall t, In t (times_of data (ckey (url_of r))) ->
        exists t', In t' TS /\ key_of t' = key_of t)
    /\ (forall t, In t (times_of data (ckey (url_of r))) -> key_of t <= sort_key r).
Proof.
  unfold migrate_data.
  destruct (agg_loop agg_init data) as [st|] eqn:Hloop; simpl; [|discriminate].
  intros [= <-] Hin.
  pose proof (agg_loop_inv _ _ _ agg_inv_init Hloop) as Hinv.
  apply (Permutation_in _ (sort_desc_perm _)) in Hin.
  apply in_map_iff in Hin. destruct Hin as ([url item] & <- & Hin).
  destruct Hinv as [Hh Hnd Hu Huh Hp].
  unfold keys_hashable in Hh. rewrite Forall_forall in Hu, Hh.
  apply list_elem_of_In in Hin.
  destruct (Hu _ Hin) as (_ & _ & Hkey). pose proof (Hh _ Hin) as Hhash.
  simpl in Hkey, Hhash.
  assert (Htimes : default [] (kd_get (url_timestamps st) url)
                   = times_of data (ckey (url_of (derive (url_timestamps st) url item)))).
  { rewrite derive_url, Hkey.
    rewrite (agg_loop_times data agg_init st url agg_inv_init Hloop Hhash).
    reflexivity. }
  assert (Hpos : Forall positive (default [] (kd_get (url_timestamps st) url))).
  { destruct (kd_get (url_timestamps st) url) as [l|] eqn:El; simpl; [|constructor].
    apply kd_get_In in El. destruct El as (k & Hk & _).
    rewrite Forall_forall in Hp. apply list_elem_of_In in Hk. exact (Hp _ Hk). }
  rewrite <- Htimes.
  set (T := default [] (kd_get (url_timestamps st) url)) in *.
  exists (sorted_asc (dedup_keep_first T)).
  assert (Hsorted := sorted_asc_sorted (dedup_keep_first T)).
  assert (Hcover : forall t, In t T ->
            exists t', In t' (sorted_asc (dedup_keep_first T)) /\ key_of t' = key_of t).
  { intros t Ht. destruct (dedup_keep_first_covers T t Hpos Ht) as (y & Hy & Hk).
    exists y. split; [|exact Hk].
    apply (Permutation_in _ (Permutation_sym (sorted_asc_perm _))). exact Hy. }
  split; [rewrite derive_unfold; apply dict_get_set_eq|].
  split; [rewrite derive_unfold, dict_get_set_ne by discriminate;
          apply dict_get_set_eq|].
  split; [apply derive_ts|]. split; [apply derive_timestamp|].
  split; [exact Hsorted|]. split.
  { rewrite (Permutation_map key_of (sorted_asc_perm _)).
    now apply dedup_keep_first_NoDup. }
  split.
  { intros t Ht. apply In_dedup_keep_first.
    exact (Permutation_in _ (sorted_asc_perm _) Ht). }
  split; [exact Hcover|].
  intros t Ht. unfold sort_key, dict_get_d. rewrite derive_ts.
  destruct (Hcover t Ht) as (t' & Ht' & <-).
  now apply last_is_greatest.
Qed.

Lemma migrate_record_fields_witness :
  migrate_data events = Ok [record_a; record_b]
  /\ In record_a [record_a; record_b]
  /\ times_of events (ckey (url_of record_a)) = [JNum 100; JNum 200]
  /\ forall t, In t [JNum 100; JNum 200] -> key_of t <= sort_key record_a.
Proof.
  split; [exact MigrateClaims.migrate_data_events|].
  split; [now left|]. split; [reflexivity|].
  destruct (migrate_record_fields events _ record_a
              MigrateClaims.migrate_data_events (or_introl eq_refl))
    as (TS & _ & _ & _ & _ & _ & _ & _ & _ & Hmax).
  exact Hmax.
Defined.

End MigrateMore.


(** ** Songs: serialisation round trips *)

Module SongMore.
Import Strings Song SongOps ModelSpec PyFacts Examples.

Lemma py_or_idem a b : py_or (py_or a b) b = py_or a b.
Proof. unfold py_or. destruct (truthy a) eqn:Ea; [now rewrite Ea|]. now destruct (truthy b). Qed.

(** X7.  A local song survives the round trip through [to_dict] and
    [Song.from_dict]: path, title, duration, file name and extension
    come back as they were, whatever file size was written; only the
    construction time is that of the second construction. *)
Theorem local_song_round_trip (lib : Library) (now0 now : Z)
    (file_path title duration : json) (file_size : Z) (s : LocalSong) :
  LocalSong_init lib now0 file_path title duration = Ok s ->
  Song.from_dict lib now (local_to_dict s file_size)
  = Ok (Local (restamp s (now / 1000))).
Proof.
  destruct file_path as [| | |p| |]; try discriminate.
  intros [= <-]. unfold Song.from_dict, local_to_dict, to_dict, restamp.
  cbn -[py_or]. now rewrite py_or_idem.
Qed.

Lemma local_song_round_trip_witness :
  exists s,
    LocalSong_init RefLib.lib 5000 (JStr "music/song.MP3") JNull (JNum 0) = Ok s
    /\ Song.from_dict RefLib.lib 9000 (local_to_dict s 42)
       = Ok (Local (restamp s 9)).
Proof.
  eexists. split; [reflexivity|].
  exact (local_song_round_trip RefLib.lib 5000 9000 (JStr "music/song.MP3")
           JNull (JNum 0) 42 _ eq_refl).
Defined.

Lemma get_thumbnail_url_empty lib s :
  Song.get_thumbnail_url lib s = Ok "" ->
  py_eq (stream_type s) (JStr "youtube") && negb (String.eqb (video_id s) "") = false.
Proof.
  unfold Song.get_thumbnail_url, is_youtube.
  destruct (py_eq (stream_type s) (JStr "youtube")); [|reflexivity]. simpl.
  destruct (negb (String.eqb (video_id s) "")); [discriminate|reflexivity].
Qed.

(** X8.  A stream song whose type is not ["local"] survives the round
    trip through [to_dict] and [Song.from_dict] in its url, title, type,
    duration and video id.  Its thumbnail does not: the dict carries
    the thumbnail computed from the video id (the empty string where
    there is none), not the one the song was built with, and the song
    read back has that one.  Serialising again changes the time
    only. *)
Theorem stream_song_round_trip (lib : Library) (now0 now : Z)
    (u t ty dur th : json) (d : dict) :
  stream_to_dict lib (StreamSong_init lib now0 u t ty dur th) = Ok d ->
  py_eq ty (JStr "local") = false ->
  exists thumb s',
    Song.get_thumbnail_url lib (StreamSong_init lib now0 u t ty dur th) = Ok thumb
    /\ dict_get d "thumbnail_url" = Some (JStr thumb)
    /\ Song.from_dict lib now d = Ok (Stream s')
    /\ stream_url s' = u /\ stream_type s' = ty
    /\ video_id s' = video_id (StreamSong_init lib now0 u t ty dur th)
    /\ url (stream_base s') = u
    /\ title (stream_base s') = title (stream_base (StreamSong_init lib now0 u t ty dur th))
    /\ type (stream_base s') = ty
    /\ duration (stream_base s') = dur
    /\ timestamp (stream_base s') = now / 1000
    /\ thumbnail_url (stream_base s') = JStr thumb
    /\ stream_to_dict lib s' = Ok (dict_set d "ts" (JNum (now / 1000))).
Proof.
  intros Hd Hty. unfold stream_to_dict in Hd.
  destruct (Song.get_thumbnail_url lib (StreamSong_init lib now0 u t ty dur th))
    as [thumb|] eqn:Eth; simpl in Hd; [|discriminate].
  injection Hd as <-.
  assert (Hthumb :
    (if negb (truthy (JStr thumb)) then
       if py_eq ty (JStr "youtube") && negb (String.eqb (_extract_video_id lib u) "")
       then JStr (_get_hq_thumbnail_url (_extract_video_id lib u))
       else JStr thumb
     else JStr thumb) = JStr thumb).
  { destruct (negb (truthy (JStr thumb))) eqn:Et; [|reflexivity].
    simpl in Et. apply negb_true_iff, negb_false_iff, String.eqb_eq in Et. subst thumb.
    apply get_thumbnail_url_empty in Eth. simpl in Eth. now rewrite Eth. }
  exists thumb, (StreamSong_init lib now u (py_or t (JStr loading_title)) ty dur (JStr thumb)).
  split; [reflexivity|]. split; [reflexivity|].
  split.
  { unfold Song.from_dict, to_dict. cbn -[py_eq py_or StreamSong_init LocalSong_init].
    now rewrite Hty. }
  split; [reflexivity|]. split; [reflexivity|]. split; [reflexivity|].
  split; [reflexivity|]. split; [apply py_or_idem|].
  split; [reflexivity|]. split; [reflexivity|]. split; [reflexivity|].
  split; [exact Hthumb|].
  unfold stream_to_dict.
  change (Song.get_thumbnail_url lib
            (StreamSong_init lib now u (py_or t (JStr loading_title)) ty dur (JStr thumb)))
    with (Song.get_thumbnail_url lib (StreamSong_init lib now0 u t ty dur th)).
  rewrite Eth. simpl. now rewrite py_or_idem.
Qed.

Lemma stream_song_round_trip_witness :
  exists d thumb s',
    stream_to_dict RefLib.lib
      (StreamSong_init RefLib.lib 5000 (JStr watch_url) (JStr "video")
         (JStr "youtube") (JNum 212) (JStr "https://example.org/cover.png")) = Ok d
    /\ py_eq (JStr "youtube") (JStr "local") = false
    /\ thumb = "https://img.youtube.com/vi/dQw4w9WgXcQ/maxresdefault.jpg"
    /\ Song.from_dict RefLib.lib 9000 d = Ok (Stream s')
    /\ thumbnail_url (stream_base s') = JStr thumb.
Proof.
  destruct (stream_song_round_trip RefLib.lib 5000 9000 (JStr watch_url) (JStr "video")
              (JStr "youtube") (JNum 212) (JStr "https://example.org/cover.png")
              _ eq_refl eq_refl)
    as (thumb & s' & Hthumb & _ & Hfrom & _ & _ & _ & _ & _ & _ & _ & _ & Hth & _).
  eexists _, thumb, s'. split; [reflexivity|]. split; [reflexivity|].
  split; [|split; [exact Hfrom|exact Hth]].
  vm_compute in Hthumb. now injection Hthumb as <-.
Defined.

End SongMore.

(** ** Playlist: moving, removing, hydrating, reading back *)

Module PlaylistMore.
Import Keys PyFacts PlaylistSpec ModelSpec Examples.
Import Playlist PlaylistOps.

(** X9.  [reorder] moves one song: when it returns true both indices
    are within the list, the song that was at [from_index] is at
    [to_index], and the other songs keep their order (taking the moved
    song out of the old and of the new list leaves the same list); the
    list has the same songs as before.  When it returns false the
    playlist is unchanged. *)
Theorem reorder_moves (now : Z) (pl : Playlist) (from_index to_index : option Z)
    (moved : bool) (pl' : Playlist) :
  reorder now pl from_index to_index = (moved, pl') ->
  if moved then
    exists i j : nat,
      from_index = Some (Z.of_nat i) /\ to_index = Some (Z.of_nat j)
      /\ (i < length (songs pl))%nat /\ (j < length (songs pl))%nat
      /\ songs pl' !! j = songs pl !! i
      /\ delete j (songs pl') = delete i (songs pl)
      /\ Permutation (songs pl') (songs pl)
      /\ updated_at pl' = JNum now
  else pl' = pl.
Proof.
  unfold reorder.
  destruct from_index as [f|], to_index as [t|]; try (now intros [= <- <-]).
  destruct ((0 <=? f) && (f <? Z.of_nat (length (songs pl)))
            && (0 <=? t) && (t <? Z.of_nat (length (songs pl)))) eqn:E;
    [|now intros [= <- <-]].
  intros [= <- <-].
  apply andb_prop in E as [E Ht2]. apply andb_prop in E as [E Ht1].
  apply andb_prop in E as [Hf1 Hf2].
  apply Z.leb_le in Hf1, Ht1. apply Z.ltb_lt in Hf2, Ht2.
  exists (Z.to_nat f), (Z.to_nat t).
  rewrite !Z2Nat.id by assumption.
  assert (Hi : (Z.to_nat f < length (songs pl))%nat) by lia.
  assert (Hj : (Z.to_nat t < length (songs pl))%nat) by lia.
  destruct (lookup_lt_is_Some_2 _ _ Hi) as [x Hx].
  assert (Hnth : nth (Z.to_nat f) (songs pl) JNull = x).
  { rewrite nth_lookup, Hx. reflexivity. }
  cbn [songs set_songs updated_at]. rewrite Hnth. unfold list_insert_at.
  set (L := delete (Z.to_nat f) (songs pl)).
  assert (HL : length L = (length (songs pl) - 1)%nat).
  { unfold L. rewrite length_delete by eauto. lia. }
  assert (Htake : length (take (Z.to_nat t) L) = Z.to_nat t).
  { rewrite length_take. lia. }
  split; [reflexivity|]. split; [reflexivity|]. split; [exact Hi|].
  split; [exact Hj|]. split.
  { rewrite Hx. now apply list_lookup_middle. }
  split.
  { rewrite <- Htake at 1. rewrite delete_middle. apply take_drop. }
  split; [|reflexivity].
  rewrite <- Permutation_middle, take_drop. unfold L.
  symmetry. now apply delete_Permutation.
Qed.

Lemma reorder_moves_witness :
  reorder 7 two_songs (Some 0) (Some 1) = (true, set_songs two_songs [JStr "b"; JStr "a"] 7)
  /\ exists i j : nat,
      Some 0 = Some (Z.of_nat i) /\ Some 1 = Some (Z.of_nat j)
      /\ (i < length (songs two_songs))%nat /\ (j < length (songs two_songs))%nat
      /\ songs (set_songs two_songs [JStr "b"; JStr "a"] 7) !! j = songs two_songs !! i
      /\ delete j (songs (set_songs two_songs [JStr "b"; JStr "a"] 7))
         = delete i (songs two_songs)
      /\ Permutation (songs (set_songs two_songs [JStr "b"; JStr "a"] 7)) (songs two_songs)
      /\ updated_at (set_songs two_songs [JStr "b"; JStr "a"] 7) = JNum 7.
Proof.
  split; [reflexivity|].
  exact (reorder_moves 7 two_songs (Some 0) (Some 1) true _ eq_refl).
Defined.

Lemma remove_first_split x l :
  py_in x l = true ->
  exists l1 y l2,
    l = l1 ++ y :: l2 /\ py_eq x y = true
    /\ Forall (fun z => py_eq x z = false) l1
    /\ remove_first x l = l1 ++ l2.
Proof.
  induction l as [|y l IH]; simpl; [discriminate|].
  destruct (py_eq x y) eqn:E; simpl.
  - intros _. exists [], y, l. now repeat split.
  - intros Hin. destruct (IH Hin) as (l1 & y' & l2 & -> & Hy & Hl1 & Hrem).
    exists (y :: l1), y', l2. rewrite Hrem. repeat split; auto.
Qed.

(** X10.  [remove_song] takes out one entry, the first that is equal to
    the argument; the entries before and after it stay in place.  It
    returns false, and changes nothing, exactly when no entry is equal
    to the argument. *)
Theorem remove_song_first_occurrence (now : Z) (pl : Playlist) (song_path : json)
    (removed : bool) (pl' : Playlist) :
  remove_song now pl song_path = (removed, pl') ->
  if removed then
    exists l1 y l2,
      songs pl = l1 ++ y :: l2 /\ py_eq song_path y = true
      /\ Forall (fun z => py_eq song_path z = false) l1
      /\ songs pl' = l1 ++ l2
      /\ updated_at pl' = JNum now
  else pl' = pl /\ Forall (fun z => py_eq song_path z = false) (songs pl).
Proof.
  unfold remove_song. destruct (py_in song_path (songs pl)) eqn:E; intros [= <- <-].
  - destruct (remove_first_split _ _ E) as (l1 & y & l2 & Hl & Hy & Hl1 & Hrem).
    exists l1, y, l2. cbn [songs set_songs updated_at]. now repeat split.
  - split; [reflexivity|]. unfold py_in in E.
    induction (songs pl) as [|z l IH]; [constructor|].
    simpl in E. apply orb_false_elim in E as [Hz Hl]. constructor; auto.
Qed.

Lemma remove_song_first_occurrence_witness :
  remove_song 7 two_songs (JStr "b") = (true, set_songs two_songs [JStr "a"] 7)
  /\ exists l1 y l2,
      songs two_songs = l1 ++ y :: l2 /\ py_eq (JStr "b") y = true
      /\ Forall (fun z => py_eq (JStr "b") z = false) l1
      /\ songs (set_songs two_songs [JStr "a"] 7) = l1 ++ l2
      /\ updated_at (set_songs two_songs [JStr "a"] 7) = JNum 7.
Proof.
  split; [reflexivity|].
  exact (remove_song_first_occurrence 7 two_songs (JStr "b") true _ eq_refl).
Defined.

Lemma remove_first_records p l :
  List.filter is_record (remove_first (JStr p) l) = List.filter is_record l.
Proof.
  induction l as [|y l IH]; [reflexivity|].
  cbn [remove_first]. destruct (py_eq (JStr p) y) eqn:E.
  - destruct y; try discriminate; reflexivity.
  - simpl. now rewrite IH.
Qed.

(** X11.  [remove_song] called with a path never removes a record: a
    song that was added as a dict stays in the playlist whatever path
    is given, its own url included. *)
Theorem remove_song_keeps_records (now : Z) (pl : Playlist) (p : string) :
  List.filter is_record (songs (remove_song now pl (JStr p)).2)
  = List.filter is_record (songs pl).
Proof.
  unfold remove_song. destruct (py_in (JStr p) (songs pl)); [|reflexivity].
  cbn [snd songs set_songs]. apply remove_first_records.
Qed.

Section WithLibrary.
Variable lib : Song.Library.

(** X12.  A song that [add_song] has just added is at index 0:
    removing it there returns the entry as it was stored and gives
    back the former list of songs. *)
Theorem add_then_remove_at_front (now now' : Z) (pl pl' : Playlist) (arg arg' : json) :
  add_song lib now pl arg = (true, pl', arg') ->
  remove_song_at_index now' pl' 0 = (arg', set_songs pl (songs pl) now').
Proof.
  intros Hadd.
  assert (Hpl : pl' = set_songs pl (arg' :: songs pl) now).
  { unfold add_song in Hadd. destruct arg as [| | | | |item];
      match type of Hadd with
      | (if ?c then _ else _) = _ => destruct c; [discriminate|]
      end; now injection Hadd as <- <-. }
  subst pl'. reflexivity.
Qed.

Lemma stream_thumbnail_clock now now' item :
  stream_thumbnail lib now item = stream_thumbnail lib now' item.
Proof. reflexivity. Qed.

Lemma dict_get_d_set_eq d k v dflt : dict_get_d (dict_set d k v) k dflt = v.
Proof. unfold dict_get_d. now rewrite dict_get_set_eq. Qed.

Lemma lacks_thumbnail_set item thumb :
  thumb <> "" -> lacks_thumbnail (dict_set item "thumbnail_url" (JStr thumb)) = false.
Proof.
  intros Hne. unfold lacks_thumbnail. rewrite dict_get_d_set_eq. simpl.
  apply String.eqb_neq in Hne. rewrite Hne. apply andb_false_r.
Qed.

Lemma hydrate_item_idempotent now now' item :
  hydrate_item lib now' (hydrate_item lib now item).1
  = ((hydrate_item lib now item).1, false).
Proof.
  assert (Hsame : forall it,
            it = item -> lacks_thumbnail item = false
            \/ stream_thumbnail lib now item = Ok ""
            \/ stream_thumbnail lib now item = Raise ->
            hydrate_item lib now' it = (it, false)).
  { intros it -> Hcase. unfold hydrate_item.
    destruct (lacks_thumbnail item); [|reflexivity].
    rewrite (stream_thumbnail_clock now' now).
    destruct Hcase as [Hl|[Ht|Ht]]; [discriminate| |]; now rewrite Ht. }
  unfold hydrate_item at 2 3.
  destruct (lacks_thumbnail item) eqn:El; [|apply Hsame; auto].
  destruct (stream_thumbnail lib now item) as [thumb|] eqn:Et; [|apply Hsame; auto].
  destruct (String.eqb thumb "") eqn:Ee; cbn [negb fst].
  - apply String.eqb_eq in Ee. subst thumb. apply Hsame; auto.
  - unfold hydrate_item. rewrite lacks_thumbnail_set; [reflexivity|].
    now apply String.eqb_neq.
Qed.

Lemma hydrate_songs_twice now now' l :
  hydrate_songs lib now' (hydrate_songs lib now l).1
  = ((hydrate_songs lib now l).1, false).
Proof.
  induction l as [|e l IH]; [reflexivity|].
  destruct e as [| | | | |item]; simpl;
    destruct (hydrate_songs lib now l) as [l1 c1]; simpl in *;
    try (now rewrite IH).
  pose proof (hydrate_item_idempotent now now' item) as Hitem.
  destruct (hydrate_item lib now item) as [item1 c]. simpl in *.
  now rewrite Hitem, IH.
Qed.

(** X13.  Completing thumbnails is idempotent: on the songs of a
    playlist that has been through [_hydrate_stream_thumbnails] a
    second pass, at any later time, changes nothing (neither the songs
    nor [updated_at]) and reports no change. *)
Theorem hydrate_songs_idempotent (now now' : Z) (pl : Playlist) :
  _hydrate_stream_thumbnails lib now'
    (_hydrate_stream_thumbnails lib now pl).1
  = ((_hydrate_stream_thumbnails lib now pl).1, false).
Proof.
  unfold _hydrate_stream_thumbnails at 2 3.
  pose proof (hydrate_songs_twice now now' (songs pl)) as Htwice.
  destruct (hydrate_songs lib now (songs pl)) as [l c]. cbn [fst] in *.
  unfold _hydrate_stream_thumbnails. cbn [songs]. now rewrite Htwice.
Qed.

Lemma hydrate_songs_unchanged now l :
  (hydrate_songs lib now l).2 = false -> (hydrate_songs lib now l).1 = l.
Proof.
  induction l as [|e l IH]; [reflexivity|].
  destruct e as [| | | | |item]; simpl;
    destruct (hydrate_songs lib now l) as [l1 c1]; simpl in *;
    try (intros Hc; now rewrite IH).
  unfold hydrate_item.
  destruct (lacks_thumbnail item); [|simpl; intros Hc; now rewrite IH].
  destruct (stream_thumbnail lib now item) as [thumb|];
    [|simpl; intros Hc; now rewrite IH].
  destruct (negb (String.eqb thumb "")); simpl; [discriminate|].
  intros Hc; now rewrite IH.
Qed.

Lemma hydrate_settled now pl :
  (forall t, (hydrate_songs lib t (songs pl)).2 = false) ->
  _hydrate_stream_thumbnails lib now pl = (pl, false).
Proof.
  intros Hs. unfold _hydrate_stream_thumbnails.
  pose proof (hydrate_songs_unchanged now (songs pl) (Hs now)) as Hl.
  specialize (Hs now).
  destruct (hydrate_songs lib now (songs pl)) as [l c]. simpl in *. subst.
  now destruct pl.
Qed.

Lemma playlist_reads_back now pl :
  settled lib pl -> from_dict lib now (JObj (to_dict pl)) = Loaded pl.
Proof.
  intros (Hid & Hc & Hu & Hs). unfold from_dict, to_dict, __init__.
  cbn -[truthy _hydrate_stream_thumbnails py_or].
  apply String.eqb_neq in Hid.
  replace (truthy (JStr (id pl))) with true by (simpl; now rewrite Hid).
  replace (if truthy (JList (songs pl)) then JList (songs pl) else JList [])
    with (JList (songs pl)) by (now destruct (songs pl)).
  unfold py_or. rewrite Hc, Hu.
  f_equal.
  replace {| id := id pl; name := name pl; songs := songs pl;
             created_at := created_at pl; updated_at := updated_at pl;
             current_playing_index := current_playing_index pl |}
    with pl by (now destruct pl).
  now rewrite hydrate_settled.
Qed.

(** X14.  A playlist reads back from its own record: for a playlist
    with an id, with both times set and with its thumbnails completed,
    [from_dict (to_dict pl)] is the playlist itself, whenever it is
    read. *)
Theorem playlist_round_trip (now : Z) (pl : Playlist) :
  settled lib pl -> from_dict lib now (JObj (to_dict pl)) = Loaded pl.
Proof.
  intros (Hid & Hc & Hu & Hs). unfold from_dict, to_dict, __init__.
  cbn -[truthy _hydrate_stream_thumbnails py_or].
  apply String.eqb_neq in Hid.
  replace (truthy (JStr (id pl))) with true by (simpl; now rewrite Hid).
  replace (if truthy (JList (songs pl)) then JList (songs pl) else JList [])
    with (JList (songs pl)) by (now destruct (songs pl)).
  unfold py_or. rewrite Hc, Hu. rewrite hydrate_settled by exact Hs.
  now destruct pl.
Qed.

Lemma add_song_settled now pl arg pl' arg' :
  settled lib pl -> now <> 0 ->
  add_song lib now pl arg = (true, pl', arg') ->
  settled lib pl' /\ id pl' = id pl.
Proof.
  intros (Hid & Hc & Hu & Hs) Hnow Hadd.
  assert (Hpl : pl' = set_songs pl (arg' :: songs pl) now
                /\ forall t, (hydrate_songs lib t [arg']).2 = false).
  { unfold add_song in Hadd. destruct arg as [| | | | |item];
      match type of Hadd with
      | (if ?c then _ else _) = _ => destruct c; [discriminate|]
      end; injection Hadd as <- <-; (split; [reflexivity|]); intros t;
      try reflexivity.
    cbn [hydrate_songs]. rewrite hydrate_item_idempotent. reflexivity. }
  destruct Hpl as [-> Harg]. split; [|reflexivity].
  split; [exact Hid|]. split; [exact Hc|]. split.
  - cbn [set_songs updated_at truthy]. apply negb_true_iff. now apply Z.eqb_neq.
  - intros t. cbn [set_songs songs]. specialize (Hs t). specialize (Harg t).
    destruct arg' as [| | | | |item1]; cbn [hydrate_songs] in *;
      destruct (hydrate_songs lib t (songs pl)) as [rest crest]; simpl in *;
      try exact Hs.
    destruct (hydrate_item lib t item1) as [item2 c2]. simpl in *.
    rewrite Hs. exact Harg.
Qed.


(** Every playlist the constructor builds has its thumbnails
    completed. *)
Lemma init_hydrated now a b c d e f pl :
  __init__ lib now a b c d e f = Loaded pl ->
  forall t, (hydrate_songs lib t (songs pl)).2 = false.
Proof.
  unfold __init__.
  destruct (if truthy a then a else JStr (str_of_Z now)) as [| | |i| |];
    try discriminate.
  destruct (if truthy c then c else JList []) as [| | | |l|]; try discriminate.
  intros [= <-] t. unfold _hydrate_stream_thumbnails. cbn [songs].
  pose proof (hydrate_songs_twice now t l) as Hid.
  destruct (hydrate_songs lib now l) as [l1 c1]. cbn [fst songs] in *.
  now rewrite Hid.
Qed.

End WithLibrary.

Lemma add_then_remove_at_front_witness :
  add_song RefLib.lib 7 two_songs (JStr "c")
  = (true, set_songs two_songs [JStr "c"; JStr "a"; JStr "b"] 7, JStr "c")
  /\ remove_song_at_index 9 (set_songs two_songs [JStr "c"; JStr "a"; JStr "b"] 7) 0
     = (JStr "c", set_songs two_songs (songs two_songs) 9).
Proof.
  split; [reflexivity|].
  exact (add_then_remove_at_front RefLib.lib 7 9 two_songs _ (JStr "c") _ eq_refl).
Defined.

Lemma two_songs_settled : settled RefLib.lib two_songs.
Proof. repeat split; discriminate. Qed.

Lemma playlist_round_trip_witness :
  settled RefLib.lib two_songs
  /\ from_dict RefLib.lib 9 (JObj (to_dict two_songs)) = Loaded two_songs.
Proof.
  split; [exact two_songs_settled|].
  exact (playlist_round_trip RefLib.lib 9 two_songs two_songs_settled).
Defined.

End PlaylistMore.

(** ** The collection: loading, saving and the other operations *)

Module PlaylistsMore.
Import PyFacts ModelSpec PlaylistsSpec Examples SaveFacts.
Import Playlists PlaylistsOps.

Lemma in_step_save fs self : in_step (save fs self) self.
Proof.
  unfold in_step, synced. rewrite lookup_save.
  destruct (encodable (stored self)); [now left|now right].
Qed.

Lemma only_default_encodable f now : encodable (stored (only_default f now)) = true.
Proof.
  unfold stored, get_all, only_default. cbn [_order _playlists omap list_omap].
  rewrite lookup_singleton_eq. reflexivity.
Qed.

Lemma with_playlists_same self k pl :
  _playlists self !! k = Some pl ->
  with_playlists self (<[k := pl]> (_playlists self)) = self.
Proof.
  intros Hk. unfold with_playlists. rewrite insert_id by exact Hk. now destruct self.
Qed.

Lemma order_of_strings (o : list string) : order_of (map JStr o) = Some o.
Proof. induction o as [|s o IH]; simpl; [reflexivity|]. now rewrite IH. Qed.

Lemma split_store_stored self :
  split_store (stored self)
  = Loaded (_order self,
            map (fun pl => JObj (Playlist.to_dict pl)) (get_all self)).
Proof.
  unfold split_store, stored. cbn -[order_of]. now rewrite order_of_strings.
Qed.

Section WithLibrary.
Variable lib : Song.Library.

Lemma init_default now :
  Playlist.__init__ lib now (JStr DEFAULT_PLAYLIST_ID) (JStr default_name)
    JNull JNull JNull (JNum (-1)) = Loaded (new_default now).
Proof. reflexivity. Qed.

Lemma init_created now name :
  Playlist.__init__ lib now JNull name JNull JNull JNull (JNum (-1))
  = Loaded (created now name).
Proof. reflexivity. Qed.

Lemma from_dict_hydrated now data pl t :
  Playlist.from_dict lib now data = Loaded pl ->
  Playlist._hydrate_stream_thumbnails lib t pl = (pl, false).
Proof.
  destruct data as [| | | | |d]; try discriminate. unfold Playlist.from_dict.
  intros Hinit. apply PlaylistMore.hydrate_settled.
  exact (PlaylistMore.init_hydrated lib _ _ _ _ _ _ _ _ Hinit).
Qed.

Lemma load_loop_flag clock recs : forall i m order c m' order' c',
  load_loop lib clock i recs m order c = Loaded (m', order', c') -> c' = c.
Proof.
  induction recs as [|r recs IH]; intros i m order c m' order' c'; simpl.
  - now intros [= _ _ <-].
  - destruct (Playlist.from_dict lib (clock i) r) as [pl| |] eqn:Efrom;
      try discriminate.
    rewrite (from_dict_hydrated _ _ _ (clock i) Efrom).
    intros Hloop. apply IH in Hloop. rewrite Hloop. apply orb_false_r.
Qed.

Lemma load_file_no_write clock fs self self' fs' :
  load_file lib clock fs self = Some (self', fs') -> fs' = fs.
Proof.
  unfold load_file.
  destruct (fs !! data_file self) as [[data|]|]; try (now intros [= _ <-]).
  destruct (split_store data) as [[order recs]| |]; try (now intros [= _ <-]).
  destruct (load_loop lib clock 0 recs (_playlists self) order false)
    as [[[m order'] c]| |] eqn:Eloop; try (now intros [= _ <-]).
  apply load_loop_flag in Eloop. subst c. now intros [= _ <-].
Qed.

(** X15.  [load] writes the store file in one case only: when it had to
    create the default playlist.  The second pass over the thumbnails
    (line 283) never reports a change, the constructor having completed
    them, so the save of line 290 is never reached. *)
Theorem load_writes_only_new_default (clock : nat -> Z) (now : Z)
    (fs fs' : filesystem) (self self' : Playlists) :
  load lib clock now fs self = Some (self', fs') ->
  fs' = fs
  \/ (fs' = save fs self'
      /\ _playlists self' !! DEFAULT_PLAYLIST_ID = Some (new_default now)).
Proof.
  unfold load.
  destruct (load_file lib clock fs self) as [[self1 fs1]|] eqn:Efile; [|discriminate].
  apply load_file_no_write in Efile. subst fs1.
  unfold ensure_default.
  destruct (_playlists self1 !! DEFAULT_PLAYLIST_ID); [intros [= <- <-]; now left|].
  rewrite init_default. intros [= <- <-]. right.
  split; [reflexivity|]. cbn [_playlists]. apply lookup_insert_eq.
Qed.

Lemma load_unreadable clock now fs self :
  fs !! data_file self = None
  \/ fs !! data_file self = Some Corrupt
  \/ (exists data order x rest,
        fs !! data_file self = Some (Parsed data)
        /\ split_store data = Loaded (order, x :: rest)
        /\ is_record x = false) ->
  load lib clock now fs self
  = Some (only_default (data_file self) now,
          save fs (only_default (data_file self) now)).
Proof.
  intros Hcase.
  assert (Hfile : load_file lib clock fs self
                  = Some ({| data_file := data_file self;
                             _playlists := ∅; _order := [] |}, fs)).
  { unfold load_file.
    destruct Hcase as [->|[->|(data & order & x & rest & -> & -> & Hx)]];
      try reflexivity.
    cbn [load_loop]. destruct x; try discriminate; reflexivity. }
  unfold load. rewrite Hfile. unfold ensure_default. cbn [_playlists _order data_file].
  rewrite lookup_empty, init_default, insert_empty.
  rewrite bool_decide_eq_false_2 by apply not_elem_of_nil. reflexivity.
Qed.

(** X16.  A store file that is missing, that is not JSON, or whose
    first playlist record is not an object, leaves nothing of what was
    stored or held in memory: after [load] the collection is the new,
    empty default playlist alone, and the store file has been
    overwritten with it. *)
Theorem load_resets_unreadable_store (clock : nat -> Z) (now : Z)
    (fs : filesystem) (self : Playlists) :
  fs !! data_file self = None
  \/ fs !! data_file self = Some Corrupt
  \/ (exists data order x rest,
        fs !! data_file self = Some (Parsed data)
        /\ split_store data = Loaded (order, x :: rest)
        /\ is_record x = false) ->
  exists self' fs',
    load lib clock now fs self = Some (self', fs')
    /\ get_all self' = [new_default now]
    /\ _playlists self' = {[ DEFAULT_PLAYLIST_ID := new_default now ]}
    /\ fs' !! data_file self = Some (Parsed (stored self'))
    /\ stored self'
       = JObj [ ("order", JList [JStr DEFAULT_PLAYLIST_ID]);
                ("playlists", JList [JObj (Playlist.to_dict (new_default now))]) ].
Proof.
  intros Hcase. eexists _, _. split; [exact (load_unreadable clock now fs self Hcase)|].
  assert (Hall : get_all (only_default (data_file self) now) = [new_default now]).
  { unfold get_all, only_default. cbn [_order _playlists omap list_omap].
    now rewrite lookup_singleton_eq. }
  split; [exact Hall|]. split; [reflexivity|].
  split.
  { etransitivity; [exact (lookup_save fs (only_default (data_file self) now))|].
    now rewrite only_default_encodable. }
  unfold stored. now rewrite Hall.
Qed.

Lemma load_loop_filed clock recs : forall i m order c m' order' c',
  filed m order ->
  load_loop lib clock i recs m order c = Loaded (m', order', c') ->
  filed m' order'.
Proof.
  induction recs as [|r recs IH]; intros i m order c m' order' c' Hf; simpl.
  - now intros [= <- <- _].
  - destruct (Playlist.from_dict lib (clock i) r) as [pl| |] eqn:Efrom;
      try discriminate.
    rewrite (from_dict_hydrated _ _ _ (clock i) Efrom).
    apply IH. intros k p Hk.
    assert (Hgrow : forall x, x ∈ order ->
              x ∈ (if bool_decide (Playlist.id pl ∈ order) then order
                   else order ++ [Playlist.id pl])).
    { intros x Hx. destruct (bool_decide (Playlist.id pl ∈ order)); [exact Hx|].
      apply elem_of_app. now left. }
    apply lookup_insert_Some in Hk as [[<- <-]|[Hne Hk]].
    + split; [reflexivity|].
      destruct (bool_decide (Playlist.id pl ∈ order)) eqn:Eb.
      * now apply bool_decide_eq_true in Eb.
      * apply elem_of_app. right. now apply list_elem_of_singleton.
    + destruct (Hf k p Hk) as [Hid Hin]. split; [exact Hid|now apply Hgrow].
Qed.

Lemma filed_get_all self k pl :
  k ∈ _order self -> _playlists self !! k = Some pl -> pl ∈ get_all self.
Proof. intros Hin Hk. unfold get_all. apply list_elem_of_omap. eauto. Qed.

(** X17.  A collection that has just been constructed lists all it
    holds: the default playlist is there, every playlist is filed
    under its own id, and every id is in the display order, so that
    [get_all] shows every playlist. *)
Theorem init_lists_every_playlist (clock : nat -> Z) (now : Z) (fs fs' : filesystem)
    (f : string) (self : Playlists) :
  Playlists.__init__ lib clock now fs f = Some (self, fs') ->
  data_file self = f
  /\ is_Some (_playlists self !! DEFAULT_PLAYLIST_ID)
  /\ forall k pl, _playlists self !! k = Some pl ->
       Playlist.id pl = k /\ k ∈ _order self /\ pl ∈ get_all self.
Proof.
  unfold Playlists.__init__, load.
  destruct (load_file lib clock fs {| data_file := f; _playlists := ∅; _order := [] |})
    as [[self1 fs1]|] eqn:Efile; [|discriminate].
  assert (H1 : data_file self1 = f /\ filed (_playlists self1) (_order self1)).
  { unfold load_file in Efile. cbn [data_file _playlists] in Efile.
    assert (Hempty : filed (∅ : gmap string Playlist.Playlist) []).
    { intros k pl Hk. now rewrite lookup_empty in Hk. }
    destruct (fs !! f) as [[data|]|]; try (injection Efile as <- _; now split).
    destruct (split_store data) as [[order recs]| |];
      try (injection Efile as <- _; now split); [|discriminate].
    destruct (load_loop lib clock 0 recs ∅ order false) as [[[m order'] c]| |] eqn:Eloop;
      try (injection Efile as <- _; now split); [|discriminate].
    injection Efile as <- _. split; [reflexivity|]. cbn [_playlists _order].
    eapply load_loop_filed; [|exact Eloop].
    intros k pl Hk. now rewrite lookup_empty in Hk. }
  destruct H1 as [Hfile Hfiled].
  unfold ensure_default.
  destruct (_playlists self1 !! DEFAULT_PLAYLIST_ID) as [dpl|] eqn:Ed.
  - intros [= <- _]. split; [exact Hfile|]. split; [rewrite Ed; eauto|].
    intros k pl Hk. destruct (Hfiled k pl Hk) as [Hid Hin].
    split; [exact Hid|]. split; [exact Hin|]. now apply (filed_get_all _ k).
  - rewrite init_default. intros [= <- _]. cbn [data_file _playlists _order].
    split; [exact Hfile|]. split; [rewrite lookup_insert_eq; eauto|].
    intros k pl Hk.
    assert (Hgoal : Playlist.id pl = k
              /\ k ∈ (if bool_decide (DEFAULT_PLAYLIST_ID ∈ _order self1)
                       then _order self1 else DEFAULT_PLAYLIST_ID :: _order self1)).
    { apply lookup_insert_Some in Hk as [[<- <-]|[Hne Hk]].
      - split; [reflexivity|].
        destruct (bool_decide (DEFAULT_PLAYLIST_ID ∈ _order self1)) eqn:Eb.
        + now apply bool_decide_eq_true in Eb.
        + apply elem_of_cons. now left.
      - destruct (Hfiled k pl Hk) as [Hid Hin]. split; [exact Hid|].
        destruct (bool_decide (DEFAULT_PLAYLIST_ID ∈ _order self1)); [exact Hin|].
        apply elem_of_cons. now right. }
    destruct Hgoal as [Hid Hin]. split; [exact Hid|]. split; [exact Hin|].
    unfold get_all. cbn [_order _playlists]. apply list_elem_of_omap. eauto.
Qed.

(** *** Reading back what was saved *)

Lemma load_loop_saved clock pls : forall i m order,
  Forall (fun pl => settled lib pl /\ Playlist.id pl ∈ order) pls ->
  load_loop lib clock i (map (fun pl => JObj (Playlist.to_dict pl)) pls) m order false
  = Loaded (foldl (fun m pl => <[Playlist.id pl := pl]> m) m pls, order, false).
Proof.
  induction pls as [|pl pls IH]; intros i m order Hall; [reflexivity|].
  inversion Hall as [|? ? [Hs Hin] Hrest]; subst.
  cbn [map load_loop foldl].
  rewrite (PlaylistMore.playlist_reads_back lib (clock i) pl Hs).
  destruct Hs as (_ & _ & _ & Hh).
  rewrite (PlaylistMore.hydrate_settled lib (clock i) pl Hh).
  rewrite (bool_decide_eq_true_2 _ Hin). cbn [orb]. now apply IH.
Qed.

Lemma foldl_insert_keeps (pls : list Playlist.Playlist) :
  forall (m : gmap string Playlist.Playlist) k,
  is_Some (m !! k) ->
  is_Some (foldl (fun m pl => <[Playlist.id pl := pl]> m) m pls !! k).
Proof.
  induction pls as [|p pls IH]; intros m k Hk; [exact Hk|].
  cbn [foldl]. apply IH.
  destruct (decide (Playlist.id p = k)) as [<-|Hne].
  - rewrite lookup_insert_eq. eauto.
  - now rewrite lookup_insert_ne.
Qed.

Lemma foldl_insert_within (m0 : gmap string Playlist.Playlist) pls :
  forall m : gmap string Playlist.Playlist,
  (forall k v, m !! k = Some v -> m0 !! k = Some v) ->
  Forall (fun pl => m0 !! Playlist.id pl = Some pl) pls ->
  forall k v, foldl (fun m pl => <[Playlist.id pl := pl]> m) m pls !! k = Some v ->
              m0 !! k = Some v.
Proof.
  induction pls as [|p pls IH]; intros m Hm Hall; [exact Hm|].
  inversion Hall as [|? ? Hp Hrest]; subst. cbn [foldl]. apply IH; [|exact Hrest].
  intros k v Hk. apply lookup_insert_Some in Hk as [[<- <-]|[_ Hk]]; auto.
Qed.

Lemma foldl_insert_get_all self :
  filed (_playlists self) (_order self) ->
  foldl (fun m pl => <[Playlist.id pl := pl]> m) ∅ (get_all self) = _playlists self.
Proof.
  intros Hf.
  assert (Hall : Forall (fun pl => _playlists self !! Playlist.id pl = Some pl)
                   (get_all self)).
  { apply Forall_forall. intros pl Hpl. apply list_elem_of_omap in Hpl.
    destruct Hpl as (k & _ & Hk). destruct (Hf k pl Hk) as [-> _]. exact Hk. }
  assert (Hwithin := foldl_insert_within (_playlists self) (get_all self) ∅
                       (fun k v H => ltac:(now rewrite lookup_empty in H)) Hall).
  apply map_eq. intros k.
  destruct (_playlists self !! k) as [pl|] eqn:Ek.
  - destruct (Hf k pl Ek) as [Hid Hin].
    assert (Hpl : pl ∈ get_all self) by now apply (filed_get_all _ k).
    assert (Hsome : is_Some (foldl (fun m pl => <[Playlist.id pl := pl]> m)
                               (∅ : gmap string Playlist.Playlist)
                               (get_all self) !! k)).
    { clear -Hpl Hid. revert Hpl. generalize (∅ : gmap string Playlist.Playlist).
      induction (get_all self) as [|p pls IH]; intros m Hpl;
        [now apply elem_of_nil in Hpl|].
      cbn [foldl]. apply elem_of_cons in Hpl as [<-|Hpl]; [|now apply IH].
      apply foldl_insert_keeps. rewrite Hid, lookup_insert_eq. eauto. }
    destruct Hsome as [v Hv]. rewrite Hv. apply Hwithin in Hv. congruence.
  - destruct (foldl (fun m pl => <[Playlist.id pl := pl]> m)
                (∅ : gmap string Playlist.Playlist) (get_all self) !! k)
      as [v|] eqn:Ev; [|reflexivity].
    apply Hwithin in Ev. congruence.
Qed.

Lemma load_file_saved clock fs self :
  well_formed lib self ->
  encodable (stored self) = true ->
  load_file lib clock (save fs self)
    {| data_file := data_file self; _playlists := ∅; _order := [] |}
  = Some (self, save fs self).
Proof.
  intros Hwf Henc. unfold load_file. cbn [data_file _playlists].
  rewrite lookup_save, Henc, split_store_stored.
  rewrite load_loop_saved.
  - rewrite foldl_insert_get_all.
    + now destruct self.
    + intros k pl Hk. destruct (Hwf k pl Hk) as (Hid & Hin & _). now split.
  - apply Forall_forall. intros pl Hpl. apply list_elem_of_omap in Hpl.
    destruct Hpl as (k & _ & Hk). destruct (Hwf k pl Hk) as (Hid & Hin & Hs).
    split; [exact Hs|]. now rewrite Hid.
Qed.

Lemma init_after_save clock now fs self :
  well_formed lib self ->
  Playlists.__init__ lib clock now (save fs self) (data_file self)
  = if encodable (stored self)
    then Some (ensure_default lib now self (save fs self))
    else Some (only_default (data_file self) now,
               save (save fs self) (only_default (data_file self) now)).
Proof.
  intros Hwf. destruct (encodable (stored self)) eqn:Henc.
  - unfold Playlists.__init__, load. now rewrite (load_file_saved clock fs self Hwf Henc).
  - apply (load_unreadable clock now (save fs self)
             {| data_file := data_file self; _playlists := ∅; _order := [] |}).
    right. left. cbn [data_file]. now rewrite lookup_save, Henc.
Qed.

(** X18.  What [save] writes is what the constructor reads: for a
    collection whose playlists are filed under their ids, listed in the
    order and settled, which has its default playlist and can be
    encoded, constructing a collection from the saved file gives the
    same map and the same order, and writes nothing.  A collection
    that cannot be encoded is not read back at all: [save] leaves a
    file cut short, and the constructor starts over with the default
    playlist alone and saves that. *)
Theorem save_then_load (clock : nat -> Z) (now : Z) (fs : filesystem)
    (self : Playlists) :
  well_formed lib self ->
  is_Some (_playlists self !! DEFAULT_PLAYLIST_ID) ->
  Playlists.__init__ lib clock now (save fs self) (data_file self)
  = if encodable (stored self)
    then Some (self, save fs self)
    else Some (only_default (data_file self) now,
               save (save fs self) (only_default (data_file self) now)).
Proof.
  intros Hwf [dpl Hd]. rewrite (init_after_save clock now fs self Hwf).
  unfold ensure_default. now rewrite Hd.
Qed.

Lemma elem_of_remove_id x k l : k <> x -> k ∈ l -> k ∈ remove_id x l.
Proof.
  intros Hne. induction l as [|y l IH]; [easy|].
  intros Hin. cbn [remove_id]. destruct (String.eqb x y) eqn:E.
  - apply String.eqb_eq in E. subst y.
    apply elem_of_cons in Hin as [->|Hin]; [contradiction|exact Hin].
  - apply elem_of_cons in Hin as [->|Hin]; apply elem_of_cons; auto.
Qed.

(** X19.  The default playlist cannot be deleted for good.
    [delete_playlist] accepts its id and saves the collection without
    it; the next construction from that file puts a new, empty default
    playlist in its place, lists it, and saves again.  The other
    playlists come back as they were, provided the collection without
    the default playlist could be encoded; if not, the file was cut
    short and the new default playlist is all there is. *)
Theorem deleted_default_comes_back (clock : nat -> Z) (now : Z) (fs fs1 : filesystem)
    (self self1 : Playlists) :
  well_formed lib self ->
  delete_playlist fs self DEFAULT_PLAYLIST_ID = (true, self1, fs1) ->
  exists self2 fs2,
    Playlists.__init__ lib clock now fs1 (data_file self) = Some (self2, fs2)
    /\ _playlists self2
       = <[DEFAULT_PLAYLIST_ID := new_default now]>
           (if encodable (stored self1) then _playlists self else ∅)
    /\ DEFAULT_PLAYLIST_ID ∈ _order self2
    /\ fs2 = save fs1 self2
    /\ in_step fs2 self2.
Proof.
  intros Hwf. unfold delete_playlist.
  destruct (_playlists self !! DEFAULT_PLAYLIST_ID) as [dpl|] eqn:Ed; [|discriminate].
  intros [= <- <-].
  set (self1 := {| data_file := data_file self;
                   _playlists := delete DEFAULT_PLAYLIST_ID (_playlists self);
                   _order := if bool_decide (DEFAULT_PLAYLIST_ID ∈ _order self)
                             then remove_id DEFAULT_PLAYLIST_ID (_order self)
                             else _order self |}).
  assert (Hwf1 : well_formed lib self1).
  { intros k pl Hk. cbn [self1 _playlists _order] in *.
    apply lookup_delete_Some in Hk as [Hne Hk].
    destruct (Hwf k pl Hk) as (Hid & Hin & Hs). split; [exact Hid|].
    split; [|exact Hs].
    destruct (bool_decide (DEFAULT_PLAYLIST_ID ∈ _order self)); [|exact Hin].
    apply elem_of_remove_id; [congruence|exact Hin]. }
  change (data_file self) with (data_file self1).
  rewrite (init_after_save clock now fs self1 Hwf1).
  destruct (encodable (stored self1)).
  - unfold ensure_default.
    assert (Hnone : _playlists self1 !! DEFAULT_PLAYLIST_ID = None)
      by apply lookup_delete_eq.
    rewrite Hnone, init_default.
    eexists _, _. split; [reflexivity|]. cbn [_playlists _order].
    split; [apply insert_delete_eq|]. split; [|split; [reflexivity|apply in_step_save]].
    destruct (bool_decide (DEFAULT_PLAYLIST_ID ∈ _order self1)) eqn:Eb.
    + now apply bool_decide_eq_true in Eb.
    + apply elem_of_cons. now left.
  - eexists _, _. split; [reflexivity|]. cbn [only_default _playlists _order].
    split; [symmetry; apply insert_empty|].
    split; [apply list_elem_of_here|]. split; [reflexivity|apply in_step_save].
Qed.

(** *** Memory and file in step *)



(** X22.  An exported playlist can be imported.  [export_playlist]
    returns true exactly when the record of the playlist can be
    encoded; importing the file it wrote for a settled playlist then
    registers that very playlist under its id, appends the id to the
    order list and saves.  The id is appended even if the order list
    has it already, as it has when the playlist is imported into the
    collection it was exported from.  Where the export returned false
    it left a file cut short, and importing that file returns [None]
    and changes nothing. *)
Theorem export_then_import (now : Z) (fs : filesystem) (self other : Playlists)
    (pid file : string) (pl : Playlist.Playlist) :
  _playlists self !! pid = Some pl ->
  settled lib pl ->
  let exported := export_playlist fs self pid file in
  let other' := {| data_file := data_file other;
                   _playlists := <[Playlist.id pl := pl]> (_playlists other);
                   _order := _order other ++ [Playlist.id pl] |} in
  exported.1 = encodable (JObj (Playlist.to_dict pl))
  /\ import_playlist lib now exported.2 other file
     = if encodable (JObj (Playlist.to_dict pl))
       then Some (Some pl, other', save exported.2 other')
       else Some (None, other, exported.2).
Proof.
  intros Hk Hs. cbv zeta. unfold export_playlist, write_json. rewrite Hk.
  destruct (encodable (JObj (Playlist.to_dict pl))); cbn [fst snd].
  - split; [reflexivity|]. unfold import_playlist.
    rewrite lookup_insert_eq.
    now rewrite (PlaylistMore.playlist_reads_back lib now pl Hs).
  - split; [reflexivity|]. unfold import_playlist.
    now rewrite lookup_insert_eq.
Qed.

Lemma search_in_filters keyword pls :
  search_in lib (Song.lower lib keyword) pls
  = if forallb has_text_name pls
    then Ok (List.filter (name_matches lib keyword) pls)
    else Raise.
Proof.
  induction pls as [|pl pls IH]; [reflexivity|].
  cbn [search_in List.filter forallb]. unfold name_matches at 1, has_text_name at 1.
  destruct (Playlist.name pl) as [| | |n| |]; try reflexivity.
  rewrite IH. cbn [andb]. now destruct (forallb has_text_name pls).
Qed.

(** X23.  [search_playlists] returns, in display order, the listed
    playlists whose lower-cased name contains the lower-cased keyword,
    provided every listed playlist has a string for a name; one listed
    playlist whose name is not a string makes the search raise,
    whatever the keyword. *)
Theorem search_playlists_filters (self : Playlists) (keyword : string) :
  search_playlists lib self keyword
  = if forallb has_text_name (get_all self)
    then Ok (List.filter (name_matches lib keyword) (get_all self))
    else Raise.
Proof.
  unfold search_playlists.
  induction (get_all self) as [|pl pls IH]; [reflexivity|].
  cbn [search_in List.filter forallb]. unfold name_matches at 1, has_text_name at 1.
  destruct (Playlist.name pl) as [| | |n| |]; try reflexivity.
  rewrite IH. cbn [andb]. now destruct (forallb has_text_name pls).
Qed.

(** X26.  A song added through the collection is read back exactly
    when the collection can be encoded.  After a successful
    [add_song_to_playlist] on a well-formed collection that has its
    default playlist, the new song is at the front of its playlist in
    memory.  If the collection can then be encoded, constructing a
    collection from the store file gives back the collection as it is
    in memory and writes nothing.  If it cannot (the song holds a lone
    surrogate, say), the call has returned true all the same, the store
    file is cut short, and the next construction starts over with the
    default playlist alone: every playlist is lost. *)
Theorem added_song_is_durable (clock : nat -> Z) (now now' : Z) (fs fs' : filesystem)
    (self self' : Playlists) (pid : string) (song song' : json) :
  well_formed lib self ->
  is_Some (_playlists self !! DEFAULT_PLAYLIST_ID) ->
  now <> 0 ->
  add_song_to_playlist lib now fs self pid song = (true, self', fs', song') ->
  get_playlist_songs self' pid = song' :: get_playlist_songs self pid
  /\ fs' = save fs self'
  /\ Playlists.__init__ lib clock now' fs' (data_file self)
     = if encodable (stored self')
       then Some (self', fs')
       else Some (only_default (data_file self) now',
                  save fs' (only_default (data_file self) now')).
Proof.
  intros Hwf Hdef Hnow. unfold add_song_to_playlist, get_playlist_songs.
  destruct (_playlists self !! pid) as [pl|] eqn:Ek; [|discriminate].
  destruct (Playlist.add_song lib now pl song) as [[res pl'] arg'] eqn:Ea.
  intros [= -> <- <- <-].
  destruct (Hwf pid pl Ek) as (Hid & Hin & Hs).
  destruct (PlaylistMore.add_song_settled lib now pl song pl' arg' Hs Hnow Ea)
    as [Hs' Hid'].
  set (self' := with_playlists self (<[pid := pl']> (_playlists self))).
  assert (Hwf' : well_formed lib self').
  { intros k p Hk. cbn [self' with_playlists _playlists _order] in *.
    apply lookup_insert_Some in Hk as [[<- <-]|[_ Hk]]; [|now apply Hwf].
    split; [congruence|]. now split. }
  assert (Hdef' : is_Some (_playlists self' !! DEFAULT_PLAYLIST_ID)).
  { cbn [self' with_playlists _playlists].
    destruct (decide (pid = DEFAULT_PLAYLIST_ID)) as [->|Hne].
    - rewrite lookup_insert_eq. eauto.
    - now rewrite lookup_insert_ne. }
  split.
  - cbn [self' with_playlists _playlists]. rewrite lookup_insert_eq.
    unfold Playlist.add_song in Ea.
    destruct song; match type of Ea with
                   | (if ?c then _ else _) = _ => destruct c; [discriminate|]
                   end; now injection Ea as <- <-.
  - split; [reflexivity|].
    change (data_file self) with (data_file self').
    rewrite (init_after_save clock now' fs self' Hwf').
    unfold ensure_default. destruct Hdef' as [d ->]. reflexivity.
Qed.

End WithLibrary.

(** X24.  [reorder_playlists] accepts a new order exactly when it has
    the same ids as the current one, repetitions aside.  It then
    leaves the map alone, shows the same playlists as before, and
    saves; otherwise nothing changes. *)
Theorem reorder_playlists_same_listing (fs fs' : filesystem) (self self' : Playlists)
    (new_order : list string) (done : bool) :
  reorder_playlists fs self new_order = (done, self', fs') ->
  (done = true <-> forall k, k ∈ new_order <-> k ∈ _order self)
  /\ if done then
       _playlists self' = _playlists self
       /\ _order self' = new_order
       /\ (forall pl, pl ∈ get_all self' <-> pl ∈ get_all self)
       /\ fs' = save fs self'
     else self' = self /\ fs' = fs.
Proof.
  unfold reorder_playlists.
  destruct (bool_decide ((list_to_set new_order : gset string)
                         = list_to_set (_order self))) eqn:Eb;
    intros [= <- <- <-].
  - apply bool_decide_eq_true in Eb.
    assert (Hsame : forall k, k ∈ new_order <-> k ∈ _order self).
    { intros k. rewrite <- !(elem_of_list_to_set (C := gset string)). now rewrite Eb. }
    split; [tauto|]. split; [reflexivity|]. split; [reflexivity|].
    split; [|reflexivity].
    intros pl. unfold get_all, with_order. cbn [_playlists _order].
    rewrite !list_elem_of_omap. split; intros (k & Hk & Hpl); exists k;
      (split; [now apply Hsame|exact Hpl]).
  - apply bool_decide_eq_false in Eb. split; [|now split].
    split; [discriminate|]. intros Hsame. exfalso. apply Eb.
    apply set_eq. intros k. rewrite !elem_of_list_to_set. apply Hsame.
Qed.

(** X25.  An operation on one playlist leaves the others alone, and an
    operation on an id the collection does not hold changes neither
    the collection nor the files. *)
Theorem other_playlists_untouched (lib : Song.Library) (now : Z) (fs : filesystem)
    (self : Playlists) (pid : string) :
  (forall k, k <> pid ->
     (forall new_name,
        get_playlist (rename_playlist now fs self pid new_name).1.2 k
        = get_playlist self k)
     /\ (forall song,
          get_playlist (add_song_to_playlist lib now fs self pid song).1.1.2 k
          = get_playlist self k)
     /\ (forall song,
          get_playlist (remove_song_from_playlist now fs self pid song).1.2 k
          = get_playlist self k)
     /\ (forall index,
          get_playlist (Playlists.remove_song_at_index now fs self pid index).1.2 k
          = get_playlist self k)
     /\ get_playlist (clear_playlist now fs self pid).1.2 k = get_playlist self k
     /\ get_playlist (delete_playlist fs self pid).1.2 k = get_playlist self k)
  /\ (get_playlist self pid = None ->
      (forall new_name,
         rename_playlist now fs self pid new_name = (false, self, fs))
      /\ (forall song,
           add_song_to_playlist lib now fs self pid song = (false, self, fs, song))
      /\ (forall song,
           remove_song_from_playlist now fs self pid song = (false, self, fs))
      /\ (forall index,
           Playlists.remove_song_at_index now fs self pid index = (JNull, self, fs))
      /\ (forall new_order,
           reorder_playlist_songs now fs self pid new_order = Ok (false, self, fs))
      /\ clear_playlist now fs self pid = (false, self, fs)
      /\ delete_playlist fs self pid = (false, self, fs)
      /\ get_playlist_songs self pid = []
      /\ (forall file, export_playlist fs self pid file = (false, fs))).
Proof.
  unfold get_playlist. split.
  - intros k Hne.
    assert (Hins : forall pl, <[pid := pl]> (_playlists self) !! k = _playlists self !! k).
    { intros pl. apply lookup_insert_ne. congruence. }
    split. { intros new_name. unfold rename_playlist.
             destruct (_playlists self !! pid); [apply Hins|reflexivity]. }
    split. { intros song. unfold add_song_to_playlist.
             destruct (_playlists self !! pid) as [pl|]; [|reflexivity].
             destruct (Playlist.add_song lib now pl song) as [[res pl'] song'].
             apply Hins. }
    split. { intros song. unfold remove_song_from_playlist.
             destruct (_playlists self !! pid) as [pl|]; [|reflexivity].
             destruct (PlaylistOps.remove_song now pl song) as [res pl'].
             apply Hins. }
    split. { intros index. unfold Playlists.remove_song_at_index.
             destruct (_playlists self !! pid) as [pl|]; [|reflexivity].
             destruct (Playlist.remove_song_at_index now pl index) as [res pl'].
             apply Hins. }
    split. { unfold clear_playlist.
             destruct (_playlists self !! pid); [apply Hins|reflexivity]. }
    unfold delete_playlist.
    destruct (_playlists self !! pid); [|reflexivity].
    cbn [fst snd _playlists]. apply lookup_delete_ne. congruence.
  - intros Hnone.
    unfold rename_playlist, add_song_to_playlist, remove_song_from_playlist,
      Playlists.remove_song_at_index, reorder_playlist_songs, clear_playlist,
      delete_playlist, get_playlist_songs, export_playlist.
    rewrite Hnone. repeat split.
Qed.

Lemma home_well_formed : well_formed RefLib.lib home.
Proof.
  intros k pl Hk. cbn [home _playlists] in Hk.
  apply lookup_singleton_Some in Hk as [<- <-].
  split; [reflexivity|]. split; [apply list_elem_of_singleton; reflexivity|].
  repeat split; discriminate.
Qed.

Lemma load_writes_only_new_default_witness :
  load RefLib.lib (fun _ => 5) 9 ∅ fresh_collection
  = Some (only_default store_file 9, save ∅ (only_default store_file 9))
  /\ ((save ∅ (only_default store_file 9) : filesystem) = ∅
      \/ (save ∅ (only_default store_file 9) = save ∅ (only_default store_file 9)
          /\ _playlists (only_default store_file 9) !! DEFAULT_PLAYLIST_ID
             = Some (new_default 9))).
Proof.
  assert (H : load RefLib.lib (fun _ => 5) 9 ∅ fresh_collection
              = Some (only_default store_file 9, save ∅ (only_default store_file 9))).
  { apply (load_unreadable RefLib.lib (fun _ => 5) 9 ∅ fresh_collection).
    left. apply lookup_empty. }
  split; [exact H|].
  exact (load_writes_only_new_default RefLib.lib (fun _ => 5) 9 ∅ _
           fresh_collection _ H).
Defined.

Lemma load_resets_unreadable_store_witness :
  ({[ store_file := Corrupt ]} : filesystem) !! data_file fresh_collection = Some Corrupt
  /\ exists self' fs',
      load RefLib.lib (fun _ => 5) 9 {[ store_file := Corrupt ]} fresh_collection
      = Some (self', fs')
      /\ get_all self' = [new_default 9]
      /\ fs' !! store_file = Some (Parsed (stored self')).
Proof.
  assert (H : ({[ store_file := Corrupt ]} : filesystem) !! data_file fresh_collection
              = Some Corrupt) by apply lookup_singleton_eq.
  split; [exact H|].
  destruct (load_resets_unreadable_store RefLib.lib (fun _ => 5) 9
              {[ store_file := Corrupt ]} fresh_collection (or_intror (or_introl H)))
    as (self' & fs' & Hload & Hall & _ & Hfile & _).
  exists self', fs'. split; [exact Hload|]. split; [exact Hall|exact Hfile].
Defined.

Lemma init_lists_every_playlist_witness :
  Playlists.__init__ RefLib.lib (fun _ => 5) 9 ∅ store_file
  = Some (only_default store_file 9, save ∅ (only_default store_file 9))
  /\ data_file (only_default store_file 9) = store_file
  /\ is_Some (_playlists (only_default store_file 9) !! DEFAULT_PLAYLIST_ID).
Proof.
  assert (H : Playlists.__init__ RefLib.lib (fun _ => 5) 9 ∅ store_file
              = Some (only_default store_file 9, save ∅ (only_default store_file 9))).
  { apply (load_unreadable RefLib.lib (fun _ => 5) 9 ∅ fresh_collection).
    left. apply lookup_empty. }
  split; [exact H|].
  destruct (init_lists_every_playlist RefLib.lib (fun _ => 5) 9 ∅ _ store_file _ H)
    as (Hf & Hd & _).
  split; [exact Hf|exact Hd].
Defined.

Lemma home_encodable : encodable (stored home) = true.
Proof.
  unfold stored, get_all, home. cbn [_order _playlists omap list_omap].
  rewrite lookup_singleton_eq. reflexivity.
Qed.

Lemma save_then_load_witness :
  well_formed RefLib.lib home
  /\ is_Some (_playlists home !! DEFAULT_PLAYLIST_ID)
  /\ encodable (stored home) = true
  /\ Playlists.__init__ RefLib.lib (fun _ => 5) 9 (save ∅ home) (data_file home)
     = Some (home, save ∅ home).
Proof.
  assert (Hd : is_Some (_playlists home !! DEFAULT_PLAYLIST_ID)).
  { exists default_two. apply lookup_singleton_eq. }
  split; [exact home_well_formed|]. split; [exact Hd|].
  split; [exact home_encodable|].
  pose proof (save_then_load RefLib.lib (fun _ => 5) 9 ∅ home home_well_formed Hd)
    as H.
  rewrite home_encodable in H. exact H.
Defined.

Lemma deleted_default_comes_back_witness :
  well_formed RefLib.lib home
  /\ exists self1 fs1,
      delete_playlist ∅ home DEFAULT_PLAYLIST_ID = (true, self1, fs1)
      /\ encodable (stored self1) = true
      /\ exists self2 fs2,
          Playlists.__init__ RefLib.lib (fun _ => 5) 9 fs1 (data_file home)
          = Some (self2, fs2)
          /\ _playlists self2
             = <[DEFAULT_PLAYLIST_ID := new_default 9]> (_playlists home).
Proof.
  split; [exact home_well_formed|].
  assert (Hdel : exists self1 fs1,
            delete_playlist ∅ home DEFAULT_PLAYLIST_ID = (true, self1, fs1)
            /\ encodable (stored self1) = true).
  { unfold delete_playlist.
    replace (_playlists home !! DEFAULT_PLAYLIST_ID) with (Some default_two)
      by (symmetry; apply lookup_singleton_eq).
    eexists _, _. split; [reflexivity|].
    unfold stored, get_all. cbn [_order home].
    rewrite bool_decide_eq_true_2 by apply list_elem_of_here. reflexivity. }
  destruct Hdel as (self1 & fs1 & Hdel & Henc). exists self1, fs1.
  split; [exact Hdel|]. split; [exact Henc|].
  destruct (deleted_default_comes_back RefLib.lib (fun _ => 5) 9 ∅ fs1 home self1
              home_well_formed Hdel) as (self2 & fs2 & Hinit & Hmap & _).
  rewrite Henc in Hmap.
  exists self2, fs2. split; [exact Hinit|exact Hmap].
Defined.


Lemma export_then_import_witness :
  _playlists home !! DEFAULT_PLAYLIST_ID = Some default_two
  /\ settled RefLib.lib default_two
  /\ (export_playlist ∅ home DEFAULT_PLAYLIST_ID "out.json").1 = true
  /\ exists r,
      import_playlist RefLib.lib 9
        (export_playlist ∅ home DEFAULT_PLAYLIST_ID "out.json").2 home "out.json"
      = Some (Some default_two, r.1, r.2)
      /\ _order r.1 = [DEFAULT_PLAYLIST_ID; DEFAULT_PLAYLIST_ID].
Proof.
  assert (Hk : _playlists home !! DEFAULT_PLAYLIST_ID = Some default_two)
    by apply lookup_singleton_eq.
  assert (Hs : settled RefLib.lib default_two) by (repeat split; discriminate).
  split; [exact Hk|]. split; [exact Hs|].
  destruct (export_then_import RefLib.lib 9 ∅ home home DEFAULT_PLAYLIST_ID
              "out.json" default_two Hk Hs) as [Hexp Himp].
  split; [exact Hexp|]. eexists (_, _). split; [exact Himp|reflexivity].
Defined.

Lemma reorder_playlists_same_listing_witness :
  reorder_playlists ∅ home [DEFAULT_PLAYLIST_ID; DEFAULT_PLAYLIST_ID]
  = (true, with_order home [DEFAULT_PLAYLIST_ID; DEFAULT_PLAYLIST_ID],
     save ∅ (with_order home [DEFAULT_PLAYLIST_ID; DEFAULT_PLAYLIST_ID]))
  /\ _playlists (with_order home [DEFAULT_PLAYLIST_ID; DEFAULT_PLAYLIST_ID])
     = _playlists home.
Proof.
  assert (H : reorder_playlists ∅ home [DEFAULT_PLAYLIST_ID; DEFAULT_PLAYLIST_ID]
              = (true, with_order home [DEFAULT_PLAYLIST_ID; DEFAULT_PLAYLIST_ID],
                 save ∅ (with_order home [DEFAULT_PLAYLIST_ID; DEFAULT_PLAYLIST_ID]))).
  { unfold reorder_playlists. rewrite bool_decide_eq_true_2; [reflexivity|].
    apply set_eq. intros k. rewrite !elem_of_list_to_set.
    cbn [_order home]. rewrite !elem_of_cons. tauto. }
  split; [exact H|].
  destruct (reorder_playlists_same_listing _ _ _ _ _ _ H) as (_ & Hmap & _).
  exact Hmap.
Defined.

Lemma added_song_is_durable_witness :
  well_formed RefLib.lib home
  /\ is_Some (_playlists home !! DEFAULT_PLAYLIST_ID)
  /\ 7 <> 0
  /\ (exists self' fs',
        add_song_to_playlist RefLib.lib 7 ∅ home DEFAULT_PLAYLIST_ID (JStr "c")
        = (true, self', fs', JStr "c")
        /\ Playlists.__init__ RefLib.lib (fun _ => 5) 9 fs' (data_file home)
           = Some (self', fs'))
  /\ (exists self' fs',
        add_song_to_playlist RefLib.lib 7 ∅ home DEFAULT_PLAYLIST_ID
          (JStr lone_surrogate)
        = (true, self', fs', JStr lone_surrogate)
        /\ Playlists.__init__ RefLib.lib (fun _ => 5) 9 fs' (data_file home)
           = Some (only_default store_file 9, save fs' (only_default store_file 9))).
Proof.
  assert (Hd : is_Some (_playlists home !! DEFAULT_PLAYLIST_ID)).
  { exists default_two. apply lookup_singleton_eq. }
  assert (Hnow : 7 <> 0) by discriminate.
  assert (Hadd : forall x, x <> "a" -> x <> "b" ->
            let self' := with_playlists home
                           (<[DEFAULT_PLAYLIST_ID :=
                                Playlist.set_songs default_two
                                  [JStr x; JStr "a"; JStr "b"] 7]> (_playlists home)) in
            add_song_to_playlist RefLib.lib 7 ∅ home DEFAULT_PLAYLIST_ID (JStr x)
            = (true, self', save ∅ self', JStr x)
            /\ encodable (stored self') = negb (has_surrogate x)).
  { intros x Ha Hb. cbv zeta. split.
    - unfold add_song_to_playlist.
      replace (_playlists home !! DEFAULT_PLAYLIST_ID) with (Some default_two)
        by (symmetry; apply lookup_singleton_eq).
      unfold Playlist.add_song, py_in. cbn [default_two Playlist.songs existsb py_eq].
      apply String.eqb_neq in Ha, Hb. now rewrite Ha, Hb.
    - unfold stored, get_all.
      cbn [with_playlists _order _playlists home omap list_omap].
      rewrite lookup_insert_eq. cbn. now rewrite !andb_true_r. }
  split; [exact home_well_formed|]. split; [exact Hd|]. split; [exact Hnow|].
  split.
  - destruct (Hadd "c" ltac:(discriminate) ltac:(discriminate)) as [Hrun Henc].
    eexists _, _. split; [exact Hrun|].
    destruct (added_song_is_durable RefLib.lib (fun _ => 5) 7 9 ∅ _ home _
                DEFAULT_PLAYLIST_ID (JStr "c") (JStr "c")
                home_well_formed Hd Hnow Hrun) as (_ & _ & Hinit).
    rewrite Henc in Hinit. exact Hinit.
  - destruct (Hadd lone_surrogate ltac:(discriminate) ltac:(discriminate))
      as [Hrun Henc].
    eexists _, _. split; [exact Hrun|].
    destruct (added_song_is_durable RefLib.lib (fun _ => 5) 7 9 ∅ _ home _
                DEFAULT_PLAYLIST_ID (JStr lone_surrogate) (JStr lone_surrogate)
                home_well_formed Hd Hnow Hrun) as (_ & _ & Hinit).
    rewrite Henc in Hinit. exact Hinit.
Defined.

Lemma other_playlists_untouched_witness :
  DEFAULT_PLAYLIST_ID <> "x"
  /\ get_playlist home "x" = None
  /\ get_playlist (clear_playlist 9 ∅ home "x").1.2 DEFAULT_PLAYLIST_ID
     = get_playlist home DEFAULT_PLAYLIST_ID
  /\ delete_playlist ∅ home "x" = (false, home, ∅).
Proof.
  assert (Hne : DEFAULT_PLAYLIST_ID <> "x") by discriminate.
  assert (Hnone : get_playlist home "x" = None)
    by (apply lookup_singleton_ne; discriminate).
  destruct (other_playlists_untouched RefLib.lib 9 ∅ home "x") as [Hother Hunknown].
  destruct (Hother DEFAULT_PLAYLIST_ID Hne) as (_ & _ & _ & _ & Hclear & _).
  destruct (Hunknown Hnone) as (_ & _ & _ & _ & _ & _ & Hdel & _).
  split; [exact Hne|]. split; [exact Hnone|]. split; [exact Hclear|exact Hdel].
Defined.

End PlaylistsMore.

(** ** Loading a store file in the legacy shape *)

Module LoadClaims.
Import PlaylistsSpec ModelSpec Examples SaveFacts LoadFacts.
Import Playlists.

Section WithLibrary.
Variable lib : Song.Library.

Lemma load_file_legacy clock fs self recs :
  fs !! data_file self = Some (Parsed (JList recs)) ->
  Forall typed_record recs ->
  exists m,
    load_file lib clock fs self
    = Some ({| data_file := data_file self; _playlists := m;
               _order := first_occurrences (ids_from clock 0 recs) |}, fs)
    /\ dom m = dom (_playlists self) ∪ list_to_set (ids_from clock 0 recs).
Proof.
  intros Hfile Hty.
  destruct (load_loop_typed lib clock recs 0 (_playlists self) [] false Hty)
    as (m & changed & Hloop & Hdom).
  rewrite order_loop_nil in Hloop.
  pose proof (PlaylistsMore.load_loop_flag lib _ _ _ _ _ _ _ _ _ Hloop) as ->.
  exists m. split; [|exact Hdom].
  unfold load_file. rewrite Hfile. cbn [split_store]. now rewrite Hloop.
Qed.

(** C9, amended.  On a collection whose map does not hold the default
    playlist yet, as at construction, a store file that is a bare array
    of playlist records loads: the order list holds the ids of the
    loaded playlists in file order, each once, behind the default id if
    that was not among them; the default playlist is in the map then.
    Where it had to be created the collection has been saved (the store
    file holds it, or is cut short where it cannot be encoded);
    otherwise nothing is written. *)
Theorem load_legacy_array (clock : nat -> Z) (now : Z) (fs : filesystem)
    (self : Playlists) (recs : list json) :
  fs !! data_file self = Some (Parsed (JList recs)) ->
  Forall typed_record recs ->
  _playlists self !! DEFAULT_PLAYLIST_ID = None ->
  let ids := ids_from clock 0 recs in
  let front := if bool_decide (DEFAULT_PLAYLIST_ID ∈ ids) then []
               else [DEFAULT_PLAYLIST_ID] in
  exists self' fs',
    load lib clock now fs self = Some (self', fs')
    /\ _order self' = front ++ first_occurrences ids
    /\ (NoDup ids -> _order self' = front ++ ids)
    /\ is_Some (_playlists self' !! DEFAULT_PLAYLIST_ID)
    /\ (forall i, i ∈ ids -> is_Some (_playlists self' !! i))
    /\ (DEFAULT_PLAYLIST_ID ∉ ids ->
        fs' = save fs self'
        /\ _playlists self' !! DEFAULT_PLAYLIST_ID = Some (new_default now)
        /\ fs' !! data_file self
           = Some (if encodable (stored self') then Parsed (stored self')
                   else Corrupt))
    /\ (DEFAULT_PLAYLIST_ID ∈ ids -> fs' = fs)
    /\ data_file self' = data_file self.
Proof.
  intros Hfile Hty Hnodefault. cbv zeta.
  destruct (load_file_legacy clock fs self recs Hfile Hty) as (m & Hload & Hdom).
  assert (Hin : forall i, i ∈ ids_from clock 0 recs -> is_Some (m !! i)).
  { intros i Hi. apply elem_of_dom. rewrite Hdom. set_solver. }
  assert (Hdef : m !! DEFAULT_PLAYLIST_ID = None
                 <-> DEFAULT_PLAYLIST_ID ∉ ids_from clock 0 recs).
  { rewrite <- not_elem_of_dom, Hdom.
    apply not_elem_of_dom in Hnodefault. set_solver. }
  unfold load. rewrite Hload.
  unfold ensure_default. cbn [_playlists _order data_file].
  destruct (m !! DEFAULT_PLAYLIST_ID) as [dpl|] eqn:Em.
  - assert (Hmem : DEFAULT_PLAYLIST_ID ∈ ids_from clock 0 recs).
    { destruct (decide (DEFAULT_PLAYLIST_ID ∈ ids_from clock 0 recs)) as [H|H];
        [exact H|]. apply Hdef in H. discriminate. }
    rewrite (bool_decide_eq_true_2 _ Hmem).
    eexists _, _. split; [reflexivity|]. cbn [_playlists _order data_file].
    split; [reflexivity|]. split.
    { intros Hnd. now rewrite first_occurrences_NoDup. }
    split; [rewrite Em; eauto|]. split; [exact Hin|].
    split; [intros H; contradiction|]. split; reflexivity.
  - assert (Hnot : DEFAULT_PLAYLIST_ID ∉ ids_from clock 0 recs)
      by now apply Hdef.
    rewrite (bool_decide_eq_false_2 _ Hnot).
    assert (Hord : DEFAULT_PLAYLIST_ID ∉ first_occurrences (ids_from clock 0 recs)).
    { intros H. apply Hnot. apply list_elem_of_In.
      apply list_elem_of_In in H. now apply in_first_occurrences. }
    rewrite PlaylistsMore.init_default.
    cbn [_playlists _order]. rewrite (bool_decide_eq_false_2 _ Hord).
    eexists _, _. split; [reflexivity|]. cbn [_playlists _order data_file].
    split; [reflexivity|]. split.
    { intros Hnd. now rewrite first_occurrences_NoDup. }
    split; [rewrite lookup_insert_eq; eauto|]. split.
    { intros i Hi. destruct (decide (DEFAULT_PLAYLIST_ID = i)) as [<-|Hne].
      - rewrite lookup_insert_eq. eauto.
      - rewrite lookup_insert_ne by exact Hne. now apply Hin. }
    split; [|split; [intros H; contradiction|reflexivity]].
    intros _. split; [reflexivity|]. split; [apply lookup_insert_eq|].
    exact (lookup_save fs {| data_file := data_file self;
                             _playlists := _; _order := _ |}).
Qed.

End WithLibrary.

Lemma legacy_store_typed : Forall typed_record legacy_store.
Proof.
  repeat constructor.
  - eexists. split; [reflexivity|]. split; [right|right]; eexists; reflexivity.
  - eexists. split; [reflexivity|]. split; [right|left]; [eexists|]; reflexivity.
Qed.

Lemma load_legacy_array_witness :
  legacy_fs !! data_file fresh_collection = Some (Parsed (JList legacy_store))
  /\ Forall typed_record legacy_store
  /\ _playlists fresh_collection !! DEFAULT_PLAYLIST_ID = None
  /\ exists self' fs',
       load RefLib.lib (fun i => 1000 + Z.of_nat i) 2000 legacy_fs fresh_collection
       = Some (self', fs')
       /\ _order self' = ["default"; "rock"; "jazz"]
       /\ _playlists self' !! "default" = Some (new_default 2000)
       /\ fs' = save legacy_fs self'.
Proof.
  assert (H1 : legacy_fs !! data_file fresh_collection
               = Some (Parsed (JList legacy_store)))
    by apply lookup_singleton_eq.
  assert (H3 : _playlists fresh_collection !! DEFAULT_PLAYLIST_ID = None)
    by apply lookup_empty.
  destruct (load_legacy_array RefLib.lib (fun i => 1000 + Z.of_nat i) 2000
              legacy_fs fresh_collection legacy_store H1 legacy_store_typed H3)
    as (self' & fs' & Hload & Hord & _ & _ & _ & Hsave & _).
  assert (Hnot : DEFAULT_PLAYLIST_ID
                 ∉ ids_from (fun i => 1000 + Z.of_nat i) 0 legacy_store).
  { intros H. apply list_elem_of_In in H. simpl in H.
    destruct H as [H|[H|[]]]; discriminate. }
  split; [exact H1|]. split; [exact legacy_store_typed|]. split; [exact H3|].
  exists self', fs'. split; [exact Hload|]. split; [exact Hord|].
  destruct (Hsave Hnot) as (Hfs & Hdef & _). split; [exact Hdef|exact Hfs].
Defined.

(** C9 as stated fails for [load] on a collection that holds the
    default playlist already: the legacy array loads, but the order
    list is that of the file alone, without the default id, and nothing
    is saved. *)
Lemma load_legacy_array_leaves_default_out :
  exists self',
    _playlists home !! DEFAULT_PLAYLIST_ID = Some default_two
    /\ legacy_fs !! data_file home = Some (Parsed (JList legacy_store))
    /\ load RefLib.lib (fun i => 1000 + Z.of_nat i) 2000 legacy_fs home
       = Some (self', legacy_fs)
    /\ _order self' = ["rock"; "jazz"]
    /\ (DEFAULT_PLAYLIST_ID ∉ _order self')
    /\ is_Some (_playlists self' !! DEFAULT_PLAYLIST_ID).
Proof.
  assert (H0 : _playlists home !! DEFAULT_PLAYLIST_ID = Some default_two)
    by apply lookup_singleton_eq.
  assert (H1 : legacy_fs !! data_file home = Some (Parsed (JList legacy_store)))
    by apply lookup_singleton_eq.
  destruct (load_file_legacy RefLib.lib (fun i => 1000 + Z.of_nat i) legacy_fs home
              legacy_store H1 legacy_store_typed) as (m & Hload & Hdom).
  assert (Hd : is_Some (m !! DEFAULT_PLAYLIST_ID)).
  { apply elem_of_dom. rewrite Hdom. apply elem_of_union_l.
    apply elem_of_dom. rewrite H0. eauto. }
  destruct Hd as [dpl Hd].
  eexists. split; [exact H0|]. split; [exact H1|]. split.
  { unfold load. rewrite Hload. unfold ensure_default. cbn [_playlists].
    rewrite Hd. reflexivity. }
  cbn [_order _playlists]. split; [reflexivity|]. split; [|rewrite Hd; eauto].
  intros H. apply list_elem_of_In in H. simpl in H.
  destruct H as [H|[H|[]]]; discriminate.
Qed.

End LoadClaims.
